(** * Multi-reference evaluation of machine translations

    A shallow embedding of [mt_eval/src/evaluator.py]: the seven metric
    wrappers of class [Evaluator], [evaluate_single],
    [evaluate_per_reference], [evaluate_chunk], [evaluate_all] and
    [aggregate_results], together with the constructor of the class
    ([__init__], [_setup_metrics]) and the validation of parsed chunks
    ([validate_parsed_chunks] of [src/parser.py]), followed by the
    properties of the specification that concern them and by further
    properties of the code.

    Modelling conventions.
    - A Python float is a rational ([Qc], canonical fractions, so that
      equal numbers are equal terms) or the one infinity the source writes
      itself, [-float('inf')].  A metric library is taken to return finite
      numbers.  Comparisons are those of the program.  Arithmetic is exact
      in [np_mean], [np_std] and the division by 100; where rounding
      decides a property, [aggregate_results] is taken with numpy's own
      mean and deviation as parameters (module [Numpy]), and
      [double_mean], [double_std] compute them in double precision.
    - A Python [dict] is an association list in insertion order, with the
      update-in-place semantics of [d[k] = v].
    - Code inside [try: ... except Exception] runs in the error monad
      [py]; the handler is [catch].  [KeyboardInterrupt] and [SystemExit]
      are not [Exception]s and are outside the model.
    - The metric libraries (SacreBLEU, NLTK, rouge-score, bert-score,
      BLEURT, COMET), [str.lower], NLTK's tokenizer, torch's MPS probe and
      numpy's square root are parameters. *)

From Stdlib Require Import List String Ascii Bool Arith Lia ZArith.
From Stdlib Require Import QArith Qcanon Qround.
From Stdlib Require Import Permutation Sorted.
From Stdlib Require Import DecimalString.
From Stdlib Require DecimalNat DecimalFacts.
From ExtLib Require Import Structures.Monad Structures.MonadExc.
From ExtLib Require Import Data.Monads.EitherMonad.
Import ListNotations.
Import MonadNotation.
Local Open Scope monad_scope.
Local Open Scope string_scope.
Local Close Scope Q_scope.
Local Close Scope Qc_scope.
Local Open Scope list_scope.

Set Implicit Arguments.

(* ================================================================== *)
(** ** Python dictionaries *)
(* ================================================================== *)

Module Dict.

Definition t (V : Type) := list (string * V).

Fixpoint get {V} (d : t V) (k : string) : option V :=
  match d with
  | [] => None
  | (k', v) :: d' => if String.eqb k k' then Some v else get d' k
  end.

Definition mem {V} (d : t V) (k : string) : bool :=
  match get d k with Some _ => true | None => false end.

(** [d[k] = v]: an existing key keeps its position. *)
Fixpoint set {V} (d : t V) (k : string) (v : V) : t V :=
  match d with
  | [] => [(k, v)]
  | (k', v') :: d' =>
      if String.eqb k k' then (k', v) :: d' else (k', v') :: set d' k v
  end.

(** [d[k] = f(d[k])] on a [defaultdict] whose factory yields [dflt]. *)
Fixpoint update {V} (d : t V) (k : string) (dflt : V) (f : V -> V) : t V :=
  match d with
  | [] => [(k, f dflt)]
  | (k', v') :: d' =>
      if String.eqb k k' then (k', f v') :: d'
      else (k', v') :: update d' k dflt f
  end.

Definition keys {V} (d : t V) : list string := map fst d.
Definition values {V} (d : t V) : list V := map snd d.

(** [{key(x): val(x) for x in l}] *)
Definition comprehension {A V} (key : A -> string) (val : A -> V)
    (l : list A) : t V :=
  fold_left (fun d x => set d (key x) (val x)) l [].

End Dict.

(* ================================================================== *)
(** ** Floats *)
(* ================================================================== *)

Inductive float : Type :=
  | NegInf
  | Fin (q : Qc).

Definition Qcltb (x y : Qc) : bool :=
  match (x ?= y)%Qc with Lt => true | _ => false end.

(** [x < y] on floats. *)
Definition fltb (x y : float) : bool :=
  match x, y with
  | NegInf, NegInf => false
  | NegInf, Fin _ => true
  | Fin _, NegInf => false
  | Fin a, Fin b => Qcltb a b
  end.

(** [x > y] *)
Definition fgtb (x y : float) : bool := fltb y x.

Definition fle (x y : float) : Prop := fltb y x = false.

Definition hundred : Qc := Q2Qc 100.

(* ================================================================== *)
(** ** Strings *)
(* ================================================================== *)

(** [c.isspace()] for the code points below 256. *)
Definition py_isspace (c : ascii) : bool :=
  let n := nat_of_ascii c in
  (((9 <=? n) && (n <=? 13)) || ((28 <=? n) && (n <=? 32))
   || (n =? 133) || (n =? 160))%nat.

Fixpoint lstrip (s : string) : string :=
  match s with
  | EmptyString => EmptyString
  | String c s' => if py_isspace c then lstrip s' else s
  end.

Fixpoint rstrip (s : string) : string :=
  match s with
  | EmptyString => EmptyString
  | String c s' =>
      match rstrip s' with
      | EmptyString => if py_isspace c then EmptyString else String c EmptyString
      | r => String c r
      end
  end.

(** [s.strip()] *)
Definition strip (s : string) : string := rstrip (lstrip s).

(** Truth value of a string: [bool(s)]. *)
Definition truthy (s : string) : bool :=
  match s with EmptyString => false | _ => true end.

(** [f'ref{n}'] *)
Definition ref_id (n : nat) : string :=
  "ref" ++ NilZero.string_of_uint (Nat.to_uint n).

(* ================================================================== *)
(** ** Exceptions *)
(* ================================================================== *)

(** An instance of [Exception], by its message. *)
Definition exn := string.

Definition py : Type -> Type := sum exn.

(** [for i, x in enumerate(l, start): s = body(i, x, s)] *)
Fixpoint for_enumerate {A St} (l : list A) (start : nat)
    (body : nat -> A -> St -> py St) (s : St) : py St :=
  match l with
  | [] => ret s
  | x :: l' => s' <- body start x s ;; for_enumerate l' (S start) body s'
  end.

(** [[f(x) for x in l]] where [f] may raise *)
Fixpoint map_py {A B} (f : A -> py B) (l : list A) : py (list B) :=
  match l with
  | [] => ret []
  | x :: l' => y <- f x ;; ys <- map_py f l' ;; ret (y :: ys)
  end.

(* ================================================================== *)
(** ** Data model *)
(* ================================================================== *)

(** Values found in [EvaluationScore.details]. *)
Inductive dval : Type :=
  | DFloat (x : float)
  | DInt (n : nat)
  | DStr (s : string).

Record EvaluationScore : Type := mkScore {
  metric_name : string;
  score : float;
  details : Dict.t dval
}.

Record ChunkEvaluation : Type := mkChunkEvaluation {
  chunk_id : string;
  model_name : string;
  scores : list EvaluationScore;
  per_reference_scores : Dict.t (Dict.t float)
}.

(* ================================================================== *)
(** ** The metric libraries *)
(* ================================================================== *)

(** Result of SacreBLEU's [BLEU.sentence_score]. *)
Record BLEUScore : Type := mkBLEU { bleu_raw : Qc; bleu_bp : Qc }.

(** The ['rougeL'] entry of rouge-score's [RougeScorer.score]. *)
Record RougeScore : Type := mkRouge {
  rouge_precision : Qc;
  rouge_recall : Qc;
  rouge_fmeasure : Qc
}.

(** [self.metric_handlers]: a metric whose library failed to load has no
    entry. *)
Record Handlers : Type := mkHandlers {
  (** [BLEU.sentence_score(hypothesis, references)] *)
  h_bleu : option (string -> list string -> py BLEUScore);
  (** [CHRF.sentence_score(hypothesis, references).score] *)
  h_chrf : option (string -> list string -> py Qc);
  (** [meteor_score(ref_tokens_list, hyp_tokens)] *)
  h_meteor : option (list (list string) -> list string -> py Qc);
  (** [scorer.score(reference, hypothesis)['rougeL']] *)
  h_rouge : option (string -> string -> py RougeScore);
  (** [bert_score.score([hypothesis], [reference], device=...)], as
      [(float(P[0]), float(R[0]), float(F1[0]))] *)
  h_bertscore : option (string -> string -> string -> py (Qc * Qc * Qc));
  (** [scorer.score(references=[reference], candidates=[hypothesis])[0]] *)
  h_bleurt : option (string -> string -> py Qc);
  (** [model.predict([{src, mt, ref}], gpus=, num_workers=)['scores'][0]] *)
  h_comet : option (string -> string -> string -> nat -> nat -> py Qc)
}.

Record Evaluator : Type := mkEvaluator {
  metric_handlers : Handlers;
  use_gpu : bool
}.

(** What the wrappers import besides the metric itself. *)
Record Libs : Type := mkLibs {
  (** [str.lower] *)
  py_lower : string -> string;
  (** [nltk.tokenize.word_tokenize], import included *)
  word_tokenize : string -> py (list string);
  (** [import torch; torch.backends.mps.is_available()] *)
  mps_is_available : py bool
}.

(* ================================================================== *)
(** ** Loading the metrics *)
(* ================================================================== *)

(** How the body of a [try] block that loads a metric ends: [ImportError]
    is told from the other exceptions because [_setup_metrics] handles it
    on its own. *)
Inductive Load (A : Type) : Type :=
  | Loaded (handler : A)
  | ImportError
  | OtherError (e : exn).

Arguments Loaded {A} handler.
Arguments ImportError {A}.
Arguments OtherError {A} e.

(** The machine the evaluator is built on: what importing and constructing
    each metric gives there. *)
Record Site : Type := mkSite {
  (** [from sacrebleu.metrics import BLEU; BLEU(effective_order=True)] *)
  load_bleu : Load (string -> list string -> py BLEUScore);
  (** [from sacrebleu.metrics import CHRF; CHRF(word_order=2)] *)
  load_chrf : Load (string -> list string -> py Qc);
  (** [import nltk], [meteor_score] and the two [nltk.download] calls *)
  load_meteor : Load (list (list string) -> list string -> py Qc);
  (** [rouge_scorer.RougeScorer(['rougeL'], use_stemmer=True)] *)
  load_rouge : Load (string -> string -> py RougeScore);
  (** [import bert_score] *)
  load_bertscore : Load (string -> string -> string -> py (Qc * Qc * Qc));
  (** [bleurt_score.BleurtScorer(checkpoint)] *)
  load_bleurt : Load (string -> string -> py Qc);
  (** [load_from_checkpoint(download_model("Unbabel/wmt22-comet-da"))] *)
  load_comet : Load (string -> string -> string -> nat -> nat -> py Qc);
  (** [model.cuda()] *)
  comet_cuda : (string -> string -> string -> nat -> nat -> py Qc)
               -> py (string -> string -> string -> nat -> nat -> py Qc)
}.

(** [x in metrics] *)
Definition py_in (x : string) (metrics : list string) : bool :=
  existsb (String.eqb x) metrics.

(** [try: handlers[k] = load()  except ImportError: warn]: any other
    exception leaves the block. *)
Definition import_or_skip {A} (l : Load A) : py (option A) :=
  match l with
  | Loaded h => ret (Some h)
  | ImportError => ret None
  | OtherError e => raise e
  end.

(** The same with a second handler, [except Exception as e: warn]. *)
Definition load_or_skip {A} (l : Load A) : option A :=
  match l with
  | Loaded h => Some h
  | ImportError => None
  | OtherError _ => None
  end.

(** [not self.metric_handlers] *)
Definition no_handlers (hs : Handlers) : bool :=
  match h_bleu hs, h_chrf hs, h_meteor hs, h_rouge hs, h_bertscore hs,
        h_bleurt hs, h_comet hs with
  | None, None, None, None, None, None, None => true
  | _, _, _, _, _, _, _ => false
  end.

Definition no_metrics_error : exn :=
  "RuntimeError: No evaluation metrics available! Install required packages.".

(** [Evaluator._setup_metrics], which fills [self.metric_handlers] from
    [self.metrics] and [self.use_gpu]. *)
Definition _setup_metrics (site : Site) (metrics : list string)
    (use_gpu : bool) : py Handlers :=
  bleu <- (if py_in "bleu" metrics then import_or_skip (load_bleu site)
           else ret None) ;;
  chrf <- (if py_in "chrf" metrics then import_or_skip (load_chrf site)
           else ret None) ;;
  let meteor :=
    if py_in "meteor" metrics then load_or_skip (load_meteor site)
    else None in
  rouge <- (if py_in "rouge" metrics then import_or_skip (load_rouge site)
            else ret None) ;;
  bertscore <- (if py_in "bertscore" metrics
                then import_or_skip (load_bertscore site)
                else ret None) ;;
  let bleurt :=
    if py_in "bleurt" metrics then load_or_skip (load_bleurt site)
    else None in
  let comet :=
    if py_in "comet" metrics then
      match load_comet site with
      | Loaded model =>
          (* the handler is stored before [.cuda()] is tried *)
          if use_gpu then
            match comet_cuda site model with
            | inr on_gpu => Some on_gpu
            | inl _ => Some model
            end
          else Some model
      | ImportError => None
      | OtherError _ => None
      end
    else None in
  let metric_handlers :=
    mkHandlers bleu chrf meteor rouge bertscore bleurt comet in
  if no_handlers metric_handlers then raise no_metrics_error
  else ret metric_handlers.

Definition default_metrics : list string :=
  ["bleu"; "chrf"; "meteor"; "rouge"; "bertscore"; "comet"].

(** [Evaluator.__init__(metrics, use_gpu)] *)
Definition __init__ (site : Site) (metrics : option (list string))
    (use_gpu : bool) : py Evaluator :=
  let metrics :=
    match metrics with
    | None => default_metrics
    | Some metrics => metrics
    end in
  metric_handlers <- _setup_metrics site metrics use_gpu ;;
  ret (mkEvaluator metric_handlers use_gpu).

(* ================================================================== *)
(** ** The metric wrappers *)
(* ================================================================== *)

Section Wrappers.

Variable libs : Libs.
Variable self : Evaluator.

(** [try: body  except Exception as e: log; return []] *)
Definition or_nothing (body : py (list EvaluationScore))
    : py (list EvaluationScore) :=
  catch body (fun _ => ret []).

Definition evaluate_bleu (hypothesis : string) (references : list string)
    : py (list EvaluationScore) :=
  match h_bleu (metric_handlers self) with
  | None => ret []
  | Some bleu_scorer =>
      or_nothing (
        result <- bleu_scorer hypothesis references ;;
        ret [mkScore "BLEU-4" (Fin (bleu_raw result / hundred)%Qc)
               [("raw_score", DFloat (Fin (bleu_raw result)));
                ("brevity_penalty", DFloat (Fin (bleu_bp result)));
                ("num_references", DInt (List.length references))]])
  end.

(** State of the ROUGE loop: [best_score] and [best_ref_idx]. *)
Definition rouge_body (scorer : string -> string -> py RougeScore)
    (hypothesis : string) (ref_idx : nat) (reference : string)
    (st : option RougeScore * nat) : py (option RougeScore * nat) :=
  score_obj <- scorer reference hypothesis ;;
  match fst st with
  | None => ret (Some score_obj, S ref_idx)
  | Some best_score =>
      if Qcltb (rouge_fmeasure best_score) (rouge_fmeasure score_obj)
      then ret (Some score_obj, S ref_idx)
      else ret st
  end.

Definition evaluate_rouge (hypothesis : string) (references : list string)
    : py (list EvaluationScore) :=
  match h_rouge (metric_handlers self) with
  | None => ret []
  | Some scorer =>
      or_nothing (
        st <- for_enumerate references 0 (rouge_body scorer hypothesis)
                (None, 0) ;;
        match fst st with
        | None => raise "TypeError: 'NoneType' object is not subscriptable"
        | Some best_score =>
            ret [mkScore "ROUGE-L" (Fin (rouge_fmeasure best_score))
                   [("precision", DFloat (Fin (rouge_precision best_score)));
                    ("recall", DFloat (Fin (rouge_recall best_score)));
                    ("best_reference", DInt (snd st));
                    ("num_references", DInt (List.length references));
                    ("aggregation", DStr "max")]]
        end)
  end.

Definition evaluate_chrf (hypothesis : string) (references : list string)
    : py (list EvaluationScore) :=
  match h_chrf (metric_handlers self) with
  | None => ret []
  | Some chrf_scorer =>
      or_nothing (
        result <- chrf_scorer hypothesis references ;;
        ret [mkScore "chrF++" (Fin (result / hundred)%Qc)
               [("raw_score", DFloat (Fin result));
                ("num_references", DInt (List.length references));
                ("word_order", DInt 2)]])
  end.

Definition evaluate_meteor (hypothesis : string) (references : list string)
    : py (list EvaluationScore) :=
  match h_meteor (metric_handlers self) with
  | None => ret []
  | Some meteor_score_func =>
      or_nothing (
        hyp_tokens <- word_tokenize libs (py_lower libs hypothesis) ;;
        ref_tokens_list <-
          map_py (fun ref => word_tokenize libs (py_lower libs ref))
                 references ;;
        score <- meteor_score_func ref_tokens_list hyp_tokens ;;
        ret [mkScore "METEOR" (Fin score)
               [("num_references", DInt (List.length references))]])
  end.

(** State of the BERTScore loop: [best_f1], [best_result],
    [best_ref_idx]. *)
Definition bertscore_body
    (score_fn : string -> string -> string -> py (Qc * Qc * Qc))
    (hypothesis : string) (ref_idx : nat) (reference : string)
    (st : Qc * option (Qc * Qc * Qc) * nat)
    : py (Qc * option (Qc * Qc * Qc) * nat) :=
  let '(best_f1, best_result, best_ref_idx) := st in
  prf <- score_fn hypothesis reference
           (if use_gpu self then "cuda" else "cpu") ;;
  let '(p, r, f1_val) := prf in
  if Qcltb best_f1 f1_val
  then ret (f1_val, Some (p, r, f1_val), S ref_idx)
  else ret st.

Definition evaluate_bertscore (hypothesis : string)
    (references : list string) : py (list EvaluationScore) :=
  match h_bertscore (metric_handlers self) with
  | None => ret []
  | Some score_fn =>
      or_nothing (
        st <- for_enumerate references 0
                (bertscore_body score_fn hypothesis)
                (Q2Qc (-1), None, 0) ;;
        let '(_, best_result, best_ref_idx) := st in
        match best_result with
        | None => raise "TypeError: 'NoneType' object is not subscriptable"
        | Some (p, r, f1) =>
            ret [mkScore "BERTScore" (Fin f1)
                   [("precision", DFloat (Fin p));
                    ("recall", DFloat (Fin r));
                    ("f1", DFloat (Fin f1));
                    ("best_reference", DInt best_ref_idx);
                    ("num_references", DInt (List.length references));
                    ("aggregation", DStr "max")]]
        end)
  end.

(** State of the BLEURT and COMET loops: [best_score], [best_ref_idx]. *)
Definition max_body (score_ref : string -> py Qc)
    (ref_idx : nat) (reference : string) (st : float * nat)
    : py (float * nat) :=
  s <- score_ref reference ;;
  if fgtb (Fin s) (fst st) then ret (Fin s, S ref_idx) else ret st.

Definition evaluate_bleurt (hypothesis : string) (references : list string)
    : py (list EvaluationScore) :=
  match h_bleurt (metric_handlers self) with
  | None => ret []
  | Some scorer =>
      or_nothing (
        st <- for_enumerate references 0
                (max_body (fun reference => scorer reference hypothesis))
                (NegInf, 0) ;;
        ret [mkScore "BLEURT" (fst st)
               [("best_reference", DInt (snd st));
                ("num_references", DInt (List.length references));
                ("aggregation", DStr "max")]])
  end.

Definition evaluate_comet (hypothesis : string) (references : list string)
    (source : string) : py (list EvaluationScore) :=
  match h_comet (metric_handlers self) with
  | None => ret []
  | Some model =>
      or_nothing (
        mps <- mps_is_available libs ;;
        let num_workers := if (mps : bool) then 1 else 0 in
        st <- for_enumerate references 0
                (max_body (fun reference =>
                   model source hypothesis reference
                     (if use_gpu self then 1 else 0) num_workers))
                (NegInf, 0) ;;
        ret [mkScore "COMET" (fst st)
               [("best_reference", DInt (snd st));
                ("num_references", DInt (List.length references));
                ("aggregation", DStr "max")]])
  end.

(* ---------------------------------------------------------------- *)
(** *** Scoring one hypothesis *)

Definition evaluate_single (hypothesis : string) (references : list string)
    (source : option string) : py (list EvaluationScore) :=
  let all_scores := [] in
  s <- evaluate_bleu hypothesis references ;;
  let all_scores := all_scores ++ s in
  s <- evaluate_chrf hypothesis references ;;
  let all_scores := all_scores ++ s in
  s <- evaluate_meteor hypothesis references ;;
  let all_scores := all_scores ++ s in
  s <- evaluate_rouge hypothesis references ;;
  let all_scores := all_scores ++ s in
  s <- evaluate_bertscore hypothesis references ;;
  let all_scores := all_scores ++ s in
  s <- evaluate_bleurt hypothesis references ;;
  let all_scores := all_scores ++ s in
  match source with
  | Some src =>
      if truthy src
      then s <- evaluate_comet hypothesis references src ;;
           ret (all_scores ++ s)
      else ret all_scores
  | None => ret all_scores
  end.

Definition per_reference_body (hypothesis : string) (source : option string)
    (ref_idx : nat) (reference : string)
    (per_ref_scores : Dict.t (list EvaluationScore))
    : py (Dict.t (list EvaluationScore)) :=
  let scores := [] in
  s <- evaluate_bleu hypothesis [reference] ;;
  let scores := scores ++ s in
  s <- evaluate_chrf hypothesis [reference] ;;
  let scores := scores ++ s in
  s <- evaluate_meteor hypothesis [reference] ;;
  let scores := scores ++ s in
  s <- evaluate_rouge hypothesis [reference] ;;
  let scores := scores ++ s in
  s <- evaluate_bertscore hypothesis [reference] ;;
  let scores := scores ++ s in
  s <- evaluate_bleurt hypothesis [reference] ;;
  let scores := scores ++ s in
  scores <-
    match source with
    | Some src =>
        if truthy src
        then s <- evaluate_comet hypothesis [reference] src ;;
             ret (scores ++ s)
        else ret scores
    | None => ret scores
    end ;;
  ret (Dict.set per_ref_scores (ref_id ref_idx) scores).

Definition evaluate_per_reference (hypothesis : string)
    (references : list string) (source : option string)
    : py (Dict.t (list EvaluationScore)) :=
  for_enumerate references 1 (per_reference_body hypothesis source) [].

End Wrappers.

(* ================================================================== *)
(** ** Chunks *)
(* ================================================================== *)

(** [for x in l: s = body(x, s)] *)
Fixpoint for_each {A St} (l : list A) (body : A -> St -> py St) (s : St)
    : py St :=
  match l with
  | [] => ret s
  | x :: l' => s' <- body x s ;; for_each l' body s'
  end.

(** The test that makes [evaluate_chunk] skip a model:
    [not translation or translation.strip() == ''] *)
Definition is_blank (translation : string) : bool :=
  negb (truthy translation) || String.eqb (strip translation) "".

Section Chunks.

Variable libs : Libs.
Variable self : Evaluator.

(** [{score.metric_name: score.score for score in ref_scores}] for every
    entry of [per_ref_data] *)
Definition per_ref_table (per_ref_data : Dict.t (list EvaluationScore))
    : Dict.t (Dict.t float) :=
  fold_left
    (fun per_ref_scores (item : string * list EvaluationScore) =>
       Dict.set per_ref_scores (fst item)
         (Dict.comprehension metric_name score (snd item)))
    per_ref_data [].

Definition chunk_body (chunk_id : string) (source_text : option string)
    (reference_translations : list string) (include_per_reference : bool)
    (item : string * string) (evaluations : list ChunkEvaluation)
    : py (list ChunkEvaluation) :=
  let '(model_name, translation) := item in
  if is_blank translation then ret evaluations
  else
    scores <- evaluate_single libs self translation reference_translations
                source_text ;;
    per_ref_scores <-
      (if include_per_reference
       then per_ref_data <- evaluate_per_reference libs self translation
                              reference_translations source_text ;;
            ret (per_ref_table per_ref_data)
       else ret []) ;;
    ret (evaluations ++
         [mkChunkEvaluation chunk_id model_name scores per_ref_scores]).

Definition evaluate_chunk (chunk_id : string) (source_text : option string)
    (model_translations : Dict.t string)
    (reference_translations : list string) (include_per_reference : bool)
    : py (list ChunkEvaluation) :=
  for_each model_translations
    (chunk_body chunk_id source_text reference_translations
       include_per_reference) [].

End Chunks.

(** A chunk as the parser delivers it. *)
Module Parsed.
Record ParsedChunk : Type := mk {
  chunk_id : string;
  greek_text : string;
  reference_translations : list string
}.
End Parsed.

(** [InputParser.validate_parsed_chunks] of [src/parser.py], the check the
    pipeline runs on the parsed chunks before it evaluates them.  [len]
    counts the characters of a text. *)
Definition validate_chunk (all_valid : bool) (chunk : Parsed.ParsedChunk)
    : bool :=
  let all_valid :=
    if negb (truthy (Parsed.greek_text chunk))
       || (String.length (Parsed.greek_text chunk) <? 50)%nat
    then false else all_valid in
  let all_valid :=
    match Parsed.reference_translations chunk with
    | [] => false
    | _ :: _ => all_valid
    end in
  let substantial_refs :=
    filter (fun r => (100 <? String.length r)%nat)
           (Parsed.reference_translations chunk) in
  let all_valid :=
    match substantial_refs with
    | [] => false
    | _ :: _ => all_valid
    end in
  all_valid.

Definition validate_parsed_chunks (chunks : list Parsed.ParsedChunk) : bool :=
  match chunks with
  | [] => false
  | _ :: _ => fold_left validate_chunk chunks true
  end.

(** A translation record as [evaluate_all] looks at it. *)
Record TransObj : Type := mkTransObj {
  (** [trans_obj.translation], when [hasattr(trans_obj, 'translation')] *)
  attr_translation : option string;
  (** the mapping, when [isinstance(trans_obj, dict)] *)
  as_dict : option (Dict.t string);
  (** [str(trans_obj)] *)
  py_str : string
}.

Definition translation_of (trans_obj : TransObj) : string :=
  match attr_translation trans_obj with
  | Some t => t
  | None =>
      match as_dict trans_obj with
      | Some d =>
          match Dict.get d "translation" with
          | Some t => t
          | None => py_str trans_obj
          end
      | None => py_str trans_obj
      end
  end.

Section All.

Variable libs : Libs.
Variable self : Evaluator.

Definition get_model_translations (models : Dict.t TransObj)
    : Dict.t string :=
  fold_left
    (fun model_translations (item : string * TransObj) =>
       Dict.set model_translations (fst item) (translation_of (snd item)))
    models [].

Definition all_body (translations : Dict.t (Dict.t TransObj))
    (chunk : Parsed.ParsedChunk) (all_evaluations : list ChunkEvaluation)
    : py (list ChunkEvaluation) :=
  match Dict.get translations (Parsed.chunk_id chunk) with
  | None => ret all_evaluations
  | Some models =>
      chunk_evaluations <-
        evaluate_chunk libs self (Parsed.chunk_id chunk)
          (Some (Parsed.greek_text chunk))
          (get_model_translations models)
          (Parsed.reference_translations chunk) true ;;
      ret (all_evaluations ++ chunk_evaluations)
  end.

Definition evaluate_all (parsed_chunks : list Parsed.ParsedChunk)
    (translations : Dict.t (Dict.t TransObj)) : py (list ChunkEvaluation) :=
  for_each parsed_chunks (all_body translations) [].

End All.

(* ================================================================== *)
(** ** Summaries *)
(* ================================================================== *)

Definition fadd (x y : float) : float :=
  match x, y with
  | Fin a, Fin b => Fin (a + b)%Qc
  | _, _ => NegInf
  end.

Definition Qc_of_nat (n : nat) : Qc := Q2Qc (inject_Z (Z.of_nat n)).

Definition fdiv_nat (x : float) (n : nat) : float :=
  match x with
  | Fin a => Fin (a / Qc_of_nat n)%Qc
  | NegInf => NegInf
  end.

Definition fmin (x y : float) : float := if fltb y x then y else x.
Definition fmax (x y : float) : float := if fltb x y then y else x.

Definition fsum (l : list float) : float := fold_right fadd (Fin (Q2Qc 0)) l.

(** [np.mean].  numpy answers nan for an empty list; [aggregate_results]
    only passes lists it has appended to. *)
Definition np_mean (l : list float) : float := fdiv_nat (fsum l) (List.length l).

(** [np.min] and [np.max], which raise on an empty list; same remark. *)
Definition np_min (l : list float) : float :=
  match l with [] => NegInf | x :: l' => fold_left fmin l' x end.
Definition np_max (l : list float) : float :=
  match l with [] => NegInf | x :: l' => fold_left fmax l' x end.

(** The finite values of a list, when all are. *)
Fixpoint all_finite (l : list float) : option (list Qc) :=
  match l with
  | [] => Some []
  | NegInf :: _ => None
  | Fin q :: l' =>
      match all_finite l' with Some qs => Some (q :: qs) | None => None end
  end.

Definition Qcsum (l : list Qc) : Qc := fold_right Qcplus (Q2Qc 0) l.
Definition Qcmean (l : list Qc) : Qc := (Qcsum l / Qc_of_nat (List.length l))%Qc.

(** Mean of the squared deviations. *)
Definition variance (l : list Qc) : Qc :=
  let m := Qcmean l in
  Qcmean (map (fun x => ((x - m) * (x - m))%Qc) l).

Record Stats : Type := mkStats {
  mean : float;
  std : option float;   (* [None] is nan *)
  min : float;
  max : float;
  count : nat
}.

Record RefStats : Type := mkRefStats {
  ref_mean : float;
  ref_std : option float;
  ref_count : nat
}.

(** An entry of [summary['by_metric'][metric]]: a model's mean, or the
    record stored under ['best_model']. *)
Inductive MetricEntry : Type :=
  | ModelMean (x : float)
  | BestModel (name : string) (best_score : float).

(** [ChunkEvaluation.to_dict()] *)
Record EvalDict : Type := mkEvalDict {
  d_chunk_id : string;
  d_model_name : string;
  d_scores : Dict.t float;
  d_score_details : Dict.t (Dict.t dval);
  d_per_reference_scores : Dict.t (Dict.t float)
}.

Definition to_dict (e : ChunkEvaluation) : EvalDict :=
  mkEvalDict (chunk_id e) (model_name e)
    (Dict.comprehension metric_name score (scores e))
    (Dict.comprehension metric_name details
       (filter (fun s => match details s with [] => false | _ => true end)
               (scores e)))
    (per_reference_scores e).

Record Summary : Type := mkSummary {
  methodology : string;
  methodology_details : Dict.t string;
  by_model : Dict.t (Dict.t Stats);
  by_metric : Dict.t (Dict.t MetricEntry);
  by_reference : Dict.t (Dict.t (Dict.t RefStats));
  overall_rankings : list (string * float);
  detailed_scores : list EvalDict
}.

(** [sorted(items, key=lambda x: x[1], reverse=True)]: stable, so items
    with equal keys stay in their original order. *)
Fixpoint insert_desc {A} (x : A * float) (l : list (A * float))
    : list (A * float) :=
  match l with
  | [] => [x]
  | y :: l' => if fltb (snd y) (snd x) then x :: l else y :: insert_desc x l'
  end.

Definition sorted_desc {A} (items : list (A * float)) : list (A * float) :=
  fold_left (fun acc x => insert_desc x acc) items [].

(** [max(items, key=lambda x: x[1])]: the first item with the largest key. *)
Fixpoint max_from {A} (best : A * float) (items : list (A * float))
    : A * float :=
  match items with
  | [] => best
  | x :: items' => max_from (if fgtb (snd x) (snd best) then x else best) items'
  end.

Definition py_max {A} (items : list (A * float)) : option (A * float) :=
  match items with
  | [] => None
  | x :: items' => Some (max_from x items')
  end.

Section Aggregation.

(** The square root numpy takes in [np.std]. *)
Variable np_sqrt : Qc -> Qc.

(** [np.std]: nan as soon as one value is infinite. *)
Definition np_std (l : list float) : option float :=
  match all_finite l with
  | Some qs => Some (Fin (np_sqrt (variance qs)))
  | None => None
  end.

(** [scores_by_model_metric[model][metric].append(x)] *)
Definition append_score (scores_by_model_metric : Dict.t (Dict.t (list float)))
    (model metric : string) (x : float) : Dict.t (Dict.t (list float)) :=
  Dict.update scores_by_model_metric model []
    (fun by_metric => Dict.update by_metric metric [] (fun l => l ++ [x])).

(** [per_ref_by_model_metric[model][metric][ref_id].append(x)] *)
Definition append_ref_score
    (per_ref : Dict.t (Dict.t (Dict.t (list float))))
    (model metric ref_id : string) (x : float)
    : Dict.t (Dict.t (Dict.t (list float))) :=
  Dict.update per_ref model []
    (fun by_metric =>
       Dict.update by_metric metric []
         (fun by_ref => Dict.update by_ref ref_id [] (fun l => l ++ [x]))).

(** The first loop of [aggregate_results], primary scores. *)
Definition collect_scores (evaluations : list ChunkEvaluation)
    : Dict.t (Dict.t (list float)) :=
  fold_left
    (fun acc e =>
       fold_left
         (fun acc s => append_score acc (model_name e) (metric_name s) (score s))
         (scores e) acc)
    evaluations [].

(** The first loop of [aggregate_results], per-reference breakdown. *)
Definition collect_ref_scores (evaluations : list ChunkEvaluation)
    : Dict.t (Dict.t (Dict.t (list float))) :=
  fold_left
    (fun acc e =>
       fold_left
         (fun acc (item : string * Dict.t float) =>
            fold_left
              (fun acc (ms : string * float) =>
                 append_ref_score acc (model_name e) (fst ms) (fst item)
                   (snd ms))
              (snd item) acc)
         (per_reference_scores e) acc)
    evaluations [].

Definition stats_of (scores : list float) : Stats :=
  mkStats (np_mean scores) (np_std scores) (np_min scores) (np_max scores)
    (List.length scores).

Definition ref_stats_of (scores : list float) : RefStats :=
  mkRefStats (np_mean scores) (np_std scores) (List.length scores).

(** [summary['by_model']]: iterating a dict visits each key once, so the
    dict filled by the loop is the image of the one iterated. *)
Definition by_model_of (sbmm : Dict.t (Dict.t (list float)))
    : Dict.t (Dict.t Stats) :=
  map (fun mi : string * Dict.t (list float) =>
         (fst mi,
          map (fun ks : string * list float => (fst ks, stats_of (snd ks)))
              (snd mi)))
      sbmm.

(** [all_model_scores] for one model *)
Definition all_model_scores (by_metric : Dict.t (list float)) : list float :=
  List.concat (Dict.values by_metric).

(** [model_averages] *)
Definition model_averages_of (sbmm : Dict.t (Dict.t (list float)))
    : Dict.t float :=
  map (fun mi : string * Dict.t (list float) =>
         let all := all_model_scores (snd mi) in
         (fst mi,
          match all with [] => Fin (Q2Qc 0) | _ => np_mean all end))
      sbmm.

(** The loop filling [summary['by_metric'][metric][model]]. *)
Definition metric_means_of (sbmm : Dict.t (Dict.t (list float)))
    : Dict.t (Dict.t float) :=
  fold_left
    (fun acc (mi : string * Dict.t (list float)) =>
       fold_left
         (fun acc (ks : string * list float) =>
            Dict.update acc (fst ks) []
              (fun d => Dict.set d (fst mi) (np_mean (snd ks))))
         (snd mi) acc)
    sbmm [].

(** The loop storing ['best_model'] in each metric's dict. *)
Definition with_best_model (means : Dict.t float) : Dict.t MetricEntry :=
  let model_scores :=
    filter (fun kv => negb (String.eqb (fst kv) "best_model")) means in
  let entries :=
    map (fun kv : string * float => (fst kv, ModelMean (snd kv))) means in
  match py_max model_scores with
  | Some best_model =>
      Dict.set entries "best_model"
        (BestModel (fst best_model) (snd best_model))
  | None => entries
  end.

Definition by_metric_of (sbmm : Dict.t (Dict.t (list float)))
    : Dict.t (Dict.t MetricEntry) :=
  map (fun km : string * Dict.t float => (fst km, with_best_model (snd km)))
      (metric_means_of sbmm).

Definition by_reference_of (per_ref : Dict.t (Dict.t (Dict.t (list float))))
    : Dict.t (Dict.t (Dict.t RefStats)) :=
  map (fun mi : string * Dict.t (Dict.t (list float)) =>
         (fst mi,
          map (fun kr : string * Dict.t (list float) =>
                 (fst kr,
                  map (fun rs : string * list float =>
                         (fst rs, ref_stats_of (snd rs)))
                      (snd kr)))
              (snd mi)))
      per_ref.

Definition the_methodology_details : Dict.t string :=
  [("bleu-4", "multi-reference (n-grams matched against any reference)");
   ("chrf++", "multi-reference (native support, includes word bigrams)");
   ("meteor", "multi-reference (native support, includes synonyms/stems)");
   ("rouge-l", "max across references");
   ("bertscore", "max across references");
   ("comet", "max across references");
   ("bleurt", "max across references")].

Definition aggregate_results (evaluations : list ChunkEvaluation) : Summary :=
  let scores_by_model_metric := collect_scores evaluations in
  let per_ref_by_model_metric := collect_ref_scores evaluations in
  mkSummary "multi-reference" the_methodology_details
    (by_model_of scores_by_model_metric)
    (by_metric_of scores_by_model_metric)
    (by_reference_of per_ref_by_model_metric)
    (sorted_desc (model_averages_of scores_by_model_metric))
    (map to_dict evaluations).

End Aggregation.

(* ================================================================== *)
(** ** The statistics as numpy computes them *)
(* ================================================================== *)

(** [np_mean] and [np_std] above are the exact mean and deviation.  numpy
    computes in double precision, rounding after every addition, so what it
    returns depends on the order of the scores.  For the properties that
    turn on this, [aggregate_results] is given once more with [np.mean] and
    [np.std] as parameters, like the other libraries; everything else is
    the same code.  With the exact functions for the parameters it is the
    definition above. *)
Module Numpy.

Section Statistics.

(** [np.mean] and [np.std] *)
Variable numpy_mean : list float -> float.
Variable numpy_std : list float -> option float.

Definition stats_of (scores : list float) : Stats :=
  mkStats (numpy_mean scores) (numpy_std scores) (np_min scores)
    (np_max scores) (List.length scores).

Definition ref_stats_of (scores : list float) : RefStats :=
  mkRefStats (numpy_mean scores) (numpy_std scores) (List.length scores).

Definition by_model_of (sbmm : Dict.t (Dict.t (list float)))
    : Dict.t (Dict.t Stats) :=
  map (fun mi : string * Dict.t (list float) =>
         (fst mi,
          map (fun ks : string * list float => (fst ks, stats_of (snd ks)))
              (snd mi)))
      sbmm.

Definition model_averages_of (sbmm : Dict.t (Dict.t (list float)))
    : Dict.t float :=
  map (fun mi : string * Dict.t (list float) =>
         let all := all_model_scores (snd mi) in
         (fst mi,
          match all with [] => Fin (Q2Qc 0) | _ => numpy_mean all end))
      sbmm.

Definition metric_means_of (sbmm : Dict.t (Dict.t (list float)))
    : Dict.t (Dict.t float) :=
  fold_left
    (fun acc (mi : string * Dict.t (list float)) =>
       fold_left
         (fun acc (ks : string * list float) =>
            Dict.update acc (fst ks) []
              (fun d => Dict.set d (fst mi) (numpy_mean (snd ks))))
         (snd mi) acc)
    sbmm [].

Definition by_metric_of (sbmm : Dict.t (Dict.t (list float)))
    : Dict.t (Dict.t MetricEntry) :=
  map (fun km : string * Dict.t float => (fst km, with_best_model (snd km)))
      (metric_means_of sbmm).

Definition by_reference_of (per_ref : Dict.t (Dict.t (Dict.t (list float))))
    : Dict.t (Dict.t (Dict.t RefStats)) :=
  map (fun mi : string * Dict.t (Dict.t (list float)) =>
         (fst mi,
          map (fun kr : string * Dict.t (list float) =>
                 (fst kr,
                  map (fun rs : string * list float =>
                         (fst rs, ref_stats_of (snd rs)))
                      (snd kr)))
              (snd mi)))
      per_ref.

Definition aggregate_results (evaluations : list ChunkEvaluation) : Summary :=
  let scores_by_model_metric := collect_scores evaluations in
  let per_ref_by_model_metric := collect_ref_scores evaluations in
  mkSummary "multi-reference" the_methodology_details
    (by_model_of scores_by_model_metric)
    (by_metric_of scores_by_model_metric)
    (by_reference_of per_ref_by_model_metric)
    (sorted_desc (model_averages_of scores_by_model_metric))
    (map to_dict evaluations).

End Statistics.

End Numpy.

(* ================================================================== *)
(** ** Double precision *)
(* ================================================================== *)

(** The result of an operation on doubles is its exact result rounded to
    the nearest number with a significand of 53 bits, ties going to the
    even significand.  A double is a rational, so rounding is a function on
    rationals.  Overflow is left out: no score comes near 2^1024. *)

Definition pow2 (e : Z) : Q := Qpower (2#1) e.

(** The integer part of the binary logarithm of a positive rational. *)
Definition floor_log2 (q : Q) : Z :=
  let l := (Z.log2 (Qnum q) - Z.log2 (Zpos (Qden q)))%Z in
  if Qle_bool (pow2 l) q then l else (l - 1)%Z.

Definition round_half_even (x : Q) : Z :=
  let n := Qfloor x in
  match Qcompare (x - inject_Z n) (1#2) with
  | Lt => n
  | Gt => (n + 1)%Z
  | Eq => if Z.even n then n else (n + 1)%Z
  end.

Definition round_positive (q : Q) : Q :=
  let e := Z.max (floor_log2 q - 52) (-1074) in
  (inject_Z (round_half_even (q / pow2 e)) * pow2 e)%Q.

Definition round_double (q : Q) : Q :=
  match Qcompare q 0 with
  | Eq => 0%Q
  | Gt => round_positive q
  | Lt => (- round_positive (- q))%Q
  end.

(** The square root of a rational that is not negative, rounded. *)
Definition sqrt_double (q : Q) : Q :=
  match Qcompare q 0 with
  | Gt =>
      let e := Z.max (floor_log2 q / 2 - 52) (-1074) in
      let scaled := (q / pow2 (2 * e))%Q in
      let n := Z.sqrt (Qfloor scaled) in
      let middle := (inject_Z (2 * n + 1) / (2#1))%Q in
      let n' :=
        match Qcompare scaled (middle * middle) with
        | Lt => n
        | Gt => (n + 1)%Z
        | Eq => if Z.even n then n else (n + 1)%Z
        end in
      (inject_Z n' * pow2 e)%Q
  | _ => 0%Q
  end.

(** The double nearest to a rational. *)
Definition double (q : Q) : Qc := Q2Qc (round_double q).

Definition dadd (x y : float) : float :=
  match x, y with
  | Fin a, Fin b => Fin (double (a + b))
  | _, _ => NegInf
  end.

Definition dsub (x y : Qc) : Qc := double (x - y).
Definition dmul (x y : Qc) : Qc := double (x * y).

Definition ddiv_nat (x : float) (n : nat) : float :=
  match x with
  | Fin a => Fin (double (a / inject_Z (Z.of_nat n)))
  | NegInf => NegInf
  end.

(** [np.add.reduce] on fewer than eight doubles: they are added from left
    to right, starting from zero.  (Longer arrays are added pairwise in
    blocks, which this definition does not follow.) *)
Definition double_sum (l : list float) : float :=
  fold_left dadd l (Fin (Q2Qc 0)).

(** [np.mean]: the sum divided by the count *)
Definition double_mean (l : list float) : float :=
  ddiv_nat (double_sum l) (List.length l).

(** [np.std]: the root of the mean of the squared distances from the mean;
    nan as soon as one value is infinite. *)
Definition double_std (l : list float) : option float :=
  match all_finite l, double_mean l with
  | Some qs, Fin arrmean =>
      let x := map (fun q => dsub q arrmean) qs in
      let x := map (fun d => Fin (dmul d d)) x in
      match ddiv_nat (double_sum x) (List.length l) with
      | Fin v => Some (Fin (Q2Qc (sqrt_double v)))
      | NegInf => None
      end
  | _, _ => None
  end.

(* ================================================================== *)
(** * Properties *)
(* ================================================================== *)

(** ** The wrappers never raise *)

(** What a computation yields, an exception counting as no score. *)
Definition yield {A} (c : py (list A)) : list A :=
  match c with inr l => l | inl _ => [] end.

Lemma or_nothing_yield body : or_nothing body = inr (yield body).
Proof. destruct body; reflexivity. Qed.

Section WrapperFacts.

Variable libs : Libs.
Variable self : Evaluator.

Ltac wrapper_total :=
  match goal with
  | |- context [match ?h with Some _ => _ | None => _ end] =>
      destruct h; [rewrite or_nothing_yield | ]; reflexivity
  end.

Lemma evaluate_bleu_total h refs :
  evaluate_bleu self h refs = inr (yield (evaluate_bleu self h refs)).
Proof. unfold evaluate_bleu. wrapper_total. Qed.

Lemma evaluate_chrf_total h refs :
  evaluate_chrf self h refs = inr (yield (evaluate_chrf self h refs)).
Proof. unfold evaluate_chrf. wrapper_total. Qed.

Lemma evaluate_meteor_total h refs :
  evaluate_meteor libs self h refs
  = inr (yield (evaluate_meteor libs self h refs)).
Proof. unfold evaluate_meteor. wrapper_total. Qed.

Lemma evaluate_rouge_total h refs :
  evaluate_rouge self h refs = inr (yield (evaluate_rouge self h refs)).
Proof. unfold evaluate_rouge. wrapper_total. Qed.

Lemma evaluate_bertscore_total h refs :
  evaluate_bertscore self h refs
  = inr (yield (evaluate_bertscore self h refs)).
Proof. unfold evaluate_bertscore. wrapper_total. Qed.

Lemma evaluate_bleurt_total h refs :
  evaluate_bleurt self h refs = inr (yield (evaluate_bleurt self h refs)).
Proof. unfold evaluate_bleurt. wrapper_total. Qed.

Lemma evaluate_comet_total h refs src :
  evaluate_comet libs self h refs src
  = inr (yield (evaluate_comet libs self h refs src)).
Proof. unfold evaluate_comet. wrapper_total. Qed.

(** The scores of the six metrics that do not read the source, in the
    order [evaluate_single] appends them. *)
Definition sourceless_scores (h : string) (refs : list string)
    : list EvaluationScore :=
  yield (evaluate_bleu self h refs) ++ yield (evaluate_chrf self h refs)
  ++ yield (evaluate_meteor libs self h refs)
  ++ yield (evaluate_rouge self h refs)
  ++ yield (evaluate_bertscore self h refs)
  ++ yield (evaluate_bleurt self h refs).

Definition comet_scores (h : string) (refs : list string)
    (source : option string) : list EvaluationScore :=
  match source with
  | Some src =>
      if truthy src then yield (evaluate_comet libs self h refs src) else []
  | None => []
  end.

Definition single_scores (h : string) (refs : list string)
    (source : option string) : list EvaluationScore :=
  sourceless_scores h refs ++ comet_scores h refs source.

Lemma evaluate_single_total h refs source :
  evaluate_single libs self h refs source
  = inr (single_scores h refs source).
Proof.
  unfold evaluate_single, single_scores, sourceless_scores, comet_scores.
  rewrite evaluate_bleu_total, evaluate_chrf_total, evaluate_meteor_total,
    evaluate_rouge_total, evaluate_bertscore_total, evaluate_bleurt_total.
  cbn [bind Monad_either app].
  destruct source as [src|].
  - destruct (truthy src).
    + rewrite evaluate_comet_total. cbn [bind Monad_either ret].
      now rewrite <- !app_assoc.
    + cbn [ret Monad_either]. now rewrite app_nil_r, <- !app_assoc.
  - cbn [ret Monad_either]. now rewrite app_nil_r, <- !app_assoc.
Qed.

Lemma per_reference_body_total h source i reference d :
  per_reference_body libs self h source i reference d
  = inr (Dict.set d (ref_id i) (single_scores h [reference] source)).
Proof.
  unfold per_reference_body, single_scores, sourceless_scores, comet_scores.
  rewrite evaluate_bleu_total, evaluate_chrf_total, evaluate_meteor_total,
    evaluate_rouge_total, evaluate_bertscore_total, evaluate_bleurt_total.
  cbn [bind Monad_either app].
  destruct source as [src|].
  - destruct (truthy src).
    + rewrite evaluate_comet_total. cbn [bind Monad_either ret].
      now rewrite <- !app_assoc.
    + cbn [bind ret Monad_either]. now rewrite app_nil_r, <- !app_assoc.
  - cbn [bind ret Monad_either]. now rewrite app_nil_r, <- !app_assoc.
Qed.

(** The dict [evaluate_per_reference] builds, from index [i] on. *)
Fixpoint per_reference_from (h : string) (source : option string)
    (refs : list string) (i : nat) (d : Dict.t (list EvaluationScore))
    : Dict.t (list EvaluationScore) :=
  match refs with
  | [] => d
  | r :: refs' =>
      per_reference_from h source refs' (S i)
        (Dict.set d (ref_id i) (single_scores h [r] source))
  end.

Lemma evaluate_per_reference_total h refs source :
  evaluate_per_reference libs self h refs source
  = inr (per_reference_from h source refs 1 []).
Proof.
  unfold evaluate_per_reference.
  generalize 1 as i. generalize (@nil (string * list EvaluationScore)) as d.
  induction refs as [|r refs IH]; intros d i; [reflexivity|].
  cbn [for_enumerate per_reference_from].
  rewrite per_reference_body_total. cbn [bind Monad_either]. apply IH.
Qed.

End WrapperFacts.

(** ** Metric names *)

Inductive Metric : Type :=
  | BLEU | CHRF | METEOR | ROUGE | BERTSCORE | BLEURT | COMET.

(** The [metric_name] under which a metric's wrapper reports. *)
Definition display_name (m : Metric) : string :=
  match m with
  | BLEU => "BLEU-4"
  | CHRF => "chrF++"
  | METEOR => "METEOR"
  | ROUGE => "ROUGE-L"
  | BERTSCORE => "BERTScore"
  | BLEURT => "BLEURT"
  | COMET => "COMET"
  end.

Definition named (n : string) (l : list EvaluationScore) : Prop :=
  Forall (fun s => metric_name s = n) l.

(** The scores of [l] that are not metric [m]'s. *)
Definition without (m : Metric) (l : list EvaluationScore)
    : list EvaluationScore :=
  filter (fun s => negb (String.eqb (metric_name s) (display_name m))) l.

Lemma named_nil n : named n [].
Proof. constructor. Qed.

Lemma named_one n sc d : named n [mkScore n sc d].
Proof. repeat constructor. Qed.

Create HintDb names.
#[local] Hint Resolve named_nil named_one : names.

Lemma without_named n m l :
  named n l ->
  without m l = if String.eqb n (display_name m) then [] else l.
Proof.
  unfold named, without. induction 1 as [|s l Hs _ IH]; cbn [filter].
  - now destruct (String.eqb n (display_name m)).
  - rewrite Hs, IH. now destruct (String.eqb n (display_name m)).
Qed.

Lemma without_app m l1 l2 : without m (l1 ++ l2) = without m l1 ++ without m l2.
Proof. apply filter_app. Qed.

Section Names.

Variable libs : Libs.
Variable self : Evaluator.

Lemma bleu_named h refs : named "BLEU-4" (yield (evaluate_bleu self h refs)).
Proof.
  unfold evaluate_bleu. destruct (h_bleu _) as [f|]; cbn; auto with names.
  destruct (f h refs); cbn; auto with names.
Qed.

Lemma chrf_named h refs : named "chrF++" (yield (evaluate_chrf self h refs)).
Proof.
  unfold evaluate_chrf. destruct (h_chrf _) as [f|]; cbn; auto with names.
  destruct (f h refs); cbn; auto with names.
Qed.

Lemma meteor_named h refs :
  named "METEOR" (yield (evaluate_meteor libs self h refs)).
Proof.
  unfold evaluate_meteor. destruct (h_meteor _) as [f|]; cbn; auto with names.
  destruct (word_tokenize libs _); cbn; auto with names.
  destruct (map_py _ _); cbn; auto with names.
  destruct (f _ _); cbn; auto with names.
Qed.

Lemma rouge_named h refs : named "ROUGE-L" (yield (evaluate_rouge self h refs)).
Proof.
  unfold evaluate_rouge. destruct (h_rouge _) as [f|]; cbn; auto with names.
  destruct (for_enumerate _ _ _ _) as [|[[b|] i]]; cbn; auto with names.
Qed.

Lemma bertscore_named h refs :
  named "BERTScore" (yield (evaluate_bertscore self h refs)).
Proof.
  unfold evaluate_bertscore. destruct (h_bertscore _) as [f|]; cbn;
    auto with names.
  destruct (for_enumerate _ _ _ _) as [|[[b0 [[[p r] f1]|]] i]]; cbn;
    auto with names.
Qed.

Lemma bleurt_named h refs : named "BLEURT" (yield (evaluate_bleurt self h refs)).
Proof.
  unfold evaluate_bleurt. destruct (h_bleurt _) as [f|]; cbn; auto with names.
  destruct (for_enumerate _ _ _ _) as [|[b i]]; cbn; auto with names.
Qed.

Lemma comet_named h refs src :
  named "COMET" (yield (evaluate_comet libs self h refs src)).
Proof.
  unfold evaluate_comet. destruct (h_comet _) as [f|]; cbn; auto with names.
  destruct (mps_is_available libs) as [err|mps]; cbn; auto with names.
  destruct (for_enumerate _ _ _ _) as [|[best i]]; cbn; auto with names.
Qed.

Lemma comet_scores_named h refs source :
  named "COMET" (comet_scores libs self h refs source).
Proof.
  unfold comet_scores. destruct source as [src|]; auto with names.
  destruct (truthy src); auto with names. apply comet_named.
Qed.

End Names.

(** ** Stubbing a metric so that it always fails *)

Definition stub_failing (m : Metric) (e : exn) (self : Evaluator) : Evaluator :=
  let hs := metric_handlers self in
  let hs' :=
    match m with
    | BLEU =>
        mkHandlers (Some (fun _ _ => raise e)) (h_chrf hs) (h_meteor hs)
          (h_rouge hs) (h_bertscore hs) (h_bleurt hs) (h_comet hs)
    | CHRF =>
        mkHandlers (h_bleu hs) (Some (fun _ _ => raise e)) (h_meteor hs)
          (h_rouge hs) (h_bertscore hs) (h_bleurt hs) (h_comet hs)
    | METEOR =>
        mkHandlers (h_bleu hs) (h_chrf hs) (Some (fun _ _ => raise e))
          (h_rouge hs) (h_bertscore hs) (h_bleurt hs) (h_comet hs)
    | ROUGE =>
        mkHandlers (h_bleu hs) (h_chrf hs) (h_meteor hs)
          (Some (fun _ _ => raise e)) (h_bertscore hs) (h_bleurt hs)
          (h_comet hs)
    | BERTSCORE =>
        mkHandlers (h_bleu hs) (h_chrf hs) (h_meteor hs) (h_rouge hs)
          (Some (fun _ _ _ => raise e)) (h_bleurt hs) (h_comet hs)
    | BLEURT =>
        mkHandlers (h_bleu hs) (h_chrf hs) (h_meteor hs) (h_rouge hs)
          (h_bertscore hs) (Some (fun _ _ => raise e)) (h_comet hs)
    | COMET =>
        mkHandlers (h_bleu hs) (h_chrf hs) (h_meteor hs) (h_rouge hs)
          (h_bertscore hs) (h_bleurt hs) (Some (fun _ _ _ _ _ => raise e))
    end in
  mkEvaluator hs' (use_gpu self).

(** ** What [evaluate_chunk] returns *)

Section ChunkFacts.

Variable libs : Libs.
Variable self : Evaluator.

(** The record [evaluate_chunk] appends for one model. *)
Definition chunk_evaluation_of (cid : string) (source : option string)
    (refs : list string) (include_per_reference : bool)
    (item : string * string) : ChunkEvaluation :=
  mkChunkEvaluation cid (fst item)
    (single_scores libs self (snd item) refs source)
    (if include_per_reference
     then per_ref_table (per_reference_from libs self (snd item) source refs 1 [])
     else []).

(** The models [evaluate_chunk] does not skip. *)
Definition scored_items (model_translations : Dict.t string) : Dict.t string :=
  filter (fun item => negb (is_blank (snd item))) model_translations.

Lemma chunk_body_total cid source refs inc item evs :
  chunk_body libs self cid source refs inc item evs
  = inr (if is_blank (snd item) then evs
         else evs ++ [chunk_evaluation_of cid source refs inc item]).
Proof.
  unfold chunk_body, chunk_evaluation_of. destruct item as [m t]. cbn [fst snd].
  destruct (is_blank t); [reflexivity|].
  rewrite evaluate_single_total. cbn [bind Monad_either].
  destruct inc; [rewrite evaluate_per_reference_total|]; reflexivity.
Qed.

Lemma for_each_chunk_body cid source refs inc mt evs :
  for_each mt (chunk_body libs self cid source refs inc) evs
  = inr (evs ++ map (chunk_evaluation_of cid source refs inc) (scored_items mt)).
Proof.
  revert evs. induction mt as [|item mt IH]; intros evs; cbn [for_each].
  - cbn. now rewrite app_nil_r.
  - rewrite chunk_body_total. cbn [bind Monad_either]. rewrite IH.
    unfold scored_items. cbn [filter].
    destruct (is_blank (snd item)); cbn [negb map]; [reflexivity|].
    now rewrite <- app_assoc.
Qed.

Lemma evaluate_chunk_total cid source mt refs inc :
  evaluate_chunk libs self cid source mt refs inc
  = inr (map (chunk_evaluation_of cid source refs inc) (scored_items mt)).
Proof. unfold evaluate_chunk. now rewrite for_each_chunk_body. Qed.

End ChunkFacts.

(** ** Blank texts *)

Fixpoint whitespace_only (s : string) : bool :=
  match s with
  | EmptyString => true
  | String c s' => py_isspace c && whitespace_only s'
  end.

Lemma rstrip_empty s : rstrip s = "" <-> whitespace_only s = true.
Proof.
  induction s as [|c s IH]; cbn [rstrip whitespace_only]; [tauto|].
  destruct (rstrip s) eqn:E.
  - destruct (py_isspace c); cbn [andb].
    + split; intros _; [now apply IH | reflexivity].
    + split; discriminate.
  - split; [discriminate|]. intros H. apply andb_prop in H as [_ H].
    apply IH in H. discriminate.
Qed.

Lemma lstrip_whitespace_only s :
  whitespace_only (lstrip s) = whitespace_only s.
Proof.
  induction s as [|c s IH]; cbn [lstrip whitespace_only]; [reflexivity|].
  destruct (py_isspace c) eqn:E; cbn [andb whitespace_only]; [exact IH|].
  now rewrite E.
Qed.

Lemma is_blank_spec t : is_blank t = true <-> whitespace_only t = true.
Proof.
  unfold is_blank, strip. split.
  - intros H. apply orb_prop in H as [H|H].
    + destruct t; [reflexivity | discriminate].
    + apply String.eqb_eq, rstrip_empty in H.
      now rewrite lstrip_whitespace_only in H.
  - intros H. apply orb_true_iff. right. apply String.eqb_eq, rstrip_empty.
    now rewrite lstrip_whitespace_only.
Qed.

Lemma in_scored_items m t mt :
  In (m, t) (scored_items mt) <-> In (m, t) mt /\ is_blank t = false.
Proof.
  unfold scored_items. rewrite filter_In. cbn [snd].
  now rewrite negb_true_iff.
Qed.

Lemma scored_items_keys_incl mt m :
  In m (Dict.keys (scored_items mt)) ->
  exists t, In (m, t) mt /\ is_blank t = false.
Proof.
  unfold Dict.keys. rewrite in_map_iff. intros [[m' t] [<- H]].
  exists t. now apply in_scored_items.
Qed.

Lemma NoDup_keys_unique {V} (d : Dict.t V) k v v' :
  NoDup (Dict.keys d) -> In (k, v) d -> In (k, v') d -> v = v'.
Proof.
  unfold Dict.keys. induction d as [|[k0 v0] d IH]; cbn; [tauto|].
  intros Hnd [H1|H1] [H2|H2]; inversion Hnd as [|? ? Hnin Hnd']; subst.
  - congruence.
  - inversion H1; subst. exfalso. apply Hnin.
    change k with (fst (k, v')). now apply in_map.
  - inversion H2; subst. exfalso. apply Hnin.
    change k with (fst (k, v)). now apply in_map.
  - now apply IH.
Qed.

(** ** A small evaluator to run the definitions on

    BLEU answers 50 (of 100), ROUGE-L an f-measure of 1/2, COMET 3/2 and
    BLEURT -1/2, whatever the texts; the other metrics are not installed. *)

Definition example_libs : Libs :=
  mkLibs (fun s => s) (fun s => inr [s]) (inr false).

Definition example_handlers : Handlers :=
  mkHandlers
    (Some (fun _ _ => inr (mkBLEU (Q2Qc 50) (Q2Qc 1))))
    None
    None
    (Some (fun _ _ => inr (mkRouge (Q2Qc (1#2)) (Q2Qc (1#2)) (Q2Qc (1#2)))))
    None
    (Some (fun _ _ => inr (Q2Qc (-1#2))))
    (Some (fun _ _ _ _ _ => inr (Q2Qc (3#2)))).

Definition example_evaluator : Evaluator := mkEvaluator example_handlers false.

(** ** Single reference *)

(** C2.  With exactly one reference, the scores [evaluate_single] returns
    for the one-element list are the scores [evaluate_per_reference]
    records for that reference, metric by metric. *)
Theorem single_reference_equivalence libs self h r source :
  exists l,
    evaluate_single libs self h [r] source = inr l /\
    evaluate_per_reference libs self h [r] source = inr [("ref1", l)].
Proof.
  exists (single_scores libs self h [r] source). split.
  - apply evaluate_single_total.
  - now rewrite evaluate_per_reference_total.
Qed.

(** ** Failure of one metric *)

Lemma for_enumerate_raise {A St} (l : list A) i (s : St) e :
  l <> [] ->
  for_enumerate l i (fun _ _ _ => inl e) s = inl e.
Proof. destruct l; [congruence | reflexivity]. Qed.

Section Stubs.

Variable libs : Libs.
Variable self : Evaluator.
Variables (m : Metric) (e : exn) (h : string).










End Stubs.

Lemma is_blank_whitespace_only t : is_blank t = whitespace_only t.
Proof.
  destruct (is_blank t) eqn:E.
  - symmetry. now apply is_blank_spec.
  - destruct (whitespace_only t) eqn:W; [|reflexivity].
    apply is_blank_spec in W. congruence.
Qed.



(** With ROUGE-L failing, the two models that have a text keep their
    BLEU-4, BLEURT and COMET scores. *)
Example partial_failure_example :
  exists evs',
    evaluate_chunk example_libs
      (stub_failing ROUGE "rouge is broken" example_evaluator) "1"
      (Some "ouranos")
      [("X", "The sky is blue."); ("Y", "   "); ("Z", "Blue sky.")]
      ["The sky is blue."; "Heaven is blue."] true
    = inr evs' /\
    map (fun ev => (model_name ev, map metric_name (scores ev))) evs'
    = [("X", ["BLEU-4"; "BLEURT"; "COMET"]);
       ("Z", ["BLEU-4"; "BLEURT"; "COMET"])].
Proof. eexists. split; reflexivity. Qed.

(** ** Blank hypotheses *)

Lemma scored_items_idem mt :
  scored_items (filter (fun item => negb (whitespace_only (snd item))) mt)
  = scored_items mt.
Proof.
  unfold scored_items. induction mt as [|[m t] mt IH]; [reflexivity|].
  cbn [filter snd]. rewrite is_blank_whitespace_only.
  destruct (whitespace_only t) eqn:W; cbn [negb filter snd]; [exact IH|].
  rewrite is_blank_whitespace_only, W. cbn [negb]. now rewrite IH.
Qed.

(** C7.  A model whose text is empty or consists of white space gets no
    [ChunkEvaluation]; the other models are evaluated as if it were not in
    the dict, each with the scores of [evaluate_single] on its text. *)
Theorem blank_hypothesis_skipped libs self cid source mt refs inc :
  NoDup (Dict.keys mt) ->
  exists evs,
    evaluate_chunk libs self cid source mt refs inc = inr evs /\
    (forall m t, In (m, t) mt -> whitespace_only t = true ->
       forall ev, In ev evs -> model_name ev <> m) /\
    (forall m t, In (m, t) mt -> whitespace_only t = false ->
       exists ev, In ev evs /\ chunk_id ev = cid /\ model_name ev = m /\
         evaluate_single libs self t refs source = inr (scores ev)) /\
    evaluate_chunk libs self cid source
      (filter (fun item => negb (whitespace_only (snd item))) mt) refs inc
    = inr evs.
Proof.
  intros Hnd. eexists. rewrite !evaluate_chunk_total.
  split; [reflexivity|]. repeat split.
  - intros m t Hin Hblank ev Hev Hname.
    apply in_map_iff in Hev as [[m' t'] [<- Hin']]. cbn in Hname. subst m'.
    apply in_scored_items in Hin' as [Hin' Hnb].
    assert (t' = t) by (eapply NoDup_keys_unique; eassumption). subst t'.
    apply is_blank_spec in Hblank. congruence.
  - intros m t Hin Hnb.
    exists (chunk_evaluation_of libs self cid source refs inc (m, t)).
    repeat split.
    + apply in_map. apply in_scored_items. split; [assumption|].
      destruct (is_blank t) eqn:E; [|reflexivity].
      apply is_blank_spec in E. congruence.
    + apply evaluate_single_total.
  - now rewrite scored_items_idem.
Qed.

Lemma blank_hypothesis_skipped_witness :
  NoDup (Dict.keys [("X", "The sky is blue."); ("Y", "   "); ("Z", "")]) /\
  exists evs,
    evaluate_chunk example_libs example_evaluator "1" (Some "ouranos")
      [("X", "The sky is blue."); ("Y", "   "); ("Z", "")]
      ["The sky is blue."; "Heaven is blue."] true = inr evs /\
    map model_name evs = ["X"].
Proof.
  assert (Hnd : NoDup (Dict.keys
                         [("X", "The sky is blue."); ("Y", "   "); ("Z", "")])).
  { cbn. repeat constructor; cbn; intuition discriminate. }
  split; [exact Hnd|].
  destruct (@blank_hypothesis_skipped example_libs example_evaluator "1"
              (Some "ouranos") _ ["The sky is blue."; "Heaven is blue."] true
              Hnd)
    as [evs [Hevs _]].
  exists evs. split; [exact Hevs|].
  rewrite evaluate_chunk_total in Hevs. injection Hevs as <-. reflexivity.
Defined.

(** ** The per-reference breakdown *)

(** C8.  Asking for the per-reference breakdown changes nothing but the
    [per_reference_scores] field: chunk, model and primary scores of every
    [ChunkEvaluation] are those obtained without it. *)
Theorem per_reference_breakdown_frame libs self cid source mt refs :
  exists evs,
    evaluate_chunk libs self cid source mt refs true = inr evs /\
    evaluate_chunk libs self cid source mt refs false
    = inr (map (fun ev =>
                  mkChunkEvaluation (chunk_id ev) (model_name ev) (scores ev) [])
               evs).
Proof.
  eexists. rewrite !evaluate_chunk_total. split; [reflexivity|].
  now rewrite map_map.
Qed.

(** ** Missing source text *)

Definition signals_error {A} (c : py A) : Prop := exists e, c = inl e.

(** The reading of the specification: with COMET installed, an absent
    source makes [evaluate_single] fail. *)
Definition missing_source_is_an_error : Prop :=
  forall libs self h refs source,
    h_comet (metric_handlers self) <> None ->
    source = None \/ source = Some "" ->
    signals_error (evaluate_single libs self h refs source).

(** C9, as stated, fails: with COMET installed and no source,
    [evaluate_single] returns the scores of the other metrics and raises
    nothing. *)
Lemma missing_source_counterexample :
  h_comet (metric_handlers example_evaluator) <> None /\
  (exists l,
     evaluate_single example_libs example_evaluator "The sky is blue."
       ["The sky is blue."; "Heaven is blue."] None = inr l /\
     map metric_name l = ["BLEU-4"; "ROUGE-L"; "BLEURT"]) /\
  ~ missing_source_is_an_error.
Proof.
  split; [discriminate|]. split.
  - eexists. split; reflexivity.
  - intros H.
    destruct (H example_libs example_evaluator "The sky is blue."
                ["The sky is blue."] None) as [e He];
      [discriminate | now left | discriminate He].
Qed.

(** C9, amended.  Without a source text ([None] or the empty string)
    [evaluate_single] never calls the COMET wrapper: it returns exactly the
    scores of the six other metrics, none of them COMET's, and raises
    nothing. *)
Theorem comet_skipped_without_source libs self h refs :
  evaluate_single libs self h refs None
  = inr (sourceless_scores libs self h refs) /\
  evaluate_single libs self h refs (Some "")
  = inr (sourceless_scores libs self h refs) /\
  Forall (fun s => metric_name s <> "COMET") (sourceless_scores libs self h refs).
Proof.
  rewrite !evaluate_single_total. unfold single_scores. cbn [comet_scores truthy].
  rewrite app_nil_r. repeat split.
  unfold sourceless_scores. repeat (apply Forall_app; split);
    eapply Forall_impl;
    [| apply bleu_named | | apply chrf_named | | apply meteor_named
     | | apply rouge_named | | apply bertscore_named | | apply bleurt_named];
    cbn; intros s ->; discriminate.
Qed.

(** ** Translation records *)

Lemma set_fresh {V} (d : Dict.t V) k v :
  ~ In k (Dict.keys d) -> Dict.set d k v = d ++ [(k, v)].
Proof.
  unfold Dict.keys. induction d as [|[k' v'] d IH]; cbn; [reflexivity|].
  intros H. destruct (String.eqb_spec k k') as [->|_]; [tauto|].
  rewrite IH; tauto.
Qed.

Lemma fold_set_fresh {A V} (g : A -> V) (l : Dict.t A) (acc : Dict.t V) :
  NoDup (Dict.keys acc ++ Dict.keys l) ->
  fold_left (fun d (item : string * A) => Dict.set d (fst item) (g (snd item)))
    l acc
  = acc ++ map (fun item => (fst item, g (snd item))) l.
Proof.
  revert acc. induction l as [|[k a] l IH]; intros acc Hnd; cbn.
  - now rewrite app_nil_r.
  - cbn in Hnd. rewrite set_fresh.
    + rewrite IH; [now rewrite <- app_assoc|].
      unfold Dict.keys in *. rewrite map_app. cbn. rewrite <- app_assoc. exact Hnd.
    + apply NoDup_remove_2 in Hnd. intros H. apply Hnd. apply in_or_app. now left.
Qed.

Lemma get_model_translations_map models :
  NoDup (Dict.keys models) ->
  get_model_translations models
  = map (fun item => (fst item, translation_of (snd item))) models.
Proof.
  intros Hnd. unfold get_model_translations.
  now rewrite fold_set_fresh.
Qed.

Section AllFacts.

Variable libs : Libs.
Variable self : Evaluator.

(** The evaluations [evaluate_all] adds for one chunk. *)
Definition chunk_evaluations (translations : Dict.t (Dict.t TransObj))
    (chunk : Parsed.ParsedChunk) : list ChunkEvaluation :=
  match Dict.get translations (Parsed.chunk_id chunk) with
  | None => []
  | Some models =>
      map (chunk_evaluation_of libs self (Parsed.chunk_id chunk)
             (Some (Parsed.greek_text chunk))
             (Parsed.reference_translations chunk) true)
          (scored_items (get_model_translations models))
  end.

Lemma for_each_all_body translations chunks evs :
  for_each chunks (all_body libs self translations) evs
  = inr (evs ++ flat_map (chunk_evaluations translations) chunks).
Proof.
  revert evs. induction chunks as [|c chunks IH]; intros evs; cbn [for_each].
  - cbn. now rewrite app_nil_r.
  - cbn [flat_map]. unfold all_body, chunk_evaluations at 1.
    destruct (Dict.get translations (Parsed.chunk_id c)) as [models|].
    + rewrite evaluate_chunk_total. cbn [bind Monad_either ret].
      rewrite IH. now rewrite <- app_assoc.
    + cbn [bind Monad_either ret]. now rewrite IH.
Qed.

Lemma evaluate_all_total chunks translations :
  evaluate_all libs self chunks translations
  = inr (flat_map (chunk_evaluations translations) chunks).
Proof. unfold evaluate_all. now rewrite for_each_all_body. Qed.

End AllFacts.

(** A record that has no [translation] attribute and is not a mapping
    with a ['translation'] key. *)
Definition unrecognised (o : TransObj) : Prop :=
  attr_translation o = None /\
  forall d, as_dict o = Some d -> Dict.get d "translation" = None.

Lemma translation_of_unrecognised o :
  unrecognised o -> translation_of o = py_str o.
Proof.
  intros [Hattr Hdict]. unfold translation_of. rewrite Hattr.
  destruct (as_dict o) as [d|]; [|reflexivity].
  now rewrite (Hdict d eq_refl).
Qed.

(** C10.  A translation record that is neither an object with a
    [translation] attribute nor a mapping with a ['translation'] key is
    evaluated on [str(record)]: provided that text is not blank, the chunk
    and model get a [ChunkEvaluation] whose scores are those of
    [evaluate_single] on it. *)
Theorem unrecognised_record_scored_as_str libs self chunks translations
    chunk models m o :
  In chunk chunks ->
  Dict.get translations (Parsed.chunk_id chunk) = Some models ->
  NoDup (Dict.keys models) ->
  In (m, o) models ->
  unrecognised o ->
  whitespace_only (py_str o) = false ->
  exists evs ev,
    evaluate_all libs self chunks translations = inr evs /\
    In ev evs /\
    chunk_id ev = Parsed.chunk_id chunk /\
    model_name ev = m /\
    evaluate_single libs self (py_str o)
      (Parsed.reference_translations chunk) (Some (Parsed.greek_text chunk))
    = inr (scores ev).
Proof.
  intros Hchunk Hget Hnd Hin Hun Hnb.
  rewrite evaluate_all_total. eexists.
  exists (chunk_evaluation_of libs self (Parsed.chunk_id chunk)
            (Some (Parsed.greek_text chunk))
            (Parsed.reference_translations chunk) true (m, py_str o)).
  split; [reflexivity|]. repeat split.
  - apply in_flat_map. exists chunk. split; [assumption|].
    unfold chunk_evaluations. rewrite Hget. apply in_map.
    apply in_scored_items. split.
    + rewrite get_model_translations_map by assumption.
      rewrite <- (translation_of_unrecognised Hun).
      change (m, translation_of o)
        with ((fun item : string * TransObj =>
                 (fst item, translation_of (snd item))) (m, o)).
      now apply in_map.
    + now rewrite is_blank_whitespace_only.
  - apply evaluate_single_total.
Qed.

(** A record that is just a string of its own. *)
Definition plain_record (s : string) : TransObj := mkTransObj None None s.

Lemma unrecognised_record_scored_as_str_witness :
  exists evs ev,
    evaluate_all example_libs example_evaluator
      [Parsed.mk "1" "ouranos" ["The sky is blue."; "Heaven is blue."]]
      [("1", [("X", plain_record "The sky is blue.")])] = inr evs /\
    In ev evs /\
    chunk_id ev = "1" /\
    model_name ev = "X" /\
    evaluate_single example_libs example_evaluator "The sky is blue."
      ["The sky is blue."; "Heaven is blue."] (Some "ouranos")
    = inr (scores ev).
Proof.
  apply (@unrecognised_record_scored_as_str example_libs example_evaluator
           [Parsed.mk "1" "ouranos" ["The sky is blue."; "Heaven is blue."]]
           [("1", [("X", plain_record "The sky is blue.")])]
           (Parsed.mk "1" "ouranos" ["The sky is blue."; "Heaven is blue."])
           [("X", plain_record "The sky is blue.")]
           "X" (plain_record "The sky is blue.")).
  - now left.
  - reflexivity.
  - repeat constructor. cbn. tauto.
  - now left.
  - split; [reflexivity | discriminate].
  - reflexivity.
Defined.

(* ================================================================== *)
(** ** Order on floats *)
(* ================================================================== *)

Lemma Qcltb_lt x y : Qcltb x y = true <-> (x < y)%Qc.
Proof.
  unfold Qcltb. rewrite Qclt_alt. destruct (x ?= y)%Qc; split; congruence.
Qed.

Lemma Qcltb_ge x y : Qcltb x y = false <-> (y <= x)%Qc.
Proof.
  split; intros H.
  - apply Qcnot_lt_le. intros Hlt. apply Qcltb_lt in Hlt. congruence.
  - destruct (Qcltb x y) eqn:E; [|reflexivity].
    apply Qcltb_lt in E. now apply Qclt_not_le in E.
Qed.

Lemma fltb_irrefl x : fltb x x = false.
Proof. destruct x; [reflexivity|]. apply Qcltb_ge, Qcle_refl. Qed.

Lemma fltb_trans x y z : fltb x y = true -> fltb y z = true -> fltb x z = true.
Proof.
  destruct x, y, z; cbn; try congruence. rewrite !Qcltb_lt. apply Qclt_trans.
Qed.

Lemma fle_lt_trans x y z : fle x y -> fltb y z = true -> fltb x z = true.
Proof.
  unfold fle. destruct x, y, z; cbn; try congruence.
  rewrite Qcltb_ge, !Qcltb_lt. apply Qcle_lt_trans.
Qed.

Lemma flt_le_trans x y z : fltb x y = true -> fle y z -> fltb x z = true.
Proof.
  unfold fle. destruct x, y, z; cbn; try congruence.
  rewrite Qcltb_ge, !Qcltb_lt. apply Qclt_le_trans.
Qed.

Lemma flt_fle x y : fltb x y = true -> fle x y.
Proof.
  unfold fle. destruct x, y; cbn; try congruence.
  rewrite Qcltb_ge, Qcltb_lt. apply Qclt_le_weak.
Qed.

Lemma fle_refl x : fle x x.
Proof. apply fltb_irrefl. Qed.

Lemma fle_trans x y z : fle x y -> fle y z -> fle x z.
Proof.
  unfold fle. destruct x, y, z; cbn; try congruence.
  rewrite !Qcltb_ge. intros. now apply Qcle_trans with q0.
Qed.

Lemma fle_antisym x y : fle x y -> fle y x -> x = y.
Proof.
  unfold fle. destruct x, y; cbn; try congruence.
  rewrite !Qcltb_ge. intros. f_equal. now apply Qcle_antisym.
Qed.

Lemma fle_total x y : fle x y \/ fle y x.
Proof.
  unfold fle. destruct (fltb y x) eqn:E; [right | now left].
  now apply flt_fle.
Qed.

(* ================================================================== *)
(** ** The max-over-references loops *)
(* ================================================================== *)

(** A loop whose body scores the reference and then updates the state
    without further effects. *)
Fixpoint steps {V St} (step : nat -> V -> St -> St) (vs : list V) (i : nat)
    (st : St) : St :=
  match vs with
  | [] => st
  | v :: vs' => steps step vs' (S i) (step i v st)
  end.

Lemma for_enumerate_steps {A V St} (f : A -> py V)
    (step : nat -> V -> St -> St) (body : nat -> A -> St -> py St) l i st :
  (forall i x st, body i x st = (v <- f x ;; ret (step i v st))) ->
  for_enumerate l i body st = (vs <- map_py f l ;; ret (steps step vs i st)).
Proof.
  intros Hbody. revert i st. induction l as [|x l IH]; intros i st.
  - reflexivity.
  - cbn [for_enumerate map_py]. rewrite Hbody.
    destruct (f x) as [e|v]; [reflexivity|]. cbn [bind Monad_either ret].
    rewrite IH. destruct (map_py f l); reflexivity.
Qed.

Lemma map_py_nth {A B} (f : A -> py B) l ys j y :
  map_py f l = inr ys -> nth_error ys j = Some y ->
  exists x, nth_error l j = Some x /\ f x = inr y.
Proof.
  revert ys j. induction l as [|x l IH]; intros ys j; cbn [map_py].
  - intros [= <-]. now destruct j.
  - destruct (f x) as [e|v] eqn:Ex; [discriminate|]. cbn [bind Monad_either].
    destruct (map_py f l) as [e|vs]; [discriminate|]. cbn.
    intros [= <-]. destruct j as [|j]; cbn.
    + intros [= <-]. now exists x.
    + intros H. now apply (IH vs j).
Qed.

Lemma map_py_length {A B} (f : A -> py B) l ys :
  map_py f l = inr ys -> List.length ys = List.length l.
Proof.
  revert ys. induction l as [|x l IH]; intros ys; cbn [map_py].
  - now intros [= <-].
  - destruct (f x); [discriminate|]. cbn [bind Monad_either].
    destruct (map_py f l) as [e|vs]; [discriminate|]. cbn.
    intros [= <-]. cbn. f_equal. now apply IH.
Qed.

(** The common shape of the four loops: keep the first item whose key
    exceeds every key before it and the threshold the loop starts from.
    The state is (threshold, best item, its 1-based index). *)
Section FirstMax.

Variable X : Type.
Variable key : X -> Qc.

Definition fm_state : Type := float * option X * nat.

Definition fm_step (i : nat) (x : X) (st : fm_state) : fm_state :=
  let '(thr, best, idx) := st in
  if fgtb (Fin (key x)) thr then (Fin (key x), Some x, S i) else st.

(** [x], found at position [j], is the maximum of [xs], and the first
    item to reach it. *)
Definition first_maximum (xs : list X) (j : nat) (x : X) : Prop :=
  nth_error xs j = Some x /\
  Forall (fun y => (key y <= key x)%Qc) xs /\
  forall j' y, j' < j -> nth_error xs j' = Some y -> (key y < key x)%Qc.

Lemma fm_steps_spec xs : forall i thr best idx,
  (steps fm_step xs i (thr, best, idx) = (thr, best, idx) /\
   Forall (fun y => fle (Fin (key y)) thr) xs)
  \/
  (exists j x, first_maximum xs j x /\ fltb thr (Fin (key x)) = true /\
     steps fm_step xs i (thr, best, idx) = (Fin (key x), Some x, S (i + j))).
Proof.
  induction xs as [|x xs IH]; intros i thr best idx.
  - left. split; [reflexivity | constructor].
  - cbn [steps fm_step]. unfold fgtb.
    destruct (fltb thr (Fin (key x))) eqn:Hx.
    + destruct (IH (S i) (Fin (key x)) (Some x) (S i))
        as [[Hst Hall] | (j & y & (Hnth & Hmax & Hfirst) & Hgt & Hst)].
      * right. exists 0, x. rewrite Nat.add_0_r. repeat split; auto.
        -- constructor; [apply Qcle_refl|].
           eapply Forall_impl; [|exact Hall]. cbn. intros a Ha.
           now apply Qcltb_ge in Ha.
        -- intros j' y Hj. inversion Hj.
      * right. exists (S j), y. cbn in Hgt. apply Qcltb_lt in Hgt.
        repeat split.
        -- exact Hnth.
        -- constructor; [now apply Qclt_le_weak | exact Hmax].
        -- intros [|j'] z Hj; cbn.
           ++ now intros [= <-].
           ++ apply Hfirst. lia.
        -- apply fltb_trans with (Fin (key x)); [exact Hx|].
           cbn. now apply Qcltb_lt.
        -- rewrite Hst. do 2 f_equal. lia.
    + destruct (IH (S i) thr best idx)
        as [[Hst Hall] | (j & y & (Hnth & Hmax & Hfirst) & Hgt & Hst)].
      * left. split; [exact Hst|]. constructor; assumption.
      * right. exists (S j), y.
        assert (Hxy : (key x < key y)%Qc).
        { apply Qcltb_lt.
          change (fltb (Fin (key x)) (Fin (key y)) = true).
          eapply fle_lt_trans; [exact Hx | exact Hgt]. }
        repeat split.
        -- exact Hnth.
        -- constructor; [now apply Qclt_le_weak | exact Hmax].
        -- intros [|j'] z Hj; cbn.
           ++ now intros [= <-].
           ++ apply Hfirst. lia.
        -- exact Hgt.
        -- rewrite Hst. do 2 f_equal. lia.
Qed.

(** Started below every key, the loop ends on the first maximum. *)
Lemma fm_steps_from_neg_inf x xs best idx :
  exists j y, first_maximum (x :: xs) j y /\
    steps fm_step (x :: xs) 0 (NegInf, best, idx) = (Fin (key y), Some y, S j).
Proof.
  destruct (fm_steps_spec (x :: xs) 0 NegInf best idx)
    as [[_ Hall] | (j & y & Hfm & _ & Hst)].
  - inversion Hall as [|? ? Hx _]. discriminate Hx.
  - now exists j, y.
Qed.

End FirstMax.

(** *** The four loops as instances *)

Definition rouge_step (i : nat) (v : RougeScore) (st : option RougeScore * nat)
    : option RougeScore * nat :=
  match fst st with
  | None => (Some v, S i)
  | Some best =>
      if Qcltb (rouge_fmeasure best) (rouge_fmeasure v) then (Some v, S i)
      else st
  end.

Lemma rouge_body_step scorer h i r st :
  rouge_body scorer h i r st
  = (v <- scorer r h ;; ret (rouge_step i v st)).
Proof.
  unfold rouge_body, rouge_step. destruct (scorer r h) as [e|v]; [reflexivity|].
  cbn [bind Monad_either]. destruct (fst st) as [b|]; [|reflexivity].
  now destruct (Qcltb _ _).
Qed.

Definition rouge_embed (st : option RougeScore * nat)
    : fm_state RougeScore :=
  (match fst st with None => NegInf | Some b => Fin (rouge_fmeasure b) end,
   fst st, snd st).

Lemma rouge_steps_embed vs : forall i st,
  rouge_embed (steps rouge_step vs i st)
  = steps (fm_step rouge_fmeasure) vs i (rouge_embed st).
Proof.
  induction vs as [|v vs IH]; intros i st; [reflexivity|].
  cbn [steps]. rewrite IH. f_equal.
  unfold rouge_step, rouge_embed, fm_step, fgtb. destruct st as [[b|] idx];
    cbn [fst snd fltb]; [|reflexivity].
  now destruct (Qcltb _ _).
Qed.

Definition max_step (i : nat) (s : Qc) (st : float * nat) : float * nat :=
  if fgtb (Fin s) (fst st) then (Fin s, S i) else st.

Lemma max_body_step f i r st :
  max_body f i r st = (s <- f r ;; ret (max_step i s st)).
Proof.
  unfold max_body, max_step. destruct (f r) as [e|s]; [reflexivity|].
  cbn [bind Monad_either]. now destruct (fgtb _ _).
Qed.

(** The BLEURT and COMET loops do not keep the best item, only its key. *)
Lemma max_steps_embed vs : forall i st best,
  exists best',
    steps (fm_step (fun q : Qc => q)) vs i (fst st, best, snd st)
    = (fst (steps max_step vs i st), best', snd (steps max_step vs i st)).
Proof.
  induction vs as [|v vs IH]; intros i st best; [now exists best|].
  cbn [steps].
  assert (Hstep : exists b,
             fm_step (fun q : Qc => q) i v (fst st, best, snd st)
             = (fst (max_step i v st), b, snd (max_step i v st))).
  { unfold fm_step, max_step. destruct (fgtb (Fin v) (fst st)); eauto. }
  destruct Hstep as [b ->]. apply IH.
Qed.

Definition bert_step (i : nat) (prf : Qc * Qc * Qc)
    (st : Qc * option (Qc * Qc * Qc) * nat) : Qc * option (Qc * Qc * Qc) * nat :=
  if Qcltb (fst (fst st)) (snd prf) then (snd prf, Some prf, S i) else st.

Lemma bertscore_body_step self score_fn h i r st :
  bertscore_body self score_fn h i r st
  = (prf <- score_fn h r (if use_gpu self then "cuda" else "cpu") ;;
     ret (bert_step i prf st)).
Proof.
  unfold bertscore_body, bert_step. destruct st as [[bf br] idx].
  destruct (score_fn h r _) as [e|[[p rc] f1]]; [reflexivity|].
  cbn [bind Monad_either fst snd]. now destruct (Qcltb _ _).
Qed.

Definition bert_embed (st : Qc * option (Qc * Qc * Qc) * nat)
    : fm_state (Qc * Qc * Qc) :=
  (Fin (fst (fst st)), snd (fst st), snd st).

Lemma bert_steps_embed vs : forall i st,
  bert_embed (steps bert_step vs i st)
  = steps (fm_step (fun prf : Qc * Qc * Qc => snd prf)) vs i (bert_embed st).
Proof.
  induction vs as [|v vs IH]; intros i st; [reflexivity|].
  cbn [steps]. rewrite IH. f_equal.
  unfold bert_step, bert_embed, fm_step, fgtb. destruct st as [[bf br] idx].
  cbn [fst snd fltb]. now destruct (Qcltb _ _).
Qed.

Lemma bert_steps_below vs :
  Forall (fun prf : Qc * Qc * Qc => (snd prf <= Q2Qc (-1))%Qc) vs ->
  forall i,
    steps bert_step vs i (Q2Qc (-1), None, 0) = (Q2Qc (-1), None, 0).
Proof.
  induction 1 as [|prf vs Hprf _ IH]; intros i; [reflexivity|].
  cbn [steps]. unfold bert_step at 2. cbn [fst snd].
  apply Qcltb_ge in Hprf. rewrite Hprf. apply IH.
Qed.

(** *** What the specification asks of a max-over-references score *)

(** [s] carries the largest of the per-reference scores [per_ref], and its
    ['best_reference'] is the 1-based position of a reference reaching
    it. *)
Definition max_over_references (per_ref : list Qc) (s : EvaluationScore)
    : Prop :=
  exists j v,
    nth_error per_ref j = Some v /\
    Forall (fun w => (w <= v)%Qc) per_ref /\
    score s = Fin v /\
    Dict.get (details s) "best_reference" = Some (DInt (S j)).

Lemma first_maximum_map {X} (key : X -> Qc) xs j x :
  first_maximum key xs j x ->
  nth_error (map key xs) j = Some (key x) /\
  Forall (fun w => (w <= key x)%Qc) (map key xs).
Proof.
  intros (Hnth & Hmax & _). split.
  - now rewrite nth_error_map, Hnth.
  - now apply Forall_map.
Qed.

Section MaxOverReferences.

Variable libs : Libs.
Variable self : Evaluator.
Variable h : string.

Lemma rouge_max scorer refs vs :
  h_rouge (metric_handlers self) = Some scorer ->
  refs <> [] ->
  map_py (fun r => scorer r h) refs = inr vs ->
  exists s, evaluate_rouge self h refs = inr [s] /\
    metric_name s = "ROUGE-L" /\
    max_over_references (map rouge_fmeasure vs) s.
Proof.
  intros Hh Hrefs Hvs. unfold evaluate_rouge. rewrite Hh.
  rewrite (for_enumerate_steps (fun r => scorer r h) rouge_step)
    by (intros; apply rouge_body_step).
  rewrite Hvs. cbn [bind Monad_either ret].
  destruct vs as [|v vs].
  { apply map_py_length in Hvs. destruct refs; [congruence | discriminate]. }
  destruct (fm_steps_from_neg_inf rouge_fmeasure v vs None 0)
    as (j & y & Hfm & Hst).
  pose proof (rouge_steps_embed (v :: vs) 0 (None, 0)) as Hemb.
  change (rouge_embed (None, 0)) with (NegInf, @None RougeScore, 0) in Hemb.
  rewrite Hst in Hemb. unfold rouge_embed in Hemb.
  destruct (steps rouge_step (v :: vs) 0 (None, 0)) as [best idx].
  cbn [fst snd] in Hemb. injection Hemb as _ -> ->.
  cbn [or_nothing catch Exception_either fst snd]. eexists. split; [reflexivity|].
  split; [reflexivity|].
  apply first_maximum_map in Hfm as [Hnth Hmax].
  exists j, (rouge_fmeasure y). now repeat split.
Qed.

Lemma bleurt_max scorer refs vs :
  h_bleurt (metric_handlers self) = Some scorer ->
  refs <> [] ->
  map_py (fun r => scorer r h) refs = inr vs ->
  exists s, evaluate_bleurt self h refs = inr [s] /\
    metric_name s = "BLEURT" /\
    max_over_references vs s.
Proof.
  intros Hh Hrefs Hvs. unfold evaluate_bleurt. rewrite Hh.
  rewrite (for_enumerate_steps (fun r => scorer r h) max_step)
    by (intros; apply (max_body_step (fun r => scorer r h))).
  rewrite Hvs. cbn [bind Monad_either ret].
  destruct vs as [|v vs].
  { apply map_py_length in Hvs. destruct refs; [congruence | discriminate]. }
  destruct (fm_steps_from_neg_inf (fun q : Qc => q) v vs None 0)
    as (j & y & Hfm & Hst).
  destruct (max_steps_embed (v :: vs) 0 (NegInf, 0) None) as [best' Hemb].
  cbn [fst snd] in Hemb. rewrite Hst in Hemb.
  destruct (steps max_step (v :: vs) 0 (NegInf, 0)) as [best idx].
  cbn [fst snd] in Hemb. injection Hemb as <- _ <-.
  cbn [or_nothing catch Exception_either fst snd]. eexists. split; [reflexivity|].
  split; [reflexivity|].
  apply first_maximum_map in Hfm as [Hnth Hmax]. rewrite map_id in Hnth, Hmax.
  exists j, y. now repeat split.
Qed.

Lemma comet_max model refs src vs mps :
  h_comet (metric_handlers self) = Some model ->
  mps_is_available libs = inr mps ->
  refs <> [] ->
  map_py (fun r => model src h r (if use_gpu self then 1 else 0)
                     (if mps then 1 else 0)) refs = inr vs ->
  exists s, evaluate_comet libs self h refs src = inr [s] /\
    metric_name s = "COMET" /\
    max_over_references vs s.
Proof.
  intros Hh Hmps Hrefs Hvs. unfold evaluate_comet. rewrite Hh, Hmps.
  cbn [bind Monad_either].
  rewrite (for_enumerate_steps
             (fun r => model src h r (if use_gpu self then 1 else 0)
                         (if mps then 1 else 0)) max_step)
    by (intros;
        apply (max_body_step
                 (fun r => model src h r (if use_gpu self then 1 else 0)
                             (if mps then 1 else 0)))).
  rewrite Hvs. cbn [bind Monad_either ret].
  destruct vs as [|v vs].
  { apply map_py_length in Hvs. destruct refs; [congruence | discriminate]. }
  destruct (fm_steps_from_neg_inf (fun q : Qc => q) v vs None 0)
    as (j & y & Hfm & Hst).
  destruct (max_steps_embed (v :: vs) 0 (NegInf, 0) None) as [best' Hemb].
  cbn [fst snd] in Hemb. rewrite Hst in Hemb.
  destruct (steps max_step (v :: vs) 0 (NegInf, 0)) as [best idx].
  cbn [fst snd] in Hemb. injection Hemb as <- _ <-.
  cbn [or_nothing catch Exception_either fst snd]. eexists. split; [reflexivity|].
  split; [reflexivity|].
  apply first_maximum_map in Hfm as [Hnth Hmax]. rewrite map_id in Hnth, Hmax.
  exists j, y. now repeat split.
Qed.

(** BERTScore starts from the threshold -1, not from below every key. *)
Lemma bertscore_max score_fn refs vs :
  h_bertscore (metric_handlers self) = Some score_fn ->
  map_py (fun r => score_fn h r (if use_gpu self then "cuda" else "cpu")) refs
  = inr vs ->
  Exists (fun prf : Qc * Qc * Qc => (Q2Qc (-1) < snd prf)%Qc) vs ->
  exists s, evaluate_bertscore self h refs = inr [s] /\
    metric_name s = "BERTScore" /\
    max_over_references (map (fun prf : Qc * Qc * Qc => snd prf) vs) s.
Proof.
  intros Hh Hvs Hex. unfold evaluate_bertscore. rewrite Hh.
  rewrite (for_enumerate_steps
             (fun r => score_fn h r (if use_gpu self then "cuda" else "cpu"))
             bert_step)
    by (intros; apply bertscore_body_step).
  rewrite Hvs. cbn [bind Monad_either ret].
  pose proof (bert_steps_embed vs 0 (Q2Qc (-1), None, 0)) as Hemb.
  change (bert_embed (Q2Qc (-1), None, 0))
    with (Fin (Q2Qc (-1)), @None (Qc * Qc * Qc), 0) in Hemb.
  destruct (fm_steps_spec (fun prf : Qc * Qc * Qc => snd prf) vs 0
              (Fin (Q2Qc (-1))) None 0)
    as [[_ Hall] | (j & [[p rc] f1] & Hfm & _ & Hst)].
  - exfalso. apply Exists_exists in Hex as (prf & Hin & Hlt).
    rewrite Forall_forall in Hall. specialize (Hall prf Hin).
    unfold fle in Hall. cbn in Hall. apply Qcltb_lt in Hlt. congruence.
  - rewrite Hst in Hemb. unfold bert_embed in Hemb.
    destruct (steps bert_step vs 0 (Q2Qc (-1), None, 0)) as [[bf br] idx].
    cbn [fst snd] in Hemb. injection Hemb as _ -> ->.
    cbn [or_nothing catch Exception_either fst snd Nat.add].
    eexists. split; [reflexivity|]. split; [reflexivity|].
    apply first_maximum_map in Hfm as [Hnth Hmax]. cbn [snd] in Hnth, Hmax.
    exists j, f1. now repeat split.
Qed.

(** When no F1 exceeds -1 the loop keeps [best_result = None], indexing it
    raises, and the handler returns no score. *)
Lemma bertscore_none score_fn refs vs :
  h_bertscore (metric_handlers self) = Some score_fn ->
  map_py (fun r => score_fn h r (if use_gpu self then "cuda" else "cpu")) refs
  = inr vs ->
  Forall (fun prf : Qc * Qc * Qc => (snd prf <= Q2Qc (-1))%Qc) vs ->
  evaluate_bertscore self h refs = inr [].
Proof.
  intros Hh Hvs Hall. unfold evaluate_bertscore. rewrite Hh.
  rewrite (for_enumerate_steps
             (fun r => score_fn h r (if use_gpu self then "cuda" else "cpu"))
             bert_step)
    by (intros; apply bertscore_body_step).
  rewrite Hvs. cbn [bind Monad_either ret].
  now rewrite bert_steps_below.
Qed.

End MaxOverReferences.

(** ** Max over references *)

(** C1.  For a hypothesis and a non-empty list of references that the
    library scores without raising, ROUGE-L, BLEURT and COMET return one
    score, the largest of the per-reference scores, and ['best_reference']
    is the 1-based position of a reference reaching it.  So does BERTScore
    when the F1 of some reference exceeds -1, the value its loop starts
    from, as the F1 that bert-score computes for a pair of texts does. *)
Theorem max_over_references_correct libs self h refs :
  refs <> [] ->
  (forall scorer vs,
     h_rouge (metric_handlers self) = Some scorer ->
     map_py (fun r => scorer r h) refs = inr vs ->
     exists s, evaluate_rouge self h refs = inr [s] /\
       max_over_references (map rouge_fmeasure vs) s) /\
  (forall scorer vs,
     h_bleurt (metric_handlers self) = Some scorer ->
     map_py (fun r => scorer r h) refs = inr vs ->
     exists s, evaluate_bleurt self h refs = inr [s] /\
       max_over_references vs s) /\
  (forall model src mps vs,
     h_comet (metric_handlers self) = Some model ->
     mps_is_available libs = inr mps ->
     map_py (fun r => model src h r (if use_gpu self then 1 else 0)
                        (if mps then 1 else 0)) refs = inr vs ->
     exists s, evaluate_comet libs self h refs src = inr [s] /\
       max_over_references vs s) /\
  (forall score_fn vs,
     h_bertscore (metric_handlers self) = Some score_fn ->
     map_py (fun r => score_fn h r (if use_gpu self then "cuda" else "cpu")) refs
     = inr vs ->
     Exists (fun prf : Qc * Qc * Qc => (Q2Qc (-1) < snd prf)%Qc) vs ->
     exists s, evaluate_bertscore self h refs = inr [s] /\
       max_over_references (map (fun prf : Qc * Qc * Qc => snd prf) vs) s).
Proof.
  intros Hrefs. repeat split.
  - intros scorer vs Hh Hvs.
    destruct (rouge_max self h Hh Hrefs Hvs) as (s & ? & _ & ?). eauto.
  - intros scorer vs Hh Hvs.
    destruct (bleurt_max self h Hh Hrefs Hvs) as (s & ? & _ & ?). eauto.
  - intros model src mps vs Hh Hmps Hvs.
    destruct (comet_max libs self h src Hh Hmps Hrefs Hvs) as (s & ? & _ & ?).
    eauto.
  - intros score_fn vs Hh Hvs Hex.
    destruct (bertscore_max self h refs Hh Hvs Hex) as (s & ? & _ & ?). eauto.
Qed.

(** An evaluator whose ROUGE-L, BERTScore and BLEURT libraries score the
    reference ["R2"] higher than any other. *)
Definition second_is_best : Evaluator :=
  mkEvaluator
    (mkHandlers None None None
       (Some (fun r _ =>
                if String.eqb r "R2"
                then inr (mkRouge (Q2Qc (3#4)) (Q2Qc (3#4)) (Q2Qc (3#4)))
                else inr (mkRouge (Q2Qc (1#2)) (Q2Qc (1#2)) (Q2Qc (1#2)))))
       (Some (fun _ r _ =>
                if String.eqb r "R2"
                then inr (Q2Qc (9#10), Q2Qc (9#10), Q2Qc (9#10))
                else inr (Q2Qc (8#10), Q2Qc (8#10), Q2Qc (8#10))))
       (Some (fun r _ =>
                if String.eqb r "R2" then inr (Q2Qc (1#4))
                else inr (Q2Qc (-1#4))))
       None)
    false.

Lemma max_over_references_correct_witness :
  ["R1"; "R2"] <> [] /\
  (exists s,
     evaluate_rouge second_is_best "H" ["R1"; "R2"] = inr [s] /\
     max_over_references [Q2Qc (1#2); Q2Qc (3#4)] s) /\
  (exists s,
     evaluate_bleurt second_is_best "H" ["R1"; "R2"] = inr [s] /\
     max_over_references [Q2Qc (-1#4); Q2Qc (1#4)] s) /\
  (exists s,
     evaluate_bertscore second_is_best "H" ["R1"; "R2"] = inr [s] /\
     max_over_references [Q2Qc (8#10); Q2Qc (9#10)] s).
Proof.
  assert (Hrefs : ["R1"; "R2"] <> []) by discriminate.
  split; [exact Hrefs|].
  destruct (@max_over_references_correct example_libs second_is_best "H"
              ["R1"; "R2"] Hrefs) as (Hrouge & Hbleurt & _ & Hbert).
  split; [|split].
  - exact (Hrouge _ _ eq_refl eq_refl).
  - exact (Hbleurt _ _ eq_refl eq_refl).
  - apply (Hbert _ _ eq_refl eq_refl).
    apply Exists_cons_hd. vm_compute. reflexivity.
Defined.

(** On the example the second reference wins for the three metrics. *)
Example second_reference_wins :
  map (fun s => Dict.get (details s) "best_reference")
    (yield (evaluate_rouge second_is_best "H" ["R1"; "R2"])
     ++ yield (evaluate_bertscore second_is_best "H" ["R1"; "R2"])
     ++ yield (evaluate_bleurt second_is_best "H" ["R1"; "R2"]))
  = [Some (DInt 2); Some (DInt 2); Some (DInt 2)].
Proof. reflexivity. Qed.

(** ** Score ranges *)









Lemma map_py_in {A B} (f : A -> py B) l ys y :
  map_py f l = inr ys -> In y ys -> exists x, In x l /\ f x = inr y.
Proof.
  intros Hys Hin. apply In_nth_error in Hin as [j Hj].
  destruct (map_py_nth f l j Hys Hj) as (x & Hx & Hfx).
  exists x. split; [eapply nth_error_In; eassumption | assumption].
Qed.



(** A COMET value above 1 and a BLEURT value below 0 come out as they went
    in. *)
Example unclipped_values :
  map score (yield (evaluate_comet example_libs example_evaluator
                      "The sky is blue." ["The sky is blue."] "ouranos"))
  = [Fin (Q2Qc (3#2))] /\
  map score (yield (evaluate_bleurt example_evaluator
                      "The sky is blue." ["The sky is blue."]))
  = [Fin (Q2Qc (-1#2))].
Proof. split; reflexivity. Qed.

(* ================================================================== *)
(** ** Facts about dictionaries *)
(* ================================================================== *)

Module DictFacts.

Definition get_or {V} (d : Dict.t V) (k : string) (dflt : V) : V :=
  match Dict.get d k with Some v => v | None => dflt end.

Lemma get_update {V} (d : Dict.t V) k dflt f k' :
  Dict.get (Dict.update d k dflt f) k'
  = if String.eqb k' k then Some (f (get_or d k dflt)) else Dict.get d k'.
Proof.
  unfold get_or. induction d as [|[k0 v0] d IH]; cbn.
  - now destruct (String.eqb k' k).
  - destruct (String.eqb_spec k k0) as [->|Hk]; cbn.
    + now destruct (String.eqb k' k0).
    + destruct (String.eqb_spec k' k0) as [->|Hk'].
      * destruct (String.eqb_spec k0 k); [congruence | reflexivity].
      * exact IH.
Qed.

Lemma set_update {V} (d : Dict.t V) k v :
  Dict.set d k v = Dict.update d k v (fun _ => v).
Proof.
  induction d as [|[k0 v0] d IH]; cbn; [reflexivity|].
  destruct (String.eqb k k0); [reflexivity | now rewrite IH].
Qed.

Lemma get_None {V} (d : Dict.t V) k :
  Dict.get d k = None <-> ~ In k (Dict.keys d).
Proof.
  unfold Dict.keys. induction d as [|[k0 v0] d IH]; cbn; [tauto|].
  destruct (String.eqb_spec k k0) as [->|Hk].
  - split; [discriminate | tauto].
  - rewrite IH. split; [intros H [?|?]; congruence || tauto | tauto].
Qed.

Lemma get_In {V} (d : Dict.t V) k v : Dict.get d k = Some v -> In (k, v) d.
Proof.
  induction d as [|[k0 v0] d IH]; cbn; [discriminate|].
  destruct (String.eqb_spec k k0) as [->|Hk].
  - intros [= ->]. now left.
  - intros H. right. now apply IH.
Qed.

Lemma In_get {V} (d : Dict.t V) k v :
  NoDup (Dict.keys d) -> In (k, v) d -> Dict.get d k = Some v.
Proof.
  intros Hnd Hin. destruct (Dict.get d k) as [v'|] eqn:E.
  - apply get_In in E. f_equal. eapply NoDup_keys_unique; eassumption.
  - apply get_None in E. exfalso. apply E.
    unfold Dict.keys. change k with (fst (k, v)). now apply in_map.
Qed.

Lemma keys_update {V} (d : Dict.t V) k dflt f :
  Dict.keys (Dict.update d k dflt f)
  = if Dict.mem d k then Dict.keys d else Dict.keys d ++ [k].
Proof.
  unfold Dict.mem, Dict.keys. induction d as [|[k0 v0] d IH]; cbn;
    [reflexivity|].
  destruct (String.eqb_spec k k0) as [->|Hk]; cbn; [reflexivity|].
  rewrite IH. now destruct (Dict.get d k).
Qed.

Lemma mem_true {V} (d : Dict.t V) k :
  Dict.mem d k = true <-> In k (Dict.keys d).
Proof.
  unfold Dict.mem. destruct (Dict.get d k) eqn:E.
  - split; [intros _ | reflexivity].
    apply get_In in E. unfold Dict.keys. change k with (fst (k, v)).
    now apply in_map.
  - apply get_None in E. split; [discriminate | tauto].
Qed.

Lemma NoDup_keys_update {V} (d : Dict.t V) k dflt f :
  NoDup (Dict.keys d) -> NoDup (Dict.keys (Dict.update d k dflt f)).
Proof.
  intros Hnd. rewrite keys_update. destruct (Dict.mem d k) eqn:E; [exact Hnd|].
  apply NoDup_app; [exact Hnd | repeat constructor; intros [] |].
  intros x Hx [<-|[]]. apply mem_true in Hx. congruence.
Qed.

Lemma in_keys_update {V} (d : Dict.t V) k dflt f k' :
  In k' (Dict.keys (Dict.update d k dflt f)) <-> k' = k \/ In k' (Dict.keys d).
Proof.
  rewrite keys_update. destruct (Dict.mem d k) eqn:E.
  - apply mem_true in E. split; [tauto | intros [->|?]; assumption].
  - rewrite in_app_iff. cbn. intuition congruence.
Qed.

Lemma get_map {V W} (g : string -> V -> W) (d : Dict.t V) k :
  Dict.get (map (fun kv => (fst kv, g (fst kv) (snd kv))) d) k
  = option_map (g k) (Dict.get d k).
Proof.
  induction d as [|[k0 v0] d IH]; cbn; [reflexivity|].
  destruct (String.eqb_spec k k0) as [->|Hk]; [reflexivity | exact IH].
Qed.

Lemma keys_map {V W} (g : string * V -> W) (d : Dict.t V) :
  Dict.keys (map (fun kv => (fst kv, g kv)) d) = Dict.keys d.
Proof. unfold Dict.keys. rewrite map_map. now apply map_ext. Qed.

(** In an update of a dict without repeated keys, the other entries stay
    and the updated one is replaced or added. *)
Lemma in_update {V} (d : Dict.t V) k dflt f k' v' :
  NoDup (Dict.keys d) ->
  In (k', v') (Dict.update d k dflt f) <->
  (k' = k /\ v' = f (get_or d k dflt)) \/ (k' <> k /\ In (k', v') d).
Proof.
  intros Hnd.
  assert (Hnd' := NoDup_keys_update d k dflt f Hnd).
  split.
  - intros Hin. apply In_get in Hin; [|exact Hnd']. rewrite get_update in Hin.
    destruct (String.eqb_spec k' k) as [->|Hk].
    + left. split; congruence.
    + right. split; [assumption | now apply get_In].
  - intros [[-> ->] | [Hk Hin]]; apply get_In; rewrite get_update.
    + now rewrite String.eqb_refl.
    + destruct (String.eqb_spec k' k); [congruence|]. now apply In_get.
Qed.

End DictFacts.

(* ================================================================== *)
(** ** What the first loop of [aggregate_results] collects *)
(* ================================================================== *)

Import DictFacts.

(** A score with its model and metric. *)
Definition entry : Type := string * string * float.

Definition e_model (t : entry) : string := fst (fst t).
Definition e_metric (t : entry) : string := snd (fst t).
Definition e_score (t : entry) : float := snd t.

(** The primary scores of a collection, in the order the loop meets
    them. *)
Definition entries_of (evaluations : list ChunkEvaluation) : list entry :=
  flat_map (fun e => map (fun s => (model_name e, metric_name s, score s))
                         (scores e))
           evaluations.

Definition add_entry (acc : Dict.t (Dict.t (list float))) (t : entry)
    : Dict.t (Dict.t (list float)) :=
  append_score acc (e_model t) (e_metric t) (e_score t).

Lemma collect_scores_entries evaluations :
  collect_scores evaluations = fold_left add_entry (entries_of evaluations) [].
Proof.
  unfold collect_scores, entries_of.
  generalize (@nil (string * Dict.t (list float))) as acc.
  induction evaluations as [|e evs IH]; intros acc; [reflexivity|].
  cbn [fold_left flat_map]. rewrite fold_left_app, IH. f_equal.
  generalize acc. induction (scores e) as [|s ss IHs]; intros acc0;
    [reflexivity|].
  cbn [map fold_left]. apply IHs.
Qed.

(** The scores of model [m] on metric [k], and all scores of model [m]. *)
Definition scores_for (es : list entry) (m k : string) : list float :=
  map e_score
    (filter (fun t => String.eqb (e_model t) m && String.eqb (e_metric t) k) es).

Definition model_scores (es : list entry) (m : string) : list float :=
  map e_score (filter (fun t => String.eqb (e_model t) m) es).

Lemma scores_for_app es es' m k :
  scores_for (es ++ es') m k = scores_for es m k ++ scores_for es' m k.
Proof. unfold scores_for. now rewrite filter_app, map_app. Qed.

Lemma model_scores_app es es' m :
  model_scores (es ++ es') m = model_scores es m ++ model_scores es' m.
Proof. unfold model_scores. now rewrite filter_app, map_app. Qed.

Lemma scores_for_absent es m k :
  ~ In (m, k) (map fst es) -> scores_for es m k = [].
Proof.
  unfold scores_for. induction es as [|[[m0 k0] x] es IH]; cbn; [reflexivity|].
  intros H. unfold e_model, e_metric. cbn.
  destruct (String.eqb_spec m0 m) as [->|]; cbn.
  - destruct (String.eqb_spec k0 k) as [->|]; [tauto|]. apply IH. tauto.
  - apply IH. tauto.
Qed.

Lemma model_scores_absent es m :
  ~ In m (map e_model es) -> model_scores es m = [].
Proof.
  unfold model_scores. induction es as [|[[m0 k0] x] es IH]; cbn;
    [reflexivity|].
  intros H. unfold e_model at 1. cbn.
  destruct (String.eqb_spec m0 m) as [->|]; [tauto|]. apply IH. tauto.
Qed.

Lemma scores_for_one m' k' x m k :
  scores_for [(m', k', x)] m k
  = if String.eqb m' m && String.eqb k' k then [x] else [].
Proof.
  unfold scores_for, e_model, e_metric. cbn.
  now destruct (String.eqb m' m && String.eqb k' k).
Qed.

Lemma model_scores_one m' k' x m :
  model_scores [(m', k', x)] m = if String.eqb m' m then [x] else [].
Proof.
  unfold model_scores, e_model. cbn. now destruct (String.eqb m' m).
Qed.

Lemma concat_values_append (d : Dict.t (list float)) k x :
  Permutation
    (List.concat (Dict.values (Dict.update d k [] (fun l => l ++ [x]))))
    (List.concat (Dict.values d) ++ [x]).
Proof.
  unfold Dict.values. induction d as [|[k0 l0] d IH]; cbn; [reflexivity|].
  destruct (String.eqb k k0); cbn.
  - rewrite <- !app_assoc. apply Permutation_app_head, Permutation_app_comm.
  - rewrite <- app_assoc. now apply Permutation_app_head.
Qed.

(** What one model's dict holds after the entries [es]. *)
Record collected_for (es : list entry) (m : string)
    (inner : Dict.t (list float)) : Prop := {
  cf_nodup : NoDup (Dict.keys inner);
  cf_keys : forall k, In k (Dict.keys inner) <-> In (m, k) (map fst es);
  cf_scores : forall k l, In (k, l) inner -> l = scores_for es m k;
  cf_all : Permutation (all_model_scores inner) (model_scores es m)
}.

(** What [scores_by_model_metric] holds after the entries [es]. *)
Record collected (es : list entry) (D : Dict.t (Dict.t (list float)))
    : Prop := {
  c_nodup : NoDup (Dict.keys D);
  c_models : forall m, In m (Dict.keys D) <-> In m (map e_model es);
  c_inner : forall m inner, In (m, inner) D -> collected_for es m inner
}.

Lemma collected_for_absent es m :
  ~ In m (map e_model es) -> collected_for es m [].
Proof.
  intros H. constructor.
  - constructor.
  - intros k. split; [intros []|]. intros Hin. apply H.
    apply in_map_iff in Hin as ([[m0 k0] x] & [= -> ->] & Hin).
    apply in_map_iff. now exists (m, k, x).
  - intros k l [].
  - now rewrite model_scores_absent.
Qed.

Lemma collected_for_other es m inner t :
  e_model t <> m -> collected_for es m inner ->
  collected_for (es ++ [t]) m inner.
Proof.
  intros Hm [Hnd Hkeys Hsc Hall]. destruct t as [[m' k'] x].
  unfold e_model in Hm. cbn in Hm.
  assert (Hneq : String.eqb m' m = false) by now apply String.eqb_neq.
  constructor.
  - exact Hnd.
  - intros k. rewrite Hkeys, map_app, in_app_iff. cbn.
    intuition congruence.
  - intros k l Hin. rewrite scores_for_app, scores_for_one, Hneq. cbn.
    rewrite app_nil_r. now apply Hsc.
  - rewrite model_scores_app, model_scores_one, Hneq. now rewrite app_nil_r.
Qed.

Lemma collected_for_same es m inner k x :
  collected_for es m inner ->
  collected_for (es ++ [(m, k, x)]) m
    (Dict.update inner k [] (fun l => l ++ [x])).
Proof.
  intros [Hnd Hkeys Hsc Hall]. constructor.
  - now apply NoDup_keys_update.
  - intros k'. rewrite in_keys_update, Hkeys, map_app, in_app_iff. cbn.
    intuition congruence.
  - intros k' l Hin. apply in_update in Hin; [|exact Hnd].
    rewrite scores_for_app, scores_for_one, String.eqb_refl. cbn.
    destruct Hin as [[-> ->] | [Hk Hin]].
    + rewrite String.eqb_refl. cbn. f_equal. unfold get_or.
      destruct (Dict.get inner k) as [l|] eqn:E.
      * apply get_In in E. now apply Hsc.
      * apply get_None in E. symmetry. apply scores_for_absent.
        now rewrite <- Hkeys.
    + assert (String.eqb k k' = false) as ->
        by (apply String.eqb_neq; congruence).
      cbn. rewrite app_nil_r. now apply Hsc.
  - rewrite model_scores_app, model_scores_one, String.eqb_refl.
    unfold all_model_scores in *. rewrite concat_values_append.
    now apply Permutation_app_tail.
Qed.

Lemma collected_nil : collected [] [].
Proof.
  constructor; [constructor | intros m; split; intros [] | intros m inner []].
Qed.

Lemma collected_snoc es D t :
  collected es D -> collected (es ++ [t]) (add_entry D t).
Proof.
  intros [Hnd Hmodels Hinner]. destruct t as [[m k] x].
  unfold add_entry, append_score, e_model, e_metric, e_score. cbn [fst snd].
  constructor.
  - now apply NoDup_keys_update.
  - intros m'. rewrite in_keys_update, Hmodels, map_app, in_app_iff.
    cbn [map In e_model fst]. intuition congruence.
  - intros m' inner' Hin. apply in_update in Hin; [|exact Hnd].
    destruct Hin as [[-> ->] | [Hm Hin]].
    + apply collected_for_same. unfold get_or.
      destruct (Dict.get D m) as [inner|] eqn:E.
      * apply Hinner. now apply get_In.
      * apply collected_for_absent. rewrite <- Hmodels. now apply get_None.
    + apply collected_for_other; [unfold e_model; cbn; congruence|].
      now apply Hinner.
Qed.

Lemma collected_fold es : forall es0 D,
  collected es0 D -> collected (es0 ++ es) (fold_left add_entry es D).
Proof.
  induction es as [|t es IH]; intros es0 D H; cbn.
  - now rewrite app_nil_r.
  - replace (es0 ++ t :: es) with ((es0 ++ [t]) ++ es)
      by now rewrite <- app_assoc.
    apply IH. now apply collected_snoc.
Qed.

Lemma collect_scores_collected evaluations :
  collected (entries_of evaluations) (collect_scores evaluations).
Proof.
  rewrite collect_scores_entries.
  apply (@collected_fold (entries_of evaluations) [] [] collected_nil).
Qed.

(* ================================================================== *)
(** ** The statistics do not depend on the order of the scores *)
(* ================================================================== *)





(** [np.min] and [np.max] return the least and the greatest element. *)
Lemma fold_fmin_spec l : forall x,
  let r := fold_left fmin l x in
  In r (x :: l) /\ Forall (fun y => fle r y) (x :: l).
Proof.
  induction l as [|y l IH]; intros x; cbn [fold_left].
  - split; [now left | constructor; [apply fle_refl | constructor]].
  - destruct (IH (fmin x y)) as [Hin Hall]. cbn zeta in *.
    inversion Hall as [|? ? Hxy Hl]; subst. split.
    + destruct Hin as [Hin|Hin]; [|now right; right].
      rewrite <- Hin. unfold fmin. destruct (fltb y x); cbn; auto.
    + assert (Hx : fle (fmin x y) x /\ fle (fmin x y) y).
      { unfold fmin. destruct (fltb y x) eqn:E.
        - split; [now apply flt_fle | apply fle_refl].
        - split; [apply fle_refl | exact E]. }
      destruct Hx as [Hx Hy].
      constructor; [eapply fle_trans; eassumption|].
      constructor; [eapply fle_trans; eassumption | exact Hl].
Qed.

Lemma fold_fmax_spec l : forall x,
  let r := fold_left fmax l x in
  In r (x :: l) /\ Forall (fun y => fle y r) (x :: l).
Proof.
  induction l as [|y l IH]; intros x; cbn [fold_left].
  - split; [now left | constructor; [apply fle_refl | constructor]].
  - destruct (IH (fmax x y)) as [Hin Hall]. cbn zeta in *.
    inversion Hall as [|? ? Hxy Hl]; subst. split.
    + destruct Hin as [Hin|Hin]; [|now right; right].
      rewrite <- Hin. unfold fmax. destruct (fltb x y); cbn; auto.
    + assert (Hx : fle x (fmax x y) /\ fle y (fmax x y)).
      { unfold fmax. destruct (fltb x y) eqn:E.
        - split; [now apply flt_fle | apply fle_refl].
        - split; [apply fle_refl | exact E]. }
      destruct Hx as [Hx Hy].
      constructor; [eapply fle_trans; eassumption|].
      constructor; [eapply fle_trans; eassumption | exact Hl].
Qed.

Lemma np_min_spec l :
  l <> [] -> In (np_min l) l /\ Forall (fun y => fle (np_min l) y) l.
Proof. destruct l as [|x l]; [congruence|]. intros _. apply fold_fmin_spec. Qed.

Lemma np_max_spec l :
  l <> [] -> In (np_max l) l /\ Forall (fun y => fle y (np_max l)) l.
Proof. destruct l as [|x l]; [congruence|]. intros _. apply fold_fmax_spec. Qed.

Lemma np_min_perm l l' : Permutation l l' -> np_min l = np_min l'.
Proof.
  intros H. destruct l as [|x l].
  - apply Permutation_nil in H. now subst.
  - assert (Hl' : l' <> []).
    { intros ->. apply Permutation_sym, Permutation_nil in H. discriminate. }
    destruct (np_min_spec (l := x :: l)) as [Hin Hall]; [discriminate|].
    destruct (np_min_spec Hl') as [Hin' Hall'].
    rewrite Forall_forall in Hall, Hall'.
    apply fle_antisym.
    + apply Hall. eapply Permutation_in; [apply Permutation_sym|]; eassumption.
    + apply Hall'. eapply Permutation_in; eassumption.
Qed.

Lemma np_max_perm l l' : Permutation l l' -> np_max l = np_max l'.
Proof.
  intros H. destruct l as [|x l].
  - apply Permutation_nil in H. now subst.
  - assert (Hl' : l' <> []).
    { intros ->. apply Permutation_sym, Permutation_nil in H. discriminate. }
    destruct (np_max_spec (l := x :: l)) as [Hin Hall]; [discriminate|].
    destruct (np_max_spec Hl') as [Hin' Hall'].
    rewrite Forall_forall in Hall, Hall'.
    apply fle_antisym.
    + apply Hall'. eapply Permutation_in; eassumption.
    + apply Hall. eapply Permutation_in; [apply Permutation_sym|]; eassumption.
Qed.

(* ================================================================== *)
(** ** Sorting *)
(* ================================================================== *)

Section Sorting.

Variable A : Type.

(** [x] stands before [y] in a descending list. *)
Definition desc (x y : A * float) : Prop := fle (snd y) (snd x).

Lemma insert_desc_perm (x : A * float) l : Permutation (insert_desc x l) (x :: l).
Proof.
  induction l as [|y l IH]; cbn; [reflexivity|].
  destruct (fltb (snd y) (snd x)); [reflexivity|].
  rewrite IH. apply perm_swap.
Qed.

Lemma sorted_desc_perm_acc (l : list (A * float)) : forall acc,
  Permutation (fold_left (fun acc x => insert_desc x acc) l acc) (acc ++ l).
Proof.
  induction l as [|x l IH]; intros acc; cbn.
  - now rewrite app_nil_r.
  - rewrite IH, insert_desc_perm. apply Permutation_middle.
Qed.

Lemma sorted_desc_perm (l : list (A * float)) : Permutation (sorted_desc l) l.
Proof. apply (sorted_desc_perm_acc l []). Qed.

Lemma insert_desc_sorted (x : A * float) l :
  StronglySorted desc l -> StronglySorted desc (insert_desc x l).
Proof.
  induction 1 as [|y l Hl IH Hy]; cbn.
  - repeat constructor.
  - destruct (fltb (snd y) (snd x)) eqn:E.
    + constructor; [now constructor|].
      constructor; [now apply flt_fle|].
      eapply Forall_impl; [|exact Hy]. intros z Hz. unfold desc in *.
      eapply fle_trans; [exact Hz | now apply flt_fle].
    + constructor; [exact IH|].
      eapply Permutation_Forall;
        [apply Permutation_sym, insert_desc_perm|].
      constructor; [exact E | exact Hy].
Qed.

Lemma sorted_desc_sorted_acc (l : list (A * float)) : forall acc,
  StronglySorted desc acc ->
  StronglySorted desc (fold_left (fun acc x => insert_desc x acc) l acc).
Proof.
  induction l as [|x l IH]; intros acc H; cbn; [exact H|].
  apply IH. now apply insert_desc_sorted.
Qed.

Lemma sorted_desc_sorted (l : list (A * float)) :
  StronglySorted desc (sorted_desc l).
Proof. apply sorted_desc_sorted_acc. constructor. Qed.

(** A descending list is determined by its items when no two keys are
    equal. *)
Lemma sorted_unique (l1 : list (A * float)) : forall l2,
  StronglySorted desc l1 -> StronglySorted desc l2 ->
  Permutation l1 l2 -> NoDup (map snd l1) -> l1 = l2.
Proof.
  induction l1 as [|x l1 IH]; intros l2 H1 H2 Hp Hnd.
  - apply Permutation_nil in Hp. now subst.
  - destruct l2 as [|y l2].
    { apply Permutation_sym, Permutation_nil in Hp. discriminate. }
    inversion H1 as [|? ? Hs1 Hx]; subst.
    inversion H2 as [|? ? Hs2 Hy]; subst.
    inversion Hnd as [|? ? Hnin Hnd']; subst.
    assert (Hxy : x = y).
    { assert (Hin : In x (y :: l2)) by (eapply Permutation_in; [exact Hp | now left]).
      destruct Hin as [->|Hin]; [reflexivity|].
      assert (Hin' : In y (x :: l1))
        by (eapply Permutation_in; [apply Permutation_sym; exact Hp | now left]).
      destruct Hin' as [->|Hin']; [reflexivity|].
      rewrite Forall_forall in Hx, Hy.
      specialize (Hx y Hin'). specialize (Hy x Hin). unfold desc in *.
      exfalso. apply Hnin. rewrite (fle_antisym Hy Hx). now apply in_map. }
    subst y. f_equal. apply IH; auto. eapply Permutation_cons_inv; eassumption.
Qed.

End Sorting.

(* ================================================================== *)
(** ** The overall ranking *)
(* ================================================================== *)

(** All scores of model [m], over all its chunks and all metrics, in the
    order of the input. *)
Definition scores_of_model (evaluations : list ChunkEvaluation) (m : string)
    : list float :=
  map score
    (flat_map scores
       (filter (fun e => String.eqb (model_name e) m) evaluations)).

Lemma model_scores_entries evaluations m :
  model_scores (entries_of evaluations) m = scores_of_model evaluations m.
Proof.
  unfold scores_of_model, entries_of.
  induction evaluations as [|e evs IH]; [reflexivity|].
  cbn [flat_map filter]. rewrite model_scores_app, IH.
  assert (He : model_scores
                 (map (fun s => (model_name e, metric_name s, score s))
                      (scores e)) m
               = if String.eqb (model_name e) m then map score (scores e)
                 else []).
  { unfold model_scores.
    destruct (String.eqb (model_name e) m) eqn:E;
      induction (scores e) as [|s ss IHs]; try reflexivity;
      cbn [map filter]; unfold e_model at 1; cbn [fst]; rewrite E;
      cbn [map]; [now f_equal | exact IHs]. }
  rewrite He. destruct (String.eqb (model_name e) m); cbn [flat_map];
    [now rewrite map_app | reflexivity].
Qed.

Lemma model_scores_nonempty es m :
  In m (map e_model es) <-> model_scores es m <> [].
Proof.
  split.
  - intros Hin. apply in_map_iff in Hin as (t & <- & Hin).
    apply in_split in Hin as (es1 & es2 & ->).
    rewrite model_scores_app. destruct t as [[m k] x].
    change ((m, k, x) :: es2) with ([(m, k, x)] ++ es2).
    rewrite model_scores_app, model_scores_one. unfold e_model. cbn [fst].
    rewrite String.eqb_refl. intros H. apply app_eq_nil in H as [_ H].
    discriminate.
  - intros H. destruct (in_dec string_dec m (map e_model es)) as [|Hn];
      [assumption|]. now apply model_scores_absent in Hn.
Qed.





(** The ranking of section 8 of the specification: three models, two
    metrics, two chunks. *)
Definition plain_score (name : string) (q : Q) : EvaluationScore :=
  mkScore name (Fin (Q2Qc q)) [].

Definition three_models : list ChunkEvaluation :=
  [mkChunkEvaluation "1" "A"
     [plain_score "BLEU-4" (70#100); plain_score "chrF++" (74#100)] [];
   mkChunkEvaluation "1" "B"
     [plain_score "BLEU-4" (60#100); plain_score "chrF++" (70#100)] [];
   mkChunkEvaluation "1" "C"
     [plain_score "BLEU-4" (80#100); plain_score "chrF++" (80#100)] [];
   mkChunkEvaluation "2" "A"
     [plain_score "BLEU-4" (72#100); plain_score "chrF++" (72#100)] [];
   mkChunkEvaluation "2" "B"
     [plain_score "BLEU-4" (65#100); plain_score "chrF++" (65#100)] [];
   mkChunkEvaluation "2" "C"
     [plain_score "BLEU-4" (78#100); plain_score "chrF++" (82#100)] []].

(** The value of a finite float, as a fraction in lowest terms. *)
Definition fraction (x : float) : option Q :=
  match x with Fin q => Some (this q) | NegInf => None end.

Example ranking_example np_sqrt :
  map (fun p => (fst p, fraction (snd p)))
      (overall_rankings (aggregate_results np_sqrt three_models))
  = [("C", Some (4#5)%Q); ("A", Some (18#25)%Q); ("B", Some (13#20)%Q)].
Proof. vm_compute. reflexivity. Qed.

(** The overall score is the mean of the scores, not of the per-metric
    means: with BLEU-4 scores 1 and 1 and a single chrF++ score 0 it is
    2/3, not 1/2. *)
Example flattened_not_mean_of_means np_sqrt :
  map (fun p => (fst p, fraction (snd p)))
      (overall_rankings
         (aggregate_results np_sqrt
            [mkChunkEvaluation "1" "A"
               [plain_score "BLEU-4" 1; plain_score "chrF++" 0] [];
             mkChunkEvaluation "2" "A" [plain_score "BLEU-4" 1] []]))
  = [("A", Some (2#3)%Q)].
Proof. vm_compute. reflexivity. Qed.

(* ================================================================== *)
(** ** Order of the input *)
(* ================================================================== *)

(** The statistics of model [m] on metric [k] in a summary. *)
Definition stats_at (S : Summary) (m k : string) : option Stats :=
  match Dict.get (by_model S) m with
  | Some d => Dict.get d k
  | None => None
  end.

(** What a summary stores under ['best_model'] for metric [k]. *)
Definition best_model_at (S : Summary) (k : string) : option MetricEntry :=
  match Dict.get (by_metric S) k with
  | Some d => Dict.get d "best_model"
  | None => None
  end.

(** The scores of model [m] on metric [k], in the order of the input. *)
Definition metric_scores (evaluations : list ChunkEvaluation) (m k : string)
    : list float :=
  map score
    (filter (fun s => String.eqb (metric_name s) k)
       (flat_map scores
          (filter (fun e => String.eqb (model_name e) m) evaluations))).

Lemma scores_for_entries evaluations m k :
  scores_for (entries_of evaluations) m k = metric_scores evaluations m k.
Proof.
  unfold metric_scores, entries_of.
  induction evaluations as [|e evs IH]; [reflexivity|].
  cbn [flat_map filter]. rewrite scores_for_app, IH.
  assert (He : scores_for
                 (map (fun s => (model_name e, metric_name s, score s))
                      (scores e)) m k
               = if String.eqb (model_name e) m
                 then map score
                        (filter (fun s => String.eqb (metric_name s) k)
                                (scores e))
                 else []).
  { unfold scores_for.
    destruct (String.eqb (model_name e) m) eqn:E;
      induction (scores e) as [|s ss IHs]; try reflexivity;
      cbn [map filter]; unfold e_model at 1, e_metric at 1; cbn [fst snd];
      rewrite E; cbn [andb]; [|exact IHs].
    destruct (String.eqb (metric_name s) k); cbn [map];
      [now f_equal | exact IHs]. }
  rewrite He. destruct (String.eqb (model_name e) m); cbn [flat_map];
    [now rewrite filter_app, map_app | reflexivity].
Qed.

Lemma filter_perm {A} (f : A -> bool) l l' :
  Permutation l l' -> Permutation (filter f l) (filter f l').
Proof.
  induction 1 as [|x l l' _ IH|x y l|l l' l'' _ IH1 _ IH2]; cbn.
  - constructor.
  - destruct (f x); [now constructor | assumption].
  - destruct (f x), (f y); try reflexivity. apply perm_swap.
  - eapply Permutation_trans; eassumption.
Qed.

Lemma flat_map_perm {A B} (f : A -> list B) l l' :
  Permutation l l' -> Permutation (flat_map f l) (flat_map f l').
Proof.
  induction 1 as [|x l l' _ IH|x y l|l l' l'' _ IH1 _ IH2]; cbn.
  - constructor.
  - now apply Permutation_app_head.
  - rewrite !app_assoc. apply Permutation_app_tail, Permutation_app_comm.
  - eapply Permutation_trans; eassumption.
Qed.

Lemma entries_of_perm evs evs' :
  Permutation evs evs' -> Permutation (entries_of evs) (entries_of evs').
Proof. apply flat_map_perm. Qed.

Lemma scores_for_perm es es' m k :
  Permutation es es' -> Permutation (scores_for es m k) (scores_for es' m k).
Proof. intros H. unfold scores_for. now apply Permutation_map, filter_perm. Qed.

Lemma model_scores_perm es es' m :
  Permutation es es' -> Permutation (model_scores es m) (model_scores es' m).
Proof. intros H. unfold model_scores. now apply Permutation_map, filter_perm. Qed.

(** [scores_by_model_metric[m][k]], when present. *)
Definition lookup2 (D : Dict.t (Dict.t (list float))) (m k : string)
    : option (list float) :=
  match Dict.get D m with
  | Some inner => Dict.get inner k
  | None => None
  end.

Lemma in_models es m k : In (m, k) (map fst es) -> In m (map e_model es).
Proof.
  intros H. apply in_map_iff in H as ([[m' k'] x] & [= -> ->] & Hin).
  apply in_map_iff. now exists (m, k, x).
Qed.

Lemma lookup2_collected es D m k :
  collected es D ->
  (In (m, k) (map fst es) -> lookup2 D m k = Some (scores_for es m k)) /\
  (~ In (m, k) (map fst es) -> lookup2 D m k = None).
Proof.
  intros Hc. unfold lookup2. destruct (Dict.get D m) as [inner|] eqn:Em.
  - apply get_In in Em. pose proof (c_inner Hc m inner Em) as Hf.
    destruct (Dict.get inner k) as [l|] eqn:Ek.
    + apply get_In in Ek. split.
      * intros _. f_equal. now apply (cf_scores Hf).
      * intros Hn. exfalso. apply Hn. apply (cf_keys Hf).
        unfold Dict.keys. change k with (fst (k, l)). now apply in_map.
    + apply get_None in Ek. split; [|reflexivity].
      intros Hin. exfalso. apply Ek. now apply (cf_keys Hf).
  - apply get_None in Em. split; [|reflexivity].
    intros Hin. exfalso. apply Em. apply (c_models Hc).
    eapply in_models; eassumption.
Qed.

Lemma stats_at_aggregate np_sqrt evs m k :
  stats_at (aggregate_results np_sqrt evs) m k
  = option_map (stats_of np_sqrt) (lookup2 (collect_scores evs) m k).
Proof.
  unfold stats_at, lookup2. cbn [by_model aggregate_results].
  unfold by_model_of.
  rewrite (get_map (fun _ (inner : Dict.t (list float)) =>
             map (fun ks : string * list float =>
                    (fst ks, stats_of np_sqrt (snd ks))) inner)).
  destruct (Dict.get (collect_scores evs) m) as [inner|]; [|reflexivity].
  cbn [option_map].
  apply (get_map (fun _ l => stats_of np_sqrt l)).
Qed.

Lemma key_dec (x y : string * string) : {x = y} + {x <> y}.
Proof. decide equality; apply string_dec. Defined.

(** *** The ranking *)

Lemma NoDup_values {V} (d : Dict.t V) :
  NoDup (Dict.keys d) ->
  (forall k1 v1 k2 v2, In (k1, v1) d -> In (k2, v2) d -> k1 <> k2 -> v1 <> v2) ->
  NoDup (map snd d).
Proof.
  unfold Dict.keys. induction d as [|[k v] d IH]; cbn; intros Hnd Hinj.
  - constructor.
  - inversion Hnd as [|? ? Hnin Hnd']; subst. constructor.
    + intros Hin. apply in_map_iff in Hin as ([k' v'] & Hv & Hin). cbn in Hv.
      subst v'. apply (Hinj k v k' v); auto.
      intros ->. apply Hnin. change k' with (fst (k', v)). now apply in_map.
    + apply IH; [assumption|]. intros. eapply Hinj; eauto.
Qed.

(** *** The best model of a metric *)

(** The (model, metric, mean) triples the [by_metric] loop visits. *)
Definition mean_entries (D : Dict.t (Dict.t (list float))) : list entry :=
  flat_map (fun mi : string * Dict.t (list float) =>
              map (fun ks : string * list float =>
                     (fst mi, fst ks, np_mean (snd ks)))
                  (snd mi))
           D.

Definition add_mean (acc : Dict.t (Dict.t float)) (t : entry)
    : Dict.t (Dict.t float) :=
  Dict.update acc (e_metric t) []
    (fun d => Dict.set d (e_model t) (e_score t)).



(** The models of metric [k] with their means, in the order of [T]. *)
Definition items_for (T : list entry) (k : string) : Dict.t float :=
  map (fun t => (e_model t, e_score t))
      (filter (fun t => String.eqb (e_metric t) k) T).

Lemma items_for_app T T' k :
  items_for (T ++ T') k = items_for T k ++ items_for T' k.
Proof. unfold items_for. now rewrite filter_app, map_app. Qed.

Lemma items_for_one m k' a k :
  items_for [(m, k', a)] k = if String.eqb k' k then [(m, a)] else [].
Proof.
  unfold items_for, e_metric. cbn. now destruct (String.eqb k' k).
Qed.

Lemma items_for_absent T k : ~ In k (map e_metric T) -> items_for T k = [].
Proof.
  unfold items_for. induction T as [|t T IH]; cbn; [reflexivity|].
  intros H. destruct (String.eqb_spec (e_metric t) k) as [E|_]; [tauto|].
  apply IH. tauto.
Qed.

Lemma items_for_keys T k m :
  In m (Dict.keys (items_for T k)) -> In (m, k) (map fst T).
Proof.
  unfold Dict.keys, items_for. rewrite map_map. cbn [fst].
  intros H. apply in_map_iff in H as ([[m' k'] a] & Hm & Hin).
  unfold e_model in Hm. cbn in Hm. subst m'.
  apply filter_In in Hin as [Hin Hk]. unfold e_metric in Hk. cbn in Hk.
  apply String.eqb_eq in Hk. subst k'.
  apply in_map_iff. now exists (m, k, a).
Qed.

Lemma items_for_in T k m a :
  In (m, a) (items_for T k) <-> In (m, k, a) T.
Proof.
  unfold items_for. rewrite in_map_iff. split.
  - intros ([[m' k'] a'] & Ht & Hin). unfold e_model, e_score in Ht.
    cbn in Ht. injection Ht as -> ->.
    apply filter_In in Hin as [Hin Hk]. unfold e_metric in Hk. cbn in Hk.
    apply String.eqb_eq in Hk. now subst k'.
  - intros Hin. exists (m, k, a). split; [reflexivity|].
    apply filter_In. split; [assumption|]. unfold e_metric. cbn.
    apply String.eqb_refl.
Qed.

(** What [summary['by_metric']] holds after the triples [T], before the
    ['best_model'] entries are added. *)
Record grouped (T : list entry) (G : Dict.t (Dict.t float)) : Prop := {
  g_nodup : NoDup (Dict.keys G);
  g_keys : forall k, In k (Dict.keys G) <-> In k (map e_metric T);
  g_items : forall k d, In (k, d) G -> d = items_for T k
}.

Lemma grouped_nil : grouped [] [].
Proof.
  constructor; [constructor | intros k; split; intros [] | intros k d []].
Qed.

Lemma grouped_snoc T G t :
  NoDup (map fst (T ++ [t])) -> grouped T G ->
  grouped (T ++ [t]) (add_mean G t).
Proof.
  intros Hnd [Hg Hkeys Hitems]. destruct t as [[m k] a].
  unfold add_mean, e_model, e_metric, e_score. cbn [fst snd].
  constructor.
  - now apply NoDup_keys_update.
  - intros k'. rewrite in_keys_update, Hkeys, map_app, in_app_iff.
    cbn [map In e_metric fst snd]. intuition congruence.
  - intros k' d' Hin. apply in_update in Hin; [|exact Hg].
    rewrite items_for_app, items_for_one.
    destruct Hin as [[-> ->] | [Hk Hin]].
    + rewrite String.eqb_refl.
      assert (Hd : get_or G k [] = items_for T k).
      { unfold get_or. destruct (Dict.get G k) as [d|] eqn:E.
        - apply get_In in E. now apply Hitems.
        - apply get_None in E. symmetry. apply items_for_absent.
          now rewrite <- Hkeys. }
      rewrite Hd. apply set_fresh. intros Hm. apply items_for_keys in Hm.
      rewrite map_app in Hnd. cbn in Hnd.
      apply NoDup_remove_2 in Hnd. apply Hnd. now rewrite app_nil_r.
    + assert (String.eqb k k' = false) as ->
        by (apply String.eqb_neq; congruence).
      rewrite app_nil_r. now apply Hitems.
Qed.

Lemma grouped_fold T : forall T0 G,
  NoDup (map fst (T0 ++ T)) -> grouped T0 G ->
  grouped (T0 ++ T) (fold_left add_mean T G).
Proof.
  induction T as [|t T IH]; intros T0 G Hnd H; cbn.
  - now rewrite app_nil_r.
  - replace (T0 ++ t :: T) with ((T0 ++ [t]) ++ T) in *
      by now rewrite <- app_assoc.
    apply IH; [assumption|]. apply grouped_snoc; [|assumption].
    rewrite map_app in Hnd. now apply NoDup_app_remove_r in Hnd.
Qed.


Lemma mean_entries_nodup D :
  NoDup (Dict.keys D) ->
  (forall m inner, In (m, inner) D -> NoDup (Dict.keys inner)) ->
  NoDup (map fst (mean_entries D)).
Proof.
  unfold Dict.keys, mean_entries.
  induction D as [|[m inner] D IH]; cbn [flat_map map fst snd];
    intros Hnd Hinner; [constructor|].
  inversion Hnd as [|? ? Hnin Hnd']; subst.
  rewrite map_app. apply NoDup_app.
  - rewrite map_map. cbn [fst].
    assert (Hi : NoDup (map fst inner)) by (apply (Hinner m); now left).
    clear - Hi. induction inner as [|[k l] inner IH]; cbn; [constructor|].
    inversion Hi as [|? ? Hn Hi']; subst. constructor; [|now apply IH].
    intros H. apply Hn. apply in_map_iff in H as ([k' l'] & [= ->] & H).
    change k with (fst (k, l')). now apply in_map.
  - apply IH; [assumption|]. intros m' inner' H. apply (Hinner m'). now right.
  - intros [m' k'] H1 H2. rewrite map_map in H1. cbn [fst] in H1.
    apply in_map_iff in H1 as (ks & [= <- <-] & _).
    apply in_map_iff in H2 as ([[m2 k2] a2] & [= -> ->] & H2).
    apply in_flat_map in H2 as ([m3 inner3] & Hin3 & H3). cbn [fst snd] in H3.
    apply in_map_iff in H3 as (ks3 & [= -> _ _] & _).
    apply Hnin. change m with (fst (m, inner3)). now apply in_map.
Qed.

Lemma mean_entries_collected_nodup es D :
  collected es D -> NoDup (map fst (mean_entries D)).
Proof.
  intros Hc. apply mean_entries_nodup; [apply (c_nodup Hc)|].
  intros m inner H. apply (cf_nodup (c_inner Hc m inner H)).
Qed.


Lemma max_from_spec {A} (items : list (A * float)) : forall best,
  In (max_from best items) (best :: items) /\
  Forall (fun y => fle (snd y) (snd (max_from best items))) (best :: items).
Proof.
  induction items as [|x items IH]; intros best; cbn [max_from].
  - split; [now left | constructor; [apply fle_refl | constructor]].
  - set (b := if fgtb (snd x) (snd best) then x else best).
    destruct (IH b) as [Hin Hall].
    inversion Hall as [|? ? Hb Hrest]; subst.
    assert (Hbb : fle (snd best) (snd b) /\ fle (snd x) (snd b)).
    { unfold b, fgtb. destruct (fltb (snd best) (snd x)) eqn:E.
      - split; [now apply flt_fle | apply fle_refl].
      - split; [apply fle_refl | exact E]. }
    destruct Hbb as [Hbest Hx]. split.
    + destruct Hin as [Hin|Hin]; [|now right; right].
      rewrite <- Hin. unfold b. destruct (fgtb _ _); cbn; auto.
    + constructor; [eapply fle_trans; eassumption|].
      constructor; [eapply fle_trans; eassumption | exact Hrest].
Qed.

Lemma py_max_spec {A} (items : list (A * float)) x :
  py_max items = Some x ->
  In x items /\ Forall (fun y => fle (snd y) (snd x)) items.
Proof.
  destruct items as [|y items]; [discriminate|]. cbn. intros [= <-].
  apply max_from_spec.
Qed.

Lemma snd_injective {A} (l : list (A * float)) x y :
  NoDup (map snd l) -> In x l -> In y l -> snd x = snd y -> x = y.
Proof.
  induction l as [|z l IH]; cbn; [tauto|].
  intros Hnd Hx Hy E. inversion Hnd as [|? ? Hn Hnd']; subst.
  destruct Hx as [->|Hx], Hy as [->|Hy]; auto.
  - exfalso. apply Hn. rewrite E. now apply in_map.
  - exfalso. apply Hn. rewrite <- E. now apply in_map.
Qed.

Lemma py_max_perm {A} (l l' : list (A * float)) :
  Permutation l l' -> NoDup (map snd l) -> py_max l = py_max l'.
Proof.
  intros Hp Hnd. destruct (py_max l) as [x|] eqn:E, (py_max l') as [x'|] eqn:E'.
  - apply py_max_spec in E as [Hin Hall], E' as [Hin' Hall'].
    rewrite Forall_forall in Hall, Hall'. f_equal.
    apply (snd_injective l); auto.
    + eapply Permutation_in; [apply Permutation_sym|]; eassumption.
    + apply fle_antisym.
      * apply Hall'. eapply Permutation_in; eassumption.
      * apply Hall. eapply Permutation_in; [apply Permutation_sym|]; eassumption.
  - destruct l' as [|y l']; [|discriminate].
    apply Permutation_sym, Permutation_nil in Hp. subst. discriminate.
  - destruct l as [|y l]; [|discriminate].
    apply Permutation_nil in Hp. subst. discriminate.
  - reflexivity.
Qed.

Lemma get_perm {V} (d d' : Dict.t V) k :
  Permutation d d' -> NoDup (Dict.keys d) -> Dict.get d k = Dict.get d' k.
Proof.
  intros Hp Hnd.
  assert (Hnd' : NoDup (Dict.keys d'))
    by (eapply Permutation_NoDup; [apply Permutation_map; exact Hp | exact Hnd]).
  destruct (Dict.get d k) as [v|] eqn:E.
  - symmetry. apply In_get; [exact Hnd'|].
    eapply Permutation_in; [exact Hp | now apply get_In].
  - symmetry. apply get_None. apply get_None in E. intros H. apply E.
    eapply Permutation_in;
      [apply Permutation_map, Permutation_sym; exact Hp | exact H].
Qed.

Lemma get_set_same {V} (d : Dict.t V) k v : Dict.get (Dict.set d k v) k = Some v.
Proof. now rewrite set_update, get_update, String.eqb_refl. Qed.

(** The models compared for the best model: all but one that would be
    called ['best_model']. *)
Definition candidates (means : Dict.t float) : Dict.t float :=
  filter (fun kv => negb (String.eqb (fst kv) "best_model")) means.

Lemma best_model_perm (d d' : Dict.t float) :
  Permutation d d' -> NoDup (Dict.keys d) -> NoDup (map snd (candidates d)) ->
  Dict.get (with_best_model d) "best_model"
  = Dict.get (with_best_model d') "best_model".
Proof.
  intros Hp Hnd Hvals. unfold with_best_model, candidates in *.
  rewrite <- (py_max_perm (filter_perm _ Hp) Hvals).
  destruct (py_max _) as [best|].
  - now rewrite !get_set_same.
  - rewrite !(get_map (fun _ x => ModelMean x)). f_equal. now apply get_perm.
Qed.

Lemma scores_for_nonempty es m k :
  In (m, k) (map fst es) -> scores_for es m k <> [].
Proof.
  intros Hin. apply in_map_iff in Hin as ([[m' k'] x] & [= -> ->] & Hin).
  apply in_split in Hin as (es1 & es2 & ->).
  rewrite scores_for_app.
  change ((m, k, x) :: es2) with ([(m, k, x)] ++ es2).
  rewrite scores_for_app, scores_for_one, !String.eqb_refl. cbn.
  intros H. apply app_eq_nil in H as [_ H]. discriminate.
Qed.

Lemma in_keys_dec es m k :
  In (m, k) (map fst es) <-> scores_for es m k <> [].
Proof.
  split; [apply scores_for_nonempty|].
  intros H. destruct (in_dec key_dec (m, k) (map fst es)) as [|Hn];
    [assumption|]. now apply scores_for_absent in Hn.
Qed.

Lemma items_nodup T k :
  NoDup (map fst T) -> NoDup (Dict.keys (items_for T k)).
Proof.
  unfold Dict.keys, items_for. rewrite map_map. cbn [fst].
  induction T as [|[[m k'] a] T IH]; cbn [map filter]; intros Hnd;
    [constructor|].
  inversion Hnd as [|? ? Hn Hnd']; subst. unfold e_metric at 1. cbn [fst snd].
  destruct (String.eqb_spec k' k) as [->|_]; [|now apply IH].
  cbn [map]. constructor; [|now apply IH].
  intros H. apply Hn. apply in_map_iff in H as ([[m2 k2] a2] & Hm & Hin).
  unfold e_model in Hm. cbn in Hm. subst m2.
  apply filter_In in Hin as [Hin Hk]. unfold e_metric in Hk. cbn in Hk.
  apply String.eqb_eq in Hk. subst k2.
  apply in_map_iff. now exists (m, k, a2).
Qed.


(** *** The summary and the order of the evaluations *)

(** With the exact mean and deviation for numpy's, the summary is the one
    of [aggregate_results] above. *)
Lemma exact_statistics np_sqrt evs :
  Numpy.aggregate_results np_mean (np_std np_sqrt) evs
  = aggregate_results np_sqrt evs.
Proof. reflexivity. Qed.

(** The list [aggregate_results] passes to [np.mean] for the overall mean
    of model [m]: its scores, metric after metric. *)
Definition all_scores_of (evaluations : list ChunkEvaluation) (m : string)
    : list float :=
  match Dict.get (collect_scores evaluations) m with
  | Some by_metric => all_model_scores by_metric
  | None => []
  end.

(** What of a [Stats] record does not come from an addition. *)
Definition count_min_max (st : Stats) : nat * float * float :=
  (count st, min st, max st).

Lemma lookup2_scores evs m k :
  lookup2 (collect_scores evs) m k
  = match metric_scores evs m k with [] => None | l => Some l end.
Proof.
  destruct (lookup2_collected m k (collect_scores_collected evs)) as [H1 H2].
  rewrite in_keys_dec, scores_for_entries in H1, H2.
  destruct (metric_scores evs m k) as [|x l] eqn:E.
  - apply H2. intros H. now apply H.
  - apply H1. discriminate.
Qed.

Lemma metric_scores_perm evs evs' m k :
  Permutation evs evs' ->
  Permutation (metric_scores evs m k) (metric_scores evs' m k).
Proof.
  intros Hp. rewrite <- !scores_for_entries.
  now apply scores_for_perm, entries_of_perm.
Qed.

Lemma all_scores_of_perm evs m :
  Permutation (all_scores_of evs m) (scores_of_model evs m).
Proof.
  pose proof (collect_scores_collected evs) as Hc. unfold all_scores_of.
  rewrite <- model_scores_entries.
  destruct (Dict.get (collect_scores evs) m) as [inner|] eqn:E.
  - apply get_In in E. apply (cf_all (c_inner Hc m inner E)).
  - apply get_None in E. rewrite model_scores_absent; [constructor|].
    intros H. apply E. now apply (c_models Hc).
Qed.

Section NumpyFacts.

Variable numpy_mean : list float -> float.
Variable numpy_std : list float -> option float.

Let summary := Numpy.aggregate_results numpy_mean numpy_std.

Lemma numpy_stats_at evs m k :
  stats_at (summary evs) m k
  = match metric_scores evs m k with
    | [] => None
    | l => Some (Numpy.stats_of numpy_mean numpy_std l)
    end.
Proof.
  unfold summary, stats_at. cbn [by_model Numpy.aggregate_results].
  unfold Numpy.by_model_of.
  rewrite (get_map (fun _ (inner : Dict.t (list float)) =>
             map (fun ks : string * list float =>
                    (fst ks, Numpy.stats_of numpy_mean numpy_std (snd ks)))
                 inner)).
  pose proof (lookup2_scores evs m k) as Hl. unfold lookup2 in Hl.
  destruct (Dict.get (collect_scores evs) m) as [inner|].
  - cbn [option_map].
    rewrite (get_map (fun _ l => Numpy.stats_of numpy_mean numpy_std l)).
    rewrite Hl. now destruct (metric_scores evs m k).
  - cbn [option_map]. now destruct (metric_scores evs m k).
Qed.

Lemma numpy_count_min_max evs evs' m k :
  Permutation evs evs' ->
  option_map count_min_max (stats_at (summary evs) m k)
  = option_map count_min_max (stats_at (summary evs') m k).
Proof.
  intros Hp. rewrite !numpy_stats_at.
  pose proof (metric_scores_perm m k Hp) as Hl.
  destruct (metric_scores evs m k) as [|x l],
    (metric_scores evs' m k) as [|x' l'].
  - reflexivity.
  - apply Permutation_nil in Hl. discriminate.
  - apply Permutation_sym, Permutation_nil in Hl. discriminate.
  - cbn [option_map]. unfold count_min_max, Numpy.stats_of.
    cbn [count min max]. f_equal.
    rewrite (Permutation_length Hl), (np_min_perm Hl), (np_max_perm Hl).
    reflexivity.
Qed.

Lemma numpy_stats_equal evs evs' m k :
  Permutation evs evs' ->
  numpy_mean (metric_scores evs m k) = numpy_mean (metric_scores evs' m k) ->
  numpy_std (metric_scores evs m k) = numpy_std (metric_scores evs' m k) ->
  stats_at (summary evs) m k = stats_at (summary evs') m k.
Proof.
  intros Hp Hmean Hstd. rewrite !numpy_stats_at.
  pose proof (metric_scores_perm m k Hp) as Hl.
  destruct (metric_scores evs m k) as [|x l],
    (metric_scores evs' m k) as [|x' l'].
  - reflexivity.
  - apply Permutation_nil in Hl. discriminate.
  - apply Permutation_sym, Permutation_nil in Hl. discriminate.
  - unfold Numpy.stats_of. f_equal.
    rewrite Hmean, Hstd, (Permutation_length Hl), (np_min_perm Hl),
      (np_max_perm Hl). reflexivity.
Qed.

(** *** The ranking under a permutation *)

Lemma numpy_averages_keys D :
  Dict.keys (Numpy.model_averages_of numpy_mean D) = Dict.keys D.
Proof.
  unfold Numpy.model_averages_of, Dict.keys. rewrite map_map.
  now apply map_ext.
Qed.

Lemma numpy_averages_in evs m a :
  In (m, a) (Numpy.model_averages_of numpy_mean (collect_scores evs))
  <-> scores_of_model evs m <> [] /\ a = numpy_mean (all_scores_of evs m).
Proof.
  pose proof (collect_scores_collected evs) as Hc.
  destruct Hc as [Hnd Hmodels Hinner].
  unfold Numpy.model_averages_of. rewrite in_map_iff.
  rewrite <- model_scores_entries, <- model_scores_nonempty. split.
  - intros ([m' inner] & [= -> <-] & Hin). cbn [fst snd].
    assert (Hm : In m (map e_model (entries_of evs))).
    { apply Hmodels. unfold Dict.keys. change m with (fst (m, inner)).
      now apply in_map. }
    split; [exact Hm|].
    unfold all_scores_of. rewrite (In_get _ _ _ Hnd Hin).
    destruct (all_model_scores inner) eqn:E; [|reflexivity].
    exfalso. apply model_scores_nonempty in Hm. apply Hm.
    pose proof (cf_all (Hinner m inner Hin)) as Hp. rewrite E in Hp.
    now apply Permutation_nil in Hp.
  - intros [Hm ->]. pose proof Hm as Hm'. apply Hmodels in Hm'.
    unfold Dict.keys in Hm'.
    apply in_map_iff in Hm' as ([m' inner] & <- & Hin).
    exists (m', inner). split; [|assumption]. cbn [fst snd]. f_equal.
    unfold all_scores_of. rewrite (In_get _ _ _ Hnd Hin).
    destruct (all_model_scores inner) eqn:E; [|reflexivity].
    exfalso. apply model_scores_nonempty in Hm. apply Hm.
    pose proof (cf_all (Hinner m' inner Hin)) as Hp. rewrite E in Hp.
    now apply Permutation_nil in Hp.
Qed.

(** The two orders give every model the same overall mean. *)
Definition same_averages (evs evs' : list ChunkEvaluation) : Prop :=
  forall m, numpy_mean (all_scores_of evs m) = numpy_mean (all_scores_of evs' m).

(** No two models have the same overall mean. *)
Definition no_average_tie (evs : list ChunkEvaluation) : Prop :=
  forall m1 m2, m1 <> m2 ->
    scores_of_model evs m1 <> [] -> scores_of_model evs m2 <> [] ->
    numpy_mean (all_scores_of evs m1) <> numpy_mean (all_scores_of evs m2).

Lemma scores_of_model_perm evs evs' m :
  Permutation evs evs' ->
  Permutation (scores_of_model evs m) (scores_of_model evs' m).
Proof.
  intros Hp. rewrite <- !model_scores_entries.
  now apply model_scores_perm, entries_of_perm.
Qed.

Lemma perm_nonempty {A} (l l' : list A) :
  Permutation l l' -> l <> [] -> l' <> [].
Proof.
  intros Hp Hne ->. apply Hne. now apply Permutation_nil, Permutation_sym.
Qed.

Lemma numpy_averages_perm evs evs' :
  Permutation evs evs' -> same_averages evs evs' ->
  Permutation (Numpy.model_averages_of numpy_mean (collect_scores evs))
              (Numpy.model_averages_of numpy_mean (collect_scores evs')).
Proof.
  intros Hp Hsame.
  pose proof (collect_scores_collected evs) as Hc.
  pose proof (collect_scores_collected evs') as Hc'.
  apply NoDup_Permutation.
  - apply (NoDup_map_inv fst).
    fold (Dict.keys (Numpy.model_averages_of numpy_mean (collect_scores evs))).
    rewrite numpy_averages_keys. apply (c_nodup Hc).
  - apply (NoDup_map_inv fst).
    fold (Dict.keys (Numpy.model_averages_of numpy_mean (collect_scores evs'))).
    rewrite numpy_averages_keys. apply (c_nodup Hc').
  - intros [m a]. rewrite !numpy_averages_in, (Hsame m).
    pose proof (scores_of_model_perm m Hp) as Hm.
    split; intros [Hne ->]; (split; [|reflexivity]).
    + eapply perm_nonempty; eassumption.
    + eapply perm_nonempty; [apply Permutation_sym|]; eassumption.
Qed.

Lemma numpy_averages_distinct evs :
  no_average_tie evs ->
  NoDup (map snd (Numpy.model_averages_of numpy_mean (collect_scores evs))).
Proof.
  intros Htie. pose proof (collect_scores_collected evs) as Hc.
  apply NoDup_values.
  - rewrite numpy_averages_keys. apply (c_nodup Hc).
  - intros m1 a1 m2 a2 H1 H2 Hne.
    apply numpy_averages_in in H1 as [Hm1 ->].
    apply numpy_averages_in in H2 as [Hm2 ->].
    now apply Htie.
Qed.

Lemma numpy_rankings_perm evs evs' :
  Permutation evs evs' -> same_averages evs evs' ->
  Permutation (overall_rankings (summary evs))
              (overall_rankings (summary evs')).
Proof.
  intros Hp Hsame. unfold summary.
  cbn [overall_rankings Numpy.aggregate_results].
  rewrite !sorted_desc_perm. now apply numpy_averages_perm.
Qed.

Lemma numpy_rankings_equal evs evs' :
  Permutation evs evs' -> same_averages evs evs' -> no_average_tie evs ->
  overall_rankings (summary evs) = overall_rankings (summary evs').
Proof.
  intros Hp Hsame Htie. apply sorted_unique.
  - apply sorted_desc_sorted.
  - apply sorted_desc_sorted.
  - now apply numpy_rankings_perm.
  - unfold summary. cbn [overall_rankings Numpy.aggregate_results].
    eapply Permutation_NoDup;
      [apply Permutation_map, Permutation_sym, sorted_desc_perm|].
    now apply numpy_averages_distinct.
Qed.

End NumpyFacts.

(** *** The best model under a permutation *)

Section NumpyBest.

Variable numpy_mean : list float -> float.
Variable numpy_std : list float -> option float.

Let summary := Numpy.aggregate_results numpy_mean numpy_std.

(** The (model, metric, mean) triples the [by_metric] loop visits. *)
Definition numpy_mean_entries (D : Dict.t (Dict.t (list float)))
    : list entry :=
  flat_map (fun mi : string * Dict.t (list float) =>
              map (fun ks : string * list float =>
                     (fst mi, fst ks, numpy_mean (snd ks)))
                  (snd mi))
           D.

Lemma numpy_means_fold D : forall acc,
  fold_left
    (fun acc (mi : string * Dict.t (list float)) =>
       fold_left
         (fun acc (ks : string * list float) =>
            Dict.update acc (fst ks) []
              (fun d => Dict.set d (fst mi) (numpy_mean (snd ks))))
         (snd mi) acc)
    D acc
  = fold_left add_mean (numpy_mean_entries D) acc.
Proof.
  unfold numpy_mean_entries.
  induction D as [|mi D IH]; intros acc; [reflexivity|].
  cbn [fold_left flat_map]. rewrite fold_left_app, IH. f_equal.
  generalize acc. induction (snd mi) as [|ks l IHl]; intros acc0;
    [reflexivity|].
  cbn [map fold_left]. apply IHl.
Qed.

Lemma numpy_entries_keys D :
  map fst (numpy_mean_entries D) = map fst (mean_entries D).
Proof.
  unfold numpy_mean_entries, mean_entries.
  induction D as [|mi D IH]; [reflexivity|].
  cbn [flat_map]. rewrite !map_app, IH, !map_map. reflexivity.
Qed.

Lemma numpy_entries_nodup evs :
  NoDup (map fst (numpy_mean_entries (collect_scores evs))).
Proof.
  rewrite numpy_entries_keys.
  eapply mean_entries_collected_nodup. apply collect_scores_collected.
Qed.

Lemma numpy_entries_in evs m k a :
  In (m, k, a) (numpy_mean_entries (collect_scores evs)) <->
  metric_scores evs m k <> [] /\ a = numpy_mean (metric_scores evs m k).
Proof.
  pose proof (collect_scores_collected evs) as Hc.
  rewrite <- scores_for_entries, <- in_keys_dec.
  unfold numpy_mean_entries. rewrite in_flat_map. split.
  - intros ([m' inner] & Hin & Ht). cbn [fst snd] in Ht.
    apply in_map_iff in Ht as ([k' l] & [= -> -> <-] & Hl). cbn [snd].
    pose proof (c_inner Hc m inner Hin) as Hf. split.
    + apply (cf_keys Hf). unfold Dict.keys. change k with (fst (k, l)).
      now apply in_map.
    + now rewrite (cf_scores Hf k l Hl).
  - intros [Hin ->].
    pose proof (in_models _ _ _ Hin) as Hm. apply (c_models Hc) in Hm.
    unfold Dict.keys in Hm. apply in_map_iff in Hm as ([m' inner] & Hm' & Hd).
    cbn in Hm'. subst m'. pose proof (c_inner Hc m inner Hd) as Hf.
    apply (cf_keys Hf) in Hin. unfold Dict.keys in Hin.
    apply in_map_iff in Hin as ([k' l] & Hk' & Hl). cbn in Hk'. subst k'.
    exists (m, inner). split; [assumption|]. cbn [fst snd].
    apply in_map_iff. exists (k, l). cbn [fst snd].
    split; [|assumption]. do 2 f_equal. now apply (cf_scores Hf).
Qed.

Lemma numpy_means_grouped evs :
  grouped (numpy_mean_entries (collect_scores evs))
          (Numpy.metric_means_of numpy_mean (collect_scores evs)).
Proof.
  unfold Numpy.metric_means_of. rewrite numpy_means_fold.
  apply (@grouped_fold (numpy_mean_entries (collect_scores evs)) [] []);
    [|apply grouped_nil].
  cbn [app]. apply numpy_entries_nodup.
Qed.

Lemma numpy_best_at evs k :
  best_model_at (summary evs) k
  = match Dict.get (Numpy.metric_means_of numpy_mean (collect_scores evs)) k
    with
    | Some d => Dict.get (with_best_model d) "best_model"
    | None => None
    end.
Proof.
  unfold summary, best_model_at. cbn [by_metric Numpy.aggregate_results].
  unfold Numpy.by_metric_of.
  rewrite (get_map (fun _ d => with_best_model d)).
  now destruct (Dict.get _ k).
Qed.

(** The two orders give every model the same mean on metric [k]. *)
Definition same_means_on (evs evs' : list ChunkEvaluation) (k : string)
    : Prop :=
  forall m,
    numpy_mean (metric_scores evs m k) = numpy_mean (metric_scores evs' m k).

(** No two models have the same mean on metric [k]. *)
Definition no_mean_tie_on (evs : list ChunkEvaluation) (k : string) : Prop :=
  forall m1 m2, m1 <> m2 ->
    metric_scores evs m1 k <> [] -> metric_scores evs m2 k <> [] ->
    numpy_mean (metric_scores evs m1 k) <> numpy_mean (metric_scores evs m2 k).

Lemma numpy_items_in evs k m a :
  In (m, a) (items_for (numpy_mean_entries (collect_scores evs)) k) <->
  metric_scores evs m k <> [] /\ a = numpy_mean (metric_scores evs m k).
Proof. now rewrite items_for_in, numpy_entries_in. Qed.

Lemma numpy_items_nodup evs k :
  NoDup (Dict.keys (items_for (numpy_mean_entries (collect_scores evs)) k)).
Proof. apply items_nodup, numpy_entries_nodup. Qed.

Lemma numpy_items_perm evs evs' k :
  Permutation evs evs' -> same_means_on evs evs' k ->
  Permutation (items_for (numpy_mean_entries (collect_scores evs)) k)
              (items_for (numpy_mean_entries (collect_scores evs')) k).
Proof.
  intros Hp Hsame. apply NoDup_Permutation.
  - apply (NoDup_map_inv fst). apply numpy_items_nodup.
  - apply (NoDup_map_inv fst). apply numpy_items_nodup.
  - intros [m a]. rewrite !numpy_items_in, (Hsame m).
    pose proof (metric_scores_perm m k Hp) as Hm.
    split; intros [Hne ->]; (split; [|reflexivity]).
    + eapply perm_nonempty; eassumption.
    + eapply perm_nonempty; [apply Permutation_sym|]; eassumption.
Qed.

Lemma numpy_metric_known evs k :
  In k (map e_metric (numpy_mean_entries (collect_scores evs))) <->
  exists m, metric_scores evs m k <> [].
Proof.
  rewrite in_map_iff. split.
  - intros ([[m k'] a] & Hk & Hin). unfold e_metric in Hk. cbn in Hk.
    subst k'. apply numpy_entries_in in Hin as [Hne _]. now exists m.
  - intros [m Hne]. exists (m, k, numpy_mean (metric_scores evs m k)).
    split; [reflexivity|]. now apply numpy_entries_in.
Qed.

Lemma candidates_nodup (d : Dict.t float) :
  NoDup (Dict.keys d) -> NoDup (Dict.keys (candidates d)).
Proof.
  unfold candidates, Dict.keys. intros Hk.
  induction d as [|kv l IH]; cbn; [constructor|].
  inversion Hk as [|? ? Hn Hk']; subst.
  destruct (negb (String.eqb (fst kv) "best_model")); cbn; [|now apply IH].
  constructor; [|now apply IH]. intros H. apply Hn.
  apply in_map_iff in H as (y & <- & Hy). apply filter_In in Hy as [Hy _].
  now apply in_map.
Qed.

Lemma numpy_best_equal evs evs' k :
  Permutation evs evs' -> same_means_on evs evs' k -> no_mean_tie_on evs k ->
  best_model_at (summary evs) k = best_model_at (summary evs') k.
Proof.
  intros Hp Hsame Htie. rewrite !numpy_best_at.
  pose proof (numpy_means_grouped evs) as Hg.
  pose proof (numpy_means_grouped evs') as Hg'.
  set (T := numpy_mean_entries (collect_scores evs)) in *.
  set (T' := numpy_mean_entries (collect_scores evs')) in *.
  set (G := Numpy.metric_means_of numpy_mean (collect_scores evs)) in *.
  set (G' := Numpy.metric_means_of numpy_mean (collect_scores evs')) in *.
  assert (Hkeys : In k (Dict.keys G) <-> In k (Dict.keys G')).
  { rewrite (g_keys Hg), (g_keys Hg'). unfold T, T'.
    rewrite !numpy_metric_known.
    split; intros [m Hne]; exists m.
    - eapply perm_nonempty; [apply metric_scores_perm|]; eassumption.
    - eapply perm_nonempty;
        [apply metric_scores_perm, Permutation_sym|]; eassumption. }
  destruct (Dict.get G k) as [d|] eqn:E, (Dict.get G' k) as [d'|] eqn:E'.
  - apply get_In in E, E'.
    rewrite (g_items Hg k d E), (g_items Hg' k d' E').
    apply best_model_perm.
    + now apply numpy_items_perm.
    + apply numpy_items_nodup.
    + apply NoDup_values.
      * apply candidates_nodup, numpy_items_nodup.
      * intros m1 a1 m2 a2 H1 H2 Hne. unfold candidates in H1, H2.
        apply filter_In in H1 as [H1 _], H2 as [H2 _].
        apply numpy_items_in in H1 as [Hin1 ->], H2 as [Hin2 ->].
        now apply Htie.
  - exfalso. apply get_None in E'. apply E', Hkeys.
    apply get_In in E. unfold Dict.keys. change k with (fst (k, d)).
    now apply in_map.
  - exfalso. apply get_None in E. apply E, Hkeys.
    apply get_In in E'. unfold Dict.keys. change k with (fst (k, d')).
    now apply in_map.
  - reflexivity.
Qed.

End NumpyBest.

(** *** The claim and what holds of it *)

Lemma ranked_models_perm numpy_mean numpy_std evs evs' :
  Permutation evs evs' ->
  Permutation
    (map fst (overall_rankings
                (Numpy.aggregate_results numpy_mean numpy_std evs)))
    (map fst (overall_rankings
                (Numpy.aggregate_results numpy_mean numpy_std evs'))).
Proof.
  intros Hp. cbn [overall_rankings Numpy.aggregate_results].
  pose proof (collect_scores_collected evs) as Hc.
  pose proof (collect_scores_collected evs') as Hc'.
  pose proof (entries_of_perm Hp) as Hes.
  eapply perm_trans; [apply Permutation_map, sorted_desc_perm|].
  eapply perm_trans; [|apply Permutation_map, Permutation_sym, sorted_desc_perm].
  fold (Dict.keys (Numpy.model_averages_of numpy_mean (collect_scores evs))).
  fold (Dict.keys (Numpy.model_averages_of numpy_mean (collect_scores evs'))).
  rewrite !numpy_averages_keys.
  apply NoDup_Permutation; [apply (c_nodup Hc) | apply (c_nodup Hc') |].
  intros m. rewrite (c_models Hc), (c_models Hc'). split; intros H.
  - eapply Permutation_in; [apply Permutation_map; exact Hes | exact H].
  - eapply Permutation_in;
      [apply Permutation_map, Permutation_sym; exact Hes | exact H].
Qed.

(** The reading of the specification, for the mean and deviation that
    numpy computes: statistics, best models and ranking are the same for
    every order of the input. *)
Definition order_independent (numpy_mean : list float -> float)
    (numpy_std : list float -> option float) : Prop :=
  forall evs evs', Permutation evs evs' ->
    let S := Numpy.aggregate_results numpy_mean numpy_std evs in
    let S' := Numpy.aggregate_results numpy_mean numpy_std evs' in
    (forall m k, stats_at S m k = stats_at S' m k) /\
    (forall k, best_model_at S k = best_model_at S' k) /\
    overall_rankings S = overall_rankings S'.

(** The score a Python float literal stands for. *)
Definition double_score (name : string) (q : Q) : EvaluationScore :=
  mkScore name (Fin (double q)) [].

(** Two models with the same single BLEU-4 score. *)
Definition tied_models : list ChunkEvaluation :=
  [mkChunkEvaluation "1" "A" [double_score "BLEU-4" (1#2)] [];
   mkChunkEvaluation "1" "B" [double_score "BLEU-4" (1#2)] []].

(** Model A scores 0.1, 0.2 and 0.3 on three chunks, model B 0.2 on the
    first; and the same evaluations with those of A in reverse order. *)
Definition tenths : list ChunkEvaluation :=
  [mkChunkEvaluation "1" "A" [double_score "BLEU-4" (1#10)] [];
   mkChunkEvaluation "2" "A" [double_score "BLEU-4" (2#10)] [];
   mkChunkEvaluation "3" "A" [double_score "BLEU-4" (3#10)] [];
   mkChunkEvaluation "1" "B" [double_score "BLEU-4" (2#10)] []].

Definition tenths_reordered : list ChunkEvaluation :=
  [mkChunkEvaluation "3" "A" [double_score "BLEU-4" (3#10)] [];
   mkChunkEvaluation "2" "A" [double_score "BLEU-4" (2#10)] [];
   mkChunkEvaluation "1" "A" [double_score "BLEU-4" (1#10)] [];
   mkChunkEvaluation "1" "B" [double_score "BLEU-4" (2#10)] []].

Definition best_name (e : option MetricEntry) : option string :=
  match e with Some (BestModel name _) => Some name | _ => None end.

(** The mean of a model on a metric, as a fraction. *)
Definition mean_at (S : Summary) (m k : string) : option Q :=
  match stats_at S m k with
  | Some st => fraction (mean st)
  | None => None
  end.

Definition double_summary : list ChunkEvaluation -> Summary :=
  Numpy.aggregate_results double_mean double_std.

(** C3, as stated, fails, for two reasons.  When two models tie, the one
    met first in the input comes first in [overall_rankings] and is the
    best model of the metric, whatever [np.mean] computes, so swapping the
    two evaluations swaps them.  And the mean itself depends on the order:
    in double precision the mean of 0.1, 0.2, 0.3 is 0.20000000000000004
    and that of 0.3, 0.2, 0.1 is 0.19999999999999998, which puts model A
    before or after a model at 0.2 and makes it the best model or not. *)
Lemma order_dependence_counterexample :
  (forall numpy_mean numpy_std,
     let S := Numpy.aggregate_results numpy_mean numpy_std tied_models in
     let S' :=
       Numpy.aggregate_results numpy_mean numpy_std (rev tied_models) in
     Permutation tied_models (rev tied_models) /\
     map fst (overall_rankings S) = ["A"; "B"] /\
     map fst (overall_rankings S') = ["B"; "A"] /\
     best_name (best_model_at S "BLEU-4") = Some "A" /\
     best_name (best_model_at S' "BLEU-4") = Some "B" /\
     ~ order_independent numpy_mean numpy_std) /\
  (Permutation tenths tenths_reordered /\
   mean_at (double_summary tenths) "A" "BLEU-4"
   = Some (7205759403792795 # 36028797018963968)%Q /\
   mean_at (double_summary tenths_reordered) "A" "BLEU-4"
   = Some (7205759403792793 # 36028797018963968)%Q /\
   mean_at (double_summary tenths) "B" "BLEU-4"
   = Some (3602879701896397 # 18014398509481984)%Q /\
   map fst (overall_rankings (double_summary tenths)) = ["A"; "B"] /\
   map fst (overall_rankings (double_summary tenths_reordered)) = ["B"; "A"] /\
   best_name (best_model_at (double_summary tenths) "BLEU-4") = Some "A" /\
   best_name (best_model_at (double_summary tenths_reordered) "BLEU-4")
   = Some "B").
Proof.
  split.
  - intros numpy_mean numpy_std S S'.
    assert (Hr : map fst (overall_rankings S) = ["A"; "B"]).
    { unfold S. cbn. now rewrite fltb_irrefl. }
    assert (Hr' : map fst (overall_rankings S') = ["B"; "A"]).
    { unfold S'. cbn. now rewrite fltb_irrefl. }
    split; [apply Permutation_rev|]. split; [exact Hr|]. split; [exact Hr'|].
    split; [|split].
    + unfold S. cbn. unfold fgtb. now rewrite fltb_irrefl.
    + unfold S'. cbn. unfold fgtb. now rewrite fltb_irrefl.
    + intros H.
      destruct (H tied_models (rev tied_models) (Permutation_rev tied_models))
        as (_ & _ & E).
      apply (f_equal (map fst)) in E. fold S S' in E. rewrite Hr, Hr' in E.
      discriminate E.
  - split.
    { change tenths_reordered
        with (rev (firstn 3 tenths) ++ skipn 3 tenths).
      rewrite <- (firstn_skipn 3 tenths) at 1.
      apply Permutation_app_tail, Permutation_rev. }
    repeat split; vm_compute; reflexivity.
Qed.

(** C3, amended.  For every permutation of the evaluations the summary has
    statistics for the same models and metrics, with the same count, min
    and max, and ranks the same models.  The mean and the deviation are
    what numpy computes on the scores in the order of the input: where
    they come out the same for both orders, the statistics of a model and
    metric are identical; the ranking holds the same (model, score) pairs
    when the overall means come out the same, and is the same list when
    moreover no two models have the same overall mean; and the best model of
    a metric is the same when the means on that metric come out the same
    and no two models have the same mean on it. *)
Theorem order_independence_up_to_rounding numpy_mean numpy_std evs evs' :
  Permutation evs evs' ->
  let S := Numpy.aggregate_results numpy_mean numpy_std evs in
  let S' := Numpy.aggregate_results numpy_mean numpy_std evs' in
  (forall m k,
     option_map count_min_max (stats_at S m k)
     = option_map count_min_max (stats_at S' m k)) /\
  Permutation (map fst (overall_rankings S)) (map fst (overall_rankings S')) /\
  (forall m k,
     numpy_mean (metric_scores evs m k) = numpy_mean (metric_scores evs' m k) ->
     numpy_std (metric_scores evs m k) = numpy_std (metric_scores evs' m k) ->
     stats_at S m k = stats_at S' m k) /\
  (same_averages numpy_mean evs evs' ->
   Permutation (overall_rankings S) (overall_rankings S') /\
   (no_average_tie numpy_mean evs ->
    overall_rankings S = overall_rankings S')) /\
  (forall k,
     same_means_on numpy_mean evs evs' k -> no_mean_tie_on numpy_mean evs k ->
     best_model_at S k = best_model_at S' k).
Proof.
  intros Hp S S'. split; [|split; [|split; [|split]]].
  - intros m k. now apply numpy_count_min_max.
  - now apply ranked_models_perm.
  - intros m k Hmean Hstd. now apply numpy_stats_equal.
  - intros Hsame. split.
    + now apply numpy_rankings_perm.
    + intros Htie. now apply numpy_rankings_equal.
  - intros k Hsame Htie. now apply numpy_best_equal.
Qed.

(** Two models, two chunks, one metric. *)
Definition two_chunks : list ChunkEvaluation :=
  [mkChunkEvaluation "1" "A" [double_score "BLEU-4" (70#100)] [];
   mkChunkEvaluation "1" "B" [double_score "BLEU-4" (60#100)] [];
   mkChunkEvaluation "2" "A" [double_score "BLEU-4" (72#100)] [];
   mkChunkEvaluation "2" "B" [double_score "BLEU-4" (65#100)] []].

Lemma metric_scores_lookup evs m k :
  metric_scores evs m k
  = match lookup2 (collect_scores evs) m k with Some l => l | None => [] end.
Proof. rewrite lookup2_scores. now destruct (metric_scores evs m k). Qed.

Lemma scores_of_model_known evs m :
  scores_of_model evs m <> [] -> In m (Dict.keys (collect_scores evs)).
Proof.
  intros H. apply (c_models (collect_scores_collected evs)).
  apply model_scores_nonempty. now rewrite model_scores_entries.
Qed.

Lemma metric_scores_known evs m k :
  metric_scores evs m k <> [] -> In m (Dict.keys (collect_scores evs)).
Proof.
  intros H. apply (c_models (collect_scores_collected evs)).
  rewrite <- scores_for_entries, <- in_keys_dec in H.
  eapply in_models; eassumption.
Qed.

Lemma two_chunks_same_averages :
  same_averages double_mean two_chunks (rev two_chunks).
Proof.
  intros m. unfold all_scores_of.
  destruct (String.eqb_spec m "A") as [->|HA]; [vm_compute; reflexivity|].
  destruct (String.eqb_spec m "B") as [->|HB]; [vm_compute; reflexivity|].
  assert (Hn : forall evs, Dict.keys (collect_scores evs) = ["A"; "B"] \/
                           Dict.keys (collect_scores evs) = ["B"; "A"] ->
                 Dict.get (collect_scores evs) m = None).
  { intros evs H. apply get_None. destruct H as [-> | ->]; cbn; intuition. }
  rewrite !Hn; [reflexivity | right | left]; vm_compute; reflexivity.
Qed.

Lemma two_chunks_same_means :
  same_means_on double_mean two_chunks (rev two_chunks) "BLEU-4".
Proof.
  intros m. rewrite !metric_scores_lookup. unfold lookup2.
  destruct (String.eqb_spec m "A") as [->|HA]; [vm_compute; reflexivity|].
  destruct (String.eqb_spec m "B") as [->|HB]; [vm_compute; reflexivity|].
  assert (Hn : forall evs, Dict.keys (collect_scores evs) = ["A"; "B"] \/
                           Dict.keys (collect_scores evs) = ["B"; "A"] ->
                 Dict.get (collect_scores evs) m = None).
  { intros evs H. apply get_None. destruct H as [-> | ->]; cbn; intuition. }
  rewrite !Hn; [reflexivity | right | left]; vm_compute; reflexivity.
Qed.

Lemma order_independence_up_to_rounding_witness :
  Permutation two_chunks (rev two_chunks) /\
  same_averages double_mean two_chunks (rev two_chunks) /\
  no_average_tie double_mean two_chunks /\
  same_means_on double_mean two_chunks (rev two_chunks) "BLEU-4" /\
  no_mean_tie_on double_mean two_chunks "BLEU-4" /\
  stats_at (double_summary two_chunks) "A" "BLEU-4"
  = stats_at (double_summary (rev two_chunks)) "A" "BLEU-4" /\
  overall_rankings (double_summary two_chunks)
  = overall_rankings (double_summary (rev two_chunks)) /\
  best_model_at (double_summary two_chunks) "BLEU-4"
  = best_model_at (double_summary (rev two_chunks)) "BLEU-4".
Proof.
  assert (Hp : Permutation two_chunks (rev two_chunks))
    by apply Permutation_rev.
  assert (Htie : no_average_tie double_mean two_chunks).
  { intros m1 m2 Hne H1 H2.
    apply scores_of_model_known in H1. apply scores_of_model_known in H2.
    vm_compute in H1. vm_compute in H2.
    destruct H1 as [E1|[E1|[]]]; destruct H2 as [E2|[E2|[]]]; subst m1 m2;
      first [now destruct Hne | vm_compute; discriminate]. }
  assert (Hmtie : no_mean_tie_on double_mean two_chunks "BLEU-4").
  { intros m1 m2 Hne H1 H2.
    apply metric_scores_known in H1. apply metric_scores_known in H2.
    vm_compute in H1. vm_compute in H2.
    destruct H1 as [E1|[E1|[]]]; destruct H2 as [E2|[E2|[]]]; subst m1 m2;
      first [now destruct Hne | vm_compute; discriminate]. }
  destruct (@order_independence_up_to_rounding double_mean double_std
              two_chunks (rev two_chunks) Hp)
    as (_ & _ & Hstats & Hrank & Hbest).
  split; [exact Hp|].
  split; [exact two_chunks_same_averages|].
  split; [exact Htie|].
  split; [exact two_chunks_same_means|].
  split; [exact Hmtie|].
  split; [|split].
  - apply Hstats; vm_compute; reflexivity.
  - exact (proj2 (Hrank two_chunks_same_averages) Htie).
  - exact (Hbest "BLEU-4" two_chunks_same_means Hmtie).
Defined.

(** A rational stand-in for the square root: four Newton steps. *)
Definition newton_sqrt (q : Qc) : Qc :=
  let step (x : Qc) : Qc := ((x + q / x) / Q2Qc 2)%Qc in
  step (step (step (step (Q2Qc 1)))).

(** ** One reference under the max-over-references policy

    With a single reference the loop keeps that reference's score: the
    max-over-references wrappers return what one call of the library
    returns, as the native multi-reference wrappers do. *)

Lemma rouge_single_reference self h r scorer res :
  h_rouge (metric_handlers self) = Some scorer ->
  scorer r h = inr res ->
  evaluate_rouge self h [r]
  = inr [mkScore "ROUGE-L" (Fin (rouge_fmeasure res))
           [("precision", DFloat (Fin (rouge_precision res)));
            ("recall", DFloat (Fin (rouge_recall res)));
            ("best_reference", DInt 1);
            ("num_references", DInt 1);
            ("aggregation", DStr "max")]].
Proof.
  intros Hh Hres. unfold evaluate_rouge. rewrite Hh.
  cbn [for_enumerate]. unfold rouge_body. rewrite Hres. reflexivity.
Qed.

Lemma bleurt_single_reference self h r scorer q :
  h_bleurt (metric_handlers self) = Some scorer ->
  scorer r h = inr q ->
  evaluate_bleurt self h [r]
  = inr [mkScore "BLEURT" (Fin q)
           [("best_reference", DInt 1);
            ("num_references", DInt 1);
            ("aggregation", DStr "max")]].
Proof.
  intros Hh Hq. unfold evaluate_bleurt. rewrite Hh.
  cbn [for_enumerate]. unfold max_body. rewrite Hq. reflexivity.
Qed.

(* ================================================================== *)
(** * Further properties of the evaluator *)
(* ================================================================== *)

(** ** Shape of the result of [evaluate_single] *)

(** The metric names in the order [evaluate_single] calls the wrappers. *)
Definition metric_order : list string :=
  ["BLEU-4"; "chrF++"; "METEOR"; "ROUGE-L"; "BERTScore"; "BLEURT"; "COMET"].

(** [l] is [l'] with some items left out. *)
Inductive subseq {A} : list A -> list A -> Prop :=
  | subseq_nil : subseq [] []
  | subseq_skip x l l' : subseq l l' -> subseq l (x :: l')
  | subseq_keep x l l' : subseq l l' -> subseq (x :: l) (x :: l').

Lemma subseq_nil_l {A} (l : list A) : subseq [] l.
Proof. induction l; constructor; assumption. Qed.

Lemma subseq_In {A} (l l' : list A) x : subseq l l' -> In x l -> In x l'.
Proof.
  induction 1 as [|y l l' _ IH|y l l' _ IH]; cbn; [tauto | auto |].
  intros [->|H]; auto.
Qed.

Lemma subseq_NoDup {A} (l l' : list A) : subseq l l' -> NoDup l' -> NoDup l.
Proof.
  induction 1 as [|y l l' Hs IH|y l l' Hs IH]; intros Hnd.
  - constructor.
  - inversion Hnd; auto.
  - inversion Hnd as [|? ? Hn Hnd']; subst. constructor; [|auto].
    intros H. apply Hn. eapply subseq_In; eassumption.
Qed.

(** A wrapper returns no score or one score, under its own name. *)
Definition at_most_one (n : string) (l : list EvaluationScore) : Prop :=
  l = [] \/ exists s, l = [s] /\ metric_name s = n.

Section SingleShape.

Variable libs : Libs.
Variable self : Evaluator.

Ltac one_score :=
  first [left; reflexivity | right; eexists; split; reflexivity].

Lemma bleu_at_most_one h refs :
  at_most_one "BLEU-4" (yield (evaluate_bleu self h refs)).
Proof.
  unfold evaluate_bleu. destruct (h_bleu _) as [f|]; cbn; [|one_score].
  destruct (f h refs); cbn; one_score.
Qed.

Lemma chrf_at_most_one h refs :
  at_most_one "chrF++" (yield (evaluate_chrf self h refs)).
Proof.
  unfold evaluate_chrf. destruct (h_chrf _) as [f|]; cbn; [|one_score].
  destruct (f h refs); cbn; one_score.
Qed.

Lemma meteor_at_most_one h refs :
  at_most_one "METEOR" (yield (evaluate_meteor libs self h refs)).
Proof.
  unfold evaluate_meteor. destruct (h_meteor _) as [f|]; cbn; [|one_score].
  destruct (word_tokenize libs _); cbn; [one_score|].
  destruct (map_py _ _); cbn; [one_score|].
  destruct (f _ _); cbn; one_score.
Qed.

Lemma rouge_at_most_one h refs :
  at_most_one "ROUGE-L" (yield (evaluate_rouge self h refs)).
Proof.
  unfold evaluate_rouge. destruct (h_rouge _) as [f|]; cbn; [|one_score].
  destruct (for_enumerate _ _ _ _) as [|[[b|] i]]; cbn; one_score.
Qed.

Lemma bertscore_at_most_one h refs :
  at_most_one "BERTScore" (yield (evaluate_bertscore self h refs)).
Proof.
  unfold evaluate_bertscore. destruct (h_bertscore _) as [f|]; cbn;
    [|one_score].
  destruct (for_enumerate _ _ _ _) as [|[[b0 [[[p r] f1]|]] i]]; cbn; one_score.
Qed.

Lemma bleurt_at_most_one h refs :
  at_most_one "BLEURT" (yield (evaluate_bleurt self h refs)).
Proof.
  unfold evaluate_bleurt. destruct (h_bleurt _) as [f|]; cbn; [|one_score].
  destruct (for_enumerate _ _ _ _) as [|[best i]]; cbn; one_score.
Qed.

Lemma comet_at_most_one h refs source :
  at_most_one "COMET" (comet_scores libs self h refs source).
Proof.
  unfold comet_scores. destruct source as [src|]; [|one_score].
  destruct (truthy src); [|one_score].
  unfold evaluate_comet. destruct (h_comet _) as [f|]; cbn; [|one_score].
  destruct (mps_is_available libs) as [err|mps]; cbn; [one_score|].
  destruct (for_enumerate _ _ _ _) as [|[best i]]; cbn; one_score.
Qed.

Lemma names_prepend n l rest tail :
  at_most_one n l ->
  subseq (map metric_name rest) tail ->
  subseq (map metric_name (l ++ rest)) (n :: tail).
Proof.
  intros [->|(s & -> & <-)] Ht; cbn; constructor; assumption.
Qed.

Lemma single_scores_subseq h refs source :
  subseq (map metric_name (single_scores libs self h refs source))
         metric_order.
Proof.
  unfold single_scores, sourceless_scores, metric_order.
  rewrite <- !app_assoc.
  apply names_prepend; [apply bleu_at_most_one|].
  apply names_prepend; [apply chrf_at_most_one|].
  apply names_prepend; [apply meteor_at_most_one|].
  apply names_prepend; [apply rouge_at_most_one|].
  apply names_prepend; [apply bertscore_at_most_one|].
  apply names_prepend; [apply bleurt_at_most_one|].
  rewrite <- (app_nil_r (comet_scores libs self h refs source)).
  apply names_prepend; [apply comet_at_most_one | constructor].
Qed.

Lemma single_scores_nodup h refs source :
  NoDup (map metric_name (single_scores libs self h refs source)).
Proof.
  eapply subseq_NoDup; [apply single_scores_subseq|].
  unfold metric_order. repeat constructor; cbn; intuition discriminate.
Qed.

(** X1.  The scores [evaluate_single] returns come in the fixed order
    BLEU-4, chrF++, METEOR, ROUGE-L, BERTScore, BLEURT, COMET, some of them
    possibly missing, and no metric name occurs twice. *)
Theorem evaluate_single_order h refs source :
  exists l,
    evaluate_single libs self h refs source = inr l /\
    subseq (map metric_name l) metric_order /\
    NoDup (map metric_name l).
Proof.
  exists (single_scores libs self h refs source).
  split; [apply evaluate_single_total|].
  split; [apply single_scores_subseq | apply single_scores_nodup].
Qed.

End SingleShape.

(** ** Metrics that are not installed *)

Definition installed (self : Evaluator) (m : Metric) : bool :=
  let hs := metric_handlers self in
  match m with
  | BLEU => match h_bleu hs with Some _ => true | None => false end
  | CHRF => match h_chrf hs with Some _ => true | None => false end
  | METEOR => match h_meteor hs with Some _ => true | None => false end
  | ROUGE => match h_rouge hs with Some _ => true | None => false end
  | BERTSCORE => match h_bertscore hs with Some _ => true | None => false end
  | BLEURT => match h_bleurt hs with Some _ => true | None => false end
  | COMET => match h_comet hs with Some _ => true | None => false end
  end.

Lemma without_idem_named n m l :
  named n l -> n <> display_name m -> without m l = l.
Proof.
  intros Hn Hne. rewrite (without_named m Hn).
  now destruct (String.eqb_spec n (display_name m)).
Qed.

Lemma not_installed_yields_nothing libs self m h refs source :
  installed self m = false ->
  without m (single_scores libs self h refs source)
  = single_scores libs self h refs source.
Proof.
  intros Hm. unfold single_scores, sourceless_scores. rewrite !without_app.
  rewrite (without_named m (bleu_named self h refs)),
    (without_named m (chrf_named self h refs)),
    (without_named m (meteor_named libs self h refs)),
    (without_named m (rouge_named self h refs)),
    (without_named m (bertscore_named self h refs)),
    (without_named m (bleurt_named self h refs)),
    (without_named m (comet_scores_named libs self h refs source)).
  destruct m; cbn [display_name String.eqb Ascii.eqb Bool.eqb];
    unfold installed in Hm.
  - unfold evaluate_bleu. now destruct (h_bleu _).
  - unfold evaluate_chrf. now destruct (h_chrf _).
  - unfold evaluate_meteor. now destruct (h_meteor _).
  - unfold evaluate_rouge. now destruct (h_rouge _).
  - unfold evaluate_bertscore. now destruct (h_bertscore _).
  - unfold evaluate_bleurt. now destruct (h_bleurt _).
  - unfold comet_scores, evaluate_comet. destruct (h_comet _); [discriminate|].
    destruct source as [src|]; [|reflexivity]. now destruct (truthy src).
Qed.

(** X2.  A metric that has no entry in [metric_handlers] contributes no
    score: nothing in the result of [evaluate_single] carries its name. *)
Theorem uninstalled_metric_absent libs self m h refs source :
  installed self m = false ->
  exists l,
    evaluate_single libs self h refs source = inr l /\
    Forall (fun s => metric_name s <> display_name m) l.
Proof.
  intros Hm. exists (single_scores libs self h refs source).
  split; [apply evaluate_single_total|].
  rewrite <- (not_installed_yields_nothing libs self m h refs source Hm).
  unfold without. apply Forall_forall. intros s Hs.
  apply filter_In in Hs as [_ Hs]. apply negb_true_iff in Hs.
  now apply String.eqb_neq.
Qed.

Lemma uninstalled_metric_absent_witness :
  installed example_evaluator METEOR = false /\
  exists l,
    evaluate_single example_libs example_evaluator "The sky is blue."
      ["The sky is blue."; "Heaven is blue."] (Some "ouranos") = inr l /\
    Forall (fun s => metric_name s <> "METEOR") l.
Proof.
  split; [reflexivity|].
  apply (@uninstalled_metric_absent example_libs example_evaluator METEOR
           "The sky is blue." ["The sky is blue."; "Heaven is blue."]
           (Some "ouranos")).
  reflexivity.
Defined.

(** ** An empty reference list *)

(** X3.  With no reference at all, ROUGE-L and BERTScore report nothing
    (indexing the [None] best result raises inside the [try]), while
    BLEURT and COMET, when installed, report minus infinity with
    [best_reference] 0 without calling their library. *)
Theorem empty_references libs self h :
  evaluate_rouge self h [] = inr [] /\
  evaluate_bertscore self h [] = inr [] /\
  (forall scorer,
     h_bleurt (metric_handlers self) = Some scorer ->
     evaluate_bleurt self h []
     = inr [mkScore "BLEURT" NegInf
              [("best_reference", DInt 0); ("num_references", DInt 0);
               ("aggregation", DStr "max")]]) /\
  (forall model src mps,
     h_comet (metric_handlers self) = Some model ->
     mps_is_available libs = inr mps ->
     evaluate_comet libs self h [] src
     = inr [mkScore "COMET" NegInf
              [("best_reference", DInt 0); ("num_references", DInt 0);
               ("aggregation", DStr "max")]]).
Proof.
  repeat split.
  - unfold evaluate_rouge. now destruct (h_rouge _).
  - unfold evaluate_bertscore. now destruct (h_bertscore _).
  - intros scorer Hh. unfold evaluate_bleurt. now rewrite Hh.
  - intros model src mps Hh Hmps. unfold evaluate_comet. now rewrite Hh, Hmps.
Qed.

(** ** A library failure on one reference *)

Lemma map_py_raises {A B} (f : A -> py B) l x e :
  In x l -> f x = inl e -> exists e', map_py f l = inl e'.
Proof.
  induction l as [|y l IH]; cbn; [tauto|].
  intros [->|Hin] Hfx.
  - rewrite Hfx. now exists e.
  - destruct (f y) as [e0|v]; [now exists e0|]. cbn.
    destruct (IH Hin Hfx) as [e' ->]. now exists e'.
Qed.

Lemma loop_raises {A V St} (f : A -> py V) (step : nat -> V -> St -> St)
    (body : nat -> A -> St -> py St) l i st x e :
  (forall i x st, body i x st = (v <- f x ;; ret (step i v st))) ->
  In x l -> f x = inl e ->
  exists e', for_enumerate l i body st = inl e'.
Proof.
  intros Hbody Hin Hfx. rewrite (for_enumerate_steps f step body l i st Hbody).
  destruct (map_py_raises f l x Hin Hfx) as [e' ->]. now exists e'.
Qed.

(** X4.  The max-over-references wrappers are all or nothing: when the
    library raises on a single reference of the list, the metric reports no
    score, whatever it returned for the other references. *)
Theorem failing_reference_drops_metric libs self h refs r e :
  In r refs ->
  (forall scorer,
     h_rouge (metric_handlers self) = Some scorer ->
     scorer r h = inl e -> evaluate_rouge self h refs = inr []) /\
  (forall score_fn,
     h_bertscore (metric_handlers self) = Some score_fn ->
     score_fn h r (if use_gpu self then "cuda" else "cpu") = inl e ->
     evaluate_bertscore self h refs = inr []) /\
  (forall scorer,
     h_bleurt (metric_handlers self) = Some scorer ->
     scorer r h = inl e -> evaluate_bleurt self h refs = inr []) /\
  (forall model src mps,
     h_comet (metric_handlers self) = Some model ->
     mps_is_available libs = inr mps ->
     model src h r (if use_gpu self then 1 else 0) (if mps then 1 else 0)
     = inl e ->
     evaluate_comet libs self h refs src = inr []).
Proof.
  intros Hin. repeat split.
  - intros scorer Hh He. unfold evaluate_rouge. rewrite Hh.
    destruct (loop_raises (fun r => scorer r h) rouge_step
                (rouge_body scorer h) refs 0 (None, 0) r
                (fun i x st => rouge_body_step scorer h i x st) Hin He)
      as [e' ->].
    reflexivity.
  - intros score_fn Hh He. unfold evaluate_bertscore. rewrite Hh.
    destruct (loop_raises
                (fun r => score_fn h r (if use_gpu self then "cuda" else "cpu"))
                bert_step (bertscore_body self score_fn h) refs 0
                (Q2Qc (-1), None, 0) r
                (fun i x st => bertscore_body_step self score_fn h i x st)
                Hin He)
      as [e' ->].
    reflexivity.
  - intros scorer Hh He. unfold evaluate_bleurt. rewrite Hh.
    destruct (loop_raises (fun r => scorer r h) max_step
                (max_body (fun r => scorer r h)) refs 0 (NegInf, 0) r
                (fun i x st => max_body_step (fun r => scorer r h) i x st)
                Hin He)
      as [e' ->].
    reflexivity.
  - intros model src mps Hh Hmps He. unfold evaluate_comet. rewrite Hh, Hmps.
    cbn [bind Monad_either].
    destruct (loop_raises
                (fun r => model src h r (if use_gpu self then 1 else 0)
                            (if mps then 1 else 0))
                max_step
                (max_body (fun r => model src h r (if use_gpu self then 1 else 0)
                                      (if mps then 1 else 0)))
                refs 0 (NegInf, 0) r
                (fun i x st =>
                   max_body_step
                     (fun r => model src h r (if use_gpu self then 1 else 0)
                                 (if mps then 1 else 0)) i x st)
                Hin He)
      as [e' ->].
    reflexivity.
Qed.

(** A ROUGE library that fails on the second reference only. *)
Definition failing_on_second : Evaluator :=
  mkEvaluator
    (mkHandlers None None None
       (Some (fun r _ =>
                if String.eqb r "Heaven is blue." then inl "boom"
                else inr (mkRouge (Q2Qc 1) (Q2Qc 1) (Q2Qc 1))))
       None None None)
    false.

Lemma failing_reference_drops_metric_witness :
  In "Heaven is blue." ["The sky is blue."; "Heaven is blue."] /\
  evaluate_rouge failing_on_second "The sky is blue."
    ["The sky is blue."; "Heaven is blue."] = inr [].
Proof.
  assert (Hin : In "Heaven is blue." ["The sky is blue."; "Heaven is blue."])
    by (right; left; reflexivity).
  split; [exact Hin|].
  destruct (@failing_reference_drops_metric example_libs failing_on_second
              "The sky is blue." ["The sky is blue."; "Heaven is blue."]
              "Heaven is blue." "boom" Hin) as (Hrouge & _).
  exact (Hrouge _ eq_refl eq_refl).
Defined.

(** ** Ties between references *)

Lemma max_loop_first (f : string -> py Qc) refs vs :
  refs <> [] -> map_py f refs = inr vs ->
  exists j v, first_maximum (fun q : Qc => q) vs j v /\
    for_enumerate refs 0 (max_body f) (NegInf, 0) = inr (Fin v, S j).
Proof.
  intros Hrefs Hvs.
  rewrite (for_enumerate_steps f max_step) by (intros; apply max_body_step).
  rewrite Hvs. cbn [bind Monad_either ret].
  destruct vs as [|v vs].
  { apply map_py_length in Hvs. destruct refs; [congruence | discriminate]. }
  destruct (fm_steps_from_neg_inf (fun q : Qc => q) v vs None 0)
    as (j & y & Hfm & Hst).
  destruct (max_steps_embed (v :: vs) 0 (NegInf, 0) None) as [best' Hemb].
  cbn [fst snd] in Hemb. rewrite Hst in Hemb.
  destruct (steps max_step (v :: vs) 0 (NegInf, 0)) as [best idx].
  cbn [fst snd] in Hemb. injection Hemb as <- _ <-.
  now exists j, y.
Qed.

Lemma rouge_loop_first scorer h refs vs :
  refs <> [] -> map_py (fun r => scorer r h) refs = inr vs ->
  exists j y, first_maximum rouge_fmeasure vs j y /\
    for_enumerate refs 0 (rouge_body scorer h) (None, 0) = inr (Some y, S j).
Proof.
  intros Hrefs Hvs.
  rewrite (for_enumerate_steps (fun r => scorer r h) rouge_step)
    by (intros; apply rouge_body_step).
  rewrite Hvs. cbn [bind Monad_either ret].
  destruct vs as [|v vs].
  { apply map_py_length in Hvs. destruct refs; [congruence | discriminate]. }
  destruct (fm_steps_from_neg_inf rouge_fmeasure v vs None 0)
    as (j & y & Hfm & Hst).
  pose proof (rouge_steps_embed (v :: vs) 0 (None, 0)) as Hemb.
  change (rouge_embed (None, 0)) with (NegInf, @None RougeScore, 0) in Hemb.
  rewrite Hst in Hemb. unfold rouge_embed in Hemb.
  destruct (steps rouge_step (v :: vs) 0 (None, 0)) as [best idx].
  cbn [fst snd] in Hemb. injection Hemb as _ -> ->.
  now exists j, y.
Qed.

(** [s] reports the reference at 1-based position [S j], whose score [v]
    every earlier reference stays strictly below. *)
Definition earliest_best (per_ref : list Qc) (s : EvaluationScore) : Prop :=
  exists j v,
    nth_error per_ref j = Some v /\
    score s = Fin v /\
    Dict.get (details s) "best_reference" = Some (DInt (S j)) /\
    forall j' w, j' < j -> nth_error per_ref j' = Some w -> (w < v)%Qc.

Lemma first_maximum_earliest {X} (key : X -> Qc) xs j x :
  first_maximum key xs j x ->
  nth_error (map key xs) j = Some (key x) /\
  forall j' w, j' < j -> nth_error (map key xs) j' = Some w -> (w < key x)%Qc.
Proof.
  intros (Hnth & _ & Hfirst). split.
  - now rewrite nth_error_map, Hnth.
  - intros j' w Hj Hw. rewrite nth_error_map in Hw.
    destruct (nth_error xs j') as [y|] eqn:E; [|discriminate].
    cbn in Hw. injection Hw as <-. now apply (Hfirst j' y).
Qed.

(** X5.  When several references reach the best score, [best_reference]
    names the earliest of them: every reference before the reported one
    scores strictly less (ROUGE-L, BLEURT and COMET). *)
Theorem ties_go_to_first_reference libs self h refs :
  refs <> [] ->
  (forall scorer vs,
     h_rouge (metric_handlers self) = Some scorer ->
     map_py (fun r => scorer r h) refs = inr vs ->
     exists s, evaluate_rouge self h refs = inr [s] /\
       earliest_best (map rouge_fmeasure vs) s) /\
  (forall scorer vs,
     h_bleurt (metric_handlers self) = Some scorer ->
     map_py (fun r => scorer r h) refs = inr vs ->
     exists s, evaluate_bleurt self h refs = inr [s] /\ earliest_best vs s) /\
  (forall model src mps vs,
     h_comet (metric_handlers self) = Some model ->
     mps_is_available libs = inr mps ->
     map_py (fun r => model src h r (if use_gpu self then 1 else 0)
                        (if mps then 1 else 0)) refs = inr vs ->
     exists s, evaluate_comet libs self h refs src = inr [s] /\
       earliest_best vs s).
Proof.
  intros Hrefs. repeat split.
  - intros scorer vs Hh Hvs.
    destruct (rouge_loop_first scorer h Hrefs Hvs) as (j & y & Hfm & Hloop).
    unfold evaluate_rouge. rewrite Hh, Hloop. eexists. split; [reflexivity|].
    apply first_maximum_earliest in Hfm as [Hnth Hfirst].
    exists j, (rouge_fmeasure y). now repeat split.
  - intros scorer vs Hh Hvs.
    destruct (max_loop_first (fun r => scorer r h) Hrefs Hvs)
      as (j & v & Hfm & Hloop).
    unfold evaluate_bleurt. rewrite Hh, Hloop. eexists. split; [reflexivity|].
    apply first_maximum_earliest in Hfm as [Hnth Hfirst].
    rewrite map_id in Hnth, Hfirst. exists j, v. now repeat split.
  - intros model src mps vs Hh Hmps Hvs.
    destruct (max_loop_first _ Hrefs Hvs) as (j & v & Hfm & Hloop).
    unfold evaluate_comet. rewrite Hh, Hmps. cbn [bind Monad_either].
    rewrite Hloop. eexists. split; [reflexivity|].
    apply first_maximum_earliest in Hfm as [Hnth Hfirst].
    rewrite map_id in Hnth, Hfirst. exists j, v. now repeat split.
Qed.

Lemma ties_go_to_first_reference_witness :
  ["The sky is blue."; "Heaven is blue."] <> [] /\
  exists s,
    evaluate_bleurt example_evaluator "The sky is blue."
      ["The sky is blue."; "Heaven is blue."] = inr [s] /\
    earliest_best [Q2Qc (-1#2); Q2Qc (-1#2)] s.
Proof.
  split; [discriminate|].
  destruct (@ties_go_to_first_reference example_libs example_evaluator
              "The sky is blue." ["The sky is blue."; "Heaven is blue."])
    as (_ & Hbleurt & _); [discriminate|].
  exact (Hbleurt _ _ eq_refl eq_refl).
Defined.

(** ** The per-reference breakdown, entry by entry *)

Lemma to_uint_nonnil n : Nat.to_uint n <> Decimal.Nil.
Proof.
  rewrite <- (DecimalNat.Unsigned.of_to n) at 1.
  rewrite DecimalNat.Unsigned.to_of. apply DecimalFacts.unorm_nonnil.
Qed.

Lemma ref_id_inj i j : ref_id i = ref_id j -> i = j.
Proof.
  unfold ref_id. cbn. intros [= H].
  apply DecimalNat.Unsigned.to_uint_inj.
  assert (Hi := NilZero.usu (Nat.to_uint i) (to_uint_nonnil i)).
  assert (Hj := NilZero.usu (Nat.to_uint j) (to_uint_nonnil j)).
  rewrite H in Hi. rewrite Hi in Hj. now injection Hj.
Qed.

(** [list(enumerate(l, start))] *)
Fixpoint enumerate_from {A} (start : nat) (l : list A) : list (nat * A) :=
  match l with
  | [] => []
  | x :: l' => (start, x) :: enumerate_from (S start) l'
  end.

Lemma enumerate_from_fst {A} (l : list A) : forall i,
  map fst (enumerate_from i l) = seq i (List.length l).
Proof. induction l as [|x l IH]; intros i; cbn; [|rewrite IH]; reflexivity. Qed.

Lemma enumerate_from_nth {A} (l : list A) : forall i j x,
  nth_error l j = Some x -> In (i + j, x) (enumerate_from i l).
Proof.
  induction l as [|y l IH]; intros i [|j] x; cbn; try discriminate.
  - intros [= ->]. left. now rewrite Nat.add_0_r.
  - intros H. right. rewrite <- Nat.add_succ_comm. now apply IH.
Qed.

Section PerReference.

Variable libs : Libs.
Variable self : Evaluator.

Definition per_reference_entry (h : string) (source : option string)
    (jr : nat * string) : string * list EvaluationScore :=
  (ref_id (fst jr), single_scores libs self h [snd jr] source).

Lemma per_reference_from_spec h source refs : forall i d,
  (forall j, i <= j -> ~ In (ref_id j) (Dict.keys d)) ->
  per_reference_from libs self h source refs i d
  = d ++ map (per_reference_entry h source) (enumerate_from i refs).
Proof.
  induction refs as [|r refs IH]; intros i d Hfresh; cbn.
  - now rewrite app_nil_r.
  - rewrite set_fresh by (apply Hfresh; lia).
    rewrite IH.
    + now rewrite <- app_assoc.
    + intros j Hj. unfold Dict.keys. rewrite map_app, in_app_iff. cbn.
      intros [H|[H|[]]].
      * apply (Hfresh j); [lia | exact H].
      * apply ref_id_inj in H. lia.
Qed.

Lemma per_reference_keys h source refs :
  Dict.keys (map (per_reference_entry h source) (enumerate_from 1 refs))
  = map ref_id (seq 1 (List.length refs)).
Proof.
  unfold Dict.keys. rewrite map_map. cbn [per_reference_entry fst].
  now rewrite <- (enumerate_from_fst refs 1), map_map.
Qed.

Lemma ref_ids_nodup i n : NoDup (map ref_id (seq i n)).
Proof.
  apply Finite.Injective_map_NoDup; [|apply seq_NoDup].
  intros a b. apply ref_id_inj.
Qed.

(** X6.  [evaluate_per_reference] returns one entry per reference, keyed
    ref1, ref2, ... in the order of the list, and the entry of a reference
    holds the scores of [evaluate_single] on that reference alone. *)
Theorem per_reference_entries h refs source :
  exists d,
    evaluate_per_reference libs self h refs source = inr d /\
    Dict.keys d = map ref_id (seq 1 (List.length refs)) /\
    forall j r, nth_error refs j = Some r ->
      exists l,
        evaluate_single libs self h [r] source = inr l /\
        Dict.get d (ref_id (S j)) = Some l.
Proof.
  exists (map (per_reference_entry h source) (enumerate_from 1 refs)).
  split; [|split].
  - rewrite evaluate_per_reference_total.
    now rewrite per_reference_from_spec by (intros j _ []).
  - apply per_reference_keys.
  - intros j r Hnth. exists (single_scores libs self h [r] source).
    split; [apply evaluate_single_total|].
    apply In_get.
    + rewrite per_reference_keys. apply ref_ids_nodup.
    + change (ref_id (S j), single_scores libs self h [r] source)
        with (per_reference_entry h source (1 + j, r)).
      apply in_map. now apply enumerate_from_nth.
Qed.

End PerReference.

(** ** Dict comprehensions *)

Lemma comprehension_acc {A V} (key : A -> string) (val : A -> V) l :
  forall acc,
    NoDup (Dict.keys acc ++ map key l) ->
    fold_left (fun d x => Dict.set d (key x) (val x)) l acc
    = acc ++ map (fun x => (key x, val x)) l.
Proof.
  induction l as [|x l IH]; intros acc Hnd; cbn.
  - now rewrite app_nil_r.
  - cbn in Hnd. rewrite set_fresh.
    + rewrite IH; [now rewrite <- app_assoc|].
      unfold Dict.keys in *. rewrite map_app. cbn. rewrite <- app_assoc.
      exact Hnd.
    + apply NoDup_remove_2 in Hnd. intros H. apply Hnd. apply in_or_app.
      now left.
Qed.

Lemma comprehension_nodup {A V} (key : A -> string) (val : A -> V) l :
  NoDup (map key l) ->
  Dict.comprehension key val l = map (fun x => (key x, val x)) l.
Proof. intros H. unfold Dict.comprehension. now rewrite comprehension_acc. Qed.

(** X7.  [to_dict] loses no score of an evaluation that [evaluate_chunk]
    produced: its ['scores'] dict lists every score of the evaluation once,
    in order, under its metric name. *)
Theorem to_dict_keeps_scores libs self cid source mt refs inc evs ev :
  evaluate_chunk libs self cid source mt refs inc = inr evs ->
  In ev evs ->
  d_scores (to_dict ev)
  = map (fun s => (metric_name s, score s)) (scores ev).
Proof.
  rewrite evaluate_chunk_total. intros [= <-] Hin.
  apply in_map_iff in Hin as (item & <- & _).
  unfold to_dict. cbn [d_scores scores chunk_evaluation_of].
  apply comprehension_nodup. apply single_scores_nodup.
Qed.

Lemma to_dict_keeps_scores_witness :
  exists evs ev,
    evaluate_chunk example_libs example_evaluator "1" (Some "ouranos")
      [("X", "The sky is blue.")] ["The sky is blue."; "Heaven is blue."] true
    = inr evs /\
    In ev evs /\
    d_scores (to_dict ev) = map (fun s => (metric_name s, score s)) (scores ev).
Proof.
  eexists. eexists. split; [reflexivity|]. split; [left; reflexivity|].
  eapply (@to_dict_keeps_scores example_libs example_evaluator "1"
            (Some "ouranos") [("X", "The sky is blue.")]
            ["The sky is blue."; "Heaven is blue."] true);
    [reflexivity | left; reflexivity].
Defined.

(** ** The evaluations of a chunk *)

(** X8.  [evaluate_chunk] keeps the order of [model_translations]: the
    evaluations it returns are, in that order, those of the models whose
    text is not blank, each under the chunk id it was given. *)
Theorem evaluate_chunk_order libs self cid source mt refs inc :
  exists evs,
    evaluate_chunk libs self cid source mt refs inc = inr evs /\
    map (fun ev => (chunk_id ev, model_name ev)) evs
    = map (fun item => (cid, fst item))
          (filter (fun item => negb (whitespace_only (snd item))) mt).
Proof.
  eexists. rewrite evaluate_chunk_total. split; [reflexivity|].
  rewrite map_map. cbn [chunk_id model_name chunk_evaluation_of].
  unfold scored_items. f_equal. apply filter_ext. intros item.
  now rewrite is_blank_whitespace_only.
Qed.

Lemma per_ref_table_map (d : Dict.t (list EvaluationScore)) :
  NoDup (Dict.keys d) ->
  per_ref_table d
  = map (fun item => (fst item, Dict.comprehension metric_name score (snd item)))
        d.
Proof.
  intros Hnd. unfold per_ref_table.
  now rewrite (fold_set_fresh (Dict.comprehension metric_name score) d []).
Qed.

(** X9.  With the breakdown switched on, every evaluation of a chunk has
    one per-reference entry per reference, keyed ref1, ref2, ..., and the
    entry of a reference maps each metric name to the score
    [evaluate_single] gives the model's text against that reference alone;
    with the breakdown switched off the field is empty. *)
Theorem chunk_per_reference_entries libs self cid source mt refs inc evs ev :
  evaluate_chunk libs self cid source mt refs inc = inr evs ->
  In ev evs ->
  if inc
  then Dict.keys (per_reference_scores ev)
         = map ref_id (seq 1 (List.length refs)) /\
       exists t, In (model_name ev, t) mt /\
         forall j r, nth_error refs j = Some r ->
           exists l,
             evaluate_single libs self t [r] source = inr l /\
             Dict.get (per_reference_scores ev) (ref_id (S j))
             = Some (map (fun s => (metric_name s, score s)) l)
  else per_reference_scores ev = [].
Proof.
  rewrite evaluate_chunk_total. intros [= <-] Hin.
  apply in_map_iff in Hin as ([m t] & <- & Hitem).
  apply in_scored_items in Hitem as [Hitem _].
  destruct inc; [|reflexivity].
  cbn [per_reference_scores chunk_evaluation_of model_name fst snd].
  rewrite per_reference_from_spec by (intros j _ []). cbn [app].
  assert (Hnd : NoDup (Dict.keys (map (per_reference_entry libs self t source)
                                      (enumerate_from 1 refs))))
    by (rewrite per_reference_keys; apply ref_ids_nodup).
  rewrite (per_ref_table_map _ Hnd). split.
  - rewrite (keys_map (fun kv => Dict.comprehension metric_name score (snd kv))).
    apply per_reference_keys.
  - exists t. split; [exact Hitem|]. intros j r Hnth.
    exists (single_scores libs self t [r] source).
    split; [apply evaluate_single_total|].
    rewrite (get_map (fun _ l => Dict.comprehension metric_name score l)).
    rewrite (In_get _ (ref_id (S j)) (single_scores libs self t [r] source) Hnd).
    + cbn [option_map]. f_equal. apply comprehension_nodup.
      apply single_scores_nodup.
    + change (ref_id (S j), single_scores libs self t [r] source)
        with (per_reference_entry libs self t source (1 + j, r)).
      apply in_map. now apply enumerate_from_nth.
Qed.

Lemma chunk_per_reference_entries_witness :
  exists evs ev,
    evaluate_chunk example_libs example_evaluator "1" (Some "ouranos")
      [("X", "The sky is blue.")] ["The sky is blue."; "Heaven is blue."] true
    = inr evs /\
    In ev evs /\
    Dict.keys (per_reference_scores ev) = ["ref1"; "ref2"].
Proof.
  eexists. eexists. split; [reflexivity|]. split; [left; reflexivity|].
  exact (proj1 (@chunk_per_reference_entries example_libs example_evaluator
                  "1" (Some "ouranos") [("X", "The sky is blue.")]
                  ["The sky is blue."; "Heaven is blue."] true _ _
                  eq_refl (or_introl eq_refl))).
Defined.

(** ** All chunks *)

(** X10.  [evaluate_all] works chunk by chunk: evaluating two lists of
    chunks one after the other gives the evaluations of the first list
    followed by those of the second. *)
Theorem evaluate_all_app libs self chunks1 chunks2 translations :
  exists evs1 evs2,
    evaluate_all libs self chunks1 translations = inr evs1 /\
    evaluate_all libs self chunks2 translations = inr evs2 /\
    evaluate_all libs self (chunks1 ++ chunks2) translations
    = inr (evs1 ++ evs2).
Proof.
  do 2 eexists. rewrite !evaluate_all_total. repeat split.
  now rewrite flat_map_app.
Qed.

Lemma keys_fold_set {A V} (g : A -> V) (l : Dict.t A) : forall acc k,
  In k (Dict.keys
          (fold_left (fun d (item : string * A) =>
                        Dict.set d (fst item) (g (snd item))) l acc)) ->
  In k (Dict.keys acc) \/ In k (Dict.keys l).
Proof.
  induction l as [|[k0 a] l IH]; intros acc k; cbn [fold_left]; [now left|].
  intros H. apply IH in H as [H|H].
  - rewrite set_update in H. apply in_keys_update in H as [->|H].
    + right. now left.
    + now left.
  - right. now right.
Qed.

(** X11.  Every evaluation [evaluate_all] returns belongs to a parsed
    chunk that has an entry in [translations] and to a model listed in that
    entry; a chunk without translations contributes nothing. *)
Theorem evaluate_all_provenance libs self chunks translations :
  exists evs,
    evaluate_all libs self chunks translations = inr evs /\
    forall ev, In ev evs ->
      exists chunk models,
        In chunk chunks /\
        chunk_id ev = Parsed.chunk_id chunk /\
        Dict.get translations (Parsed.chunk_id chunk) = Some models /\
        In (model_name ev) (Dict.keys models).
Proof.
  eexists. rewrite evaluate_all_total. split; [reflexivity|].
  intros ev Hev. apply in_flat_map in Hev as (chunk & Hchunk & Hev).
  unfold chunk_evaluations in Hev.
  destruct (Dict.get translations (Parsed.chunk_id chunk)) as [models|] eqn:E;
    [|destruct Hev].
  apply in_map_iff in Hev as ([m t] & <- & Hitem).
  exists chunk, models. repeat split; try assumption.
  cbn [model_name chunk_evaluation_of fst].
  apply in_scored_items in Hitem as [Hitem _].
  assert (Hk : In m (Dict.keys (get_model_translations models))).
  { unfold Dict.keys. change m with (fst (m, t)). now apply in_map. }
  apply keys_fold_set in Hk as [[]|Hk]. exact Hk.
Qed.

(** X12.  A record whose [translation] attribute is blank, as the
    translator stores for a failed call, gets no evaluation, whatever its
    other contents or its string form. *)
Theorem failed_translation_skipped libs self chunks translations
    cid models m o t :
  Dict.get translations cid = Some models ->
  NoDup (Dict.keys models) ->
  In (m, o) models ->
  attr_translation o = Some t ->
  whitespace_only t = true ->
  exists evs,
    evaluate_all libs self chunks translations = inr evs /\
    forall ev, In ev evs -> ~ (chunk_id ev = cid /\ model_name ev = m).
Proof.
  intros Hget Hnd Hin Hattr Hblank. eexists. rewrite evaluate_all_total.
  split; [reflexivity|].
  intros ev Hev [Hcid Hm]. apply in_flat_map in Hev as (chunk & _ & Hev).
  unfold chunk_evaluations in Hev.
  destruct (Dict.get translations (Parsed.chunk_id chunk)) as [models'|] eqn:E;
    [|destruct Hev].
  apply in_map_iff in Hev as ([m' t'] & <- & Hitem).
  cbn [chunk_id model_name chunk_evaluation_of fst] in Hcid, Hm. subst m'.
  rewrite Hcid, Hget in E. injection E as <-.
  apply in_scored_items in Hitem as [Hitem Hnb].
  rewrite (get_model_translations_map models Hnd) in Hitem.
  apply in_map_iff in Hitem as ([m2 o2] & [= -> <-] & Hin2).
  assert (o2 = o) by (eapply NoDup_keys_unique; eassumption). subst o2.
  unfold translation_of in Hnb. rewrite Hattr in Hnb.
  rewrite is_blank_whitespace_only in Hnb. congruence.
Qed.

(** A record as the translator leaves it after a failed call. *)
Definition failed_record : TransObj :=
  mkTransObj (Some "") None "Translation(status='error')".

Lemma failed_translation_skipped_witness :
  exists evs,
    evaluate_all example_libs example_evaluator
      [Parsed.mk "1" "ouranos" ["The sky is blue."; "Heaven is blue."]]
      [("1", [("X", plain_record "The sky is blue."); ("Y", failed_record)])]
    = inr evs /\
    forall ev, In ev evs -> ~ (chunk_id ev = "1" /\ model_name ev = "Y").
Proof.
  apply (@failed_translation_skipped example_libs example_evaluator
           [Parsed.mk "1" "ouranos" ["The sky is blue."; "Heaven is blue."]]
           [("1", [("X", plain_record "The sky is blue."); ("Y", failed_record)])]
           "1" [("X", plain_record "The sky is blue."); ("Y", failed_record)]
           "Y" failed_record "").
  - reflexivity.
  - repeat constructor; cbn; intuition discriminate.
  - right. now left.
  - reflexivity.
  - reflexivity.
Defined.

(* ================================================================== *)
(** * Further properties of the summary *)
(* ================================================================== *)

(** ** What the statistics of a model and metric describe *)

(** X13.  The summary has statistics for a model and a metric exactly when
    the model has a score on that metric; [count] is the number of these
    scores, [mean] and [std] are what numpy computes for them in the order
    they were appended, [min] and [max] are among them and bound them
    all. *)
Theorem stats_describe_scores numpy_mean numpy_std evs m k :
  let S := Numpy.aggregate_results numpy_mean numpy_std evs in
  let l := metric_scores evs m k in
  (stats_at S m k = None <-> l = []) /\
  (forall st, stats_at S m k = Some st ->
     count st = List.length l /\
     mean st = numpy_mean l /\
     std st = numpy_std l /\
     In (min st) l /\ In (max st) l /\
     Forall (fun x => fle (min st) x /\ fle x (max st)) l).
Proof.
  intros S l. unfold S. rewrite numpy_stats_at. fold l.
  destruct l as [|x l'] eqn:El.
  - split; [tauto | discriminate].
  - split; [split; discriminate|].
    intros st [= <-]. cbn [count mean std min max Numpy.stats_of].
    assert (Hne : x :: l' <> []) by discriminate.
    destruct (np_min_spec Hne) as [Hmin Hmins].
    destruct (np_max_spec Hne) as [Hmax Hmaxs].
    repeat split; try assumption.
    apply Forall_forall. intros y Hy. rewrite Forall_forall in Hmins, Hmaxs.
    split; [now apply Hmins | now apply Hmaxs].
Qed.

(** ** The best model of a metric *)



(** ** Order of the models in the summary *)










(** ** Summaries of evaluations without a breakdown *)

Lemma collect_ref_scores_none evs :
  Forall (fun e => per_reference_scores e = []) evs ->
  collect_ref_scores evs = [].
Proof.
  unfold collect_ref_scores. intros Hall.
  assert (forall acc : Dict.t (Dict.t (Dict.t (list float))),
            fold_left
              (fun acc e =>
                 fold_left
                   (fun acc (item : string * Dict.t float) =>
                      fold_left
                        (fun acc (ms : string * float) =>
                           append_ref_score acc (model_name e) (fst ms)
                             (fst item) (snd ms))
                        (snd item) acc)
                   (per_reference_scores e) acc)
              evs acc = acc) as Hacc; [|apply Hacc].
  induction Hall as [|e evs He _ IH]; intros acc; cbn [fold_left];
    [reflexivity|].
  rewrite He. cbn [fold_left]. apply IH.
Qed.

(** X16.  Evaluations computed without the per-reference breakdown give a
    summary whose [by_reference] part is empty. *)
Theorem no_breakdown_no_by_reference np_sqrt libs self cid source mt refs evs :
  evaluate_chunk libs self cid source mt refs false = inr evs ->
  by_reference (aggregate_results np_sqrt evs) = [].
Proof.
  rewrite evaluate_chunk_total. intros [= <-].
  cbn [by_reference aggregate_results].
  rewrite collect_ref_scores_none; [reflexivity|].
  apply Forall_forall. intros ev Hev.
  apply in_map_iff in Hev as (item & <- & _). reflexivity.
Qed.

Lemma no_breakdown_no_by_reference_witness :
  exists evs,
    evaluate_chunk example_libs example_evaluator "1" (Some "ouranos")
      [("X", "The sky is blue.")] ["The sky is blue."; "Heaven is blue."] false
    = inr evs /\
    by_reference (aggregate_results newton_sqrt evs) = [].
Proof.
  eexists. split; [reflexivity|].
  apply (@no_breakdown_no_by_reference newton_sqrt example_libs
           example_evaluator "1" (Some "ouranos") [("X", "The sky is blue.")]
           ["The sky is blue."; "Heaven is blue."]).
  reflexivity.
Defined.

(** ** Building the evaluator *)

(** The key of a metric in [self.metrics] and [self.metric_handlers]. *)
Definition flag (m : Metric) : string :=
  match m with
  | BLEU => "bleu"
  | CHRF => "chrf"
  | METEOR => "meteor"
  | ROUGE => "rouge"
  | BERTSCORE => "bertscore"
  | BLEURT => "bleurt"
  | COMET => "comet"
  end.

(** The metrics [__init__] works with. *)
Definition requested (metrics : option (list string)) : list string :=
  match metrics with
  | None => default_metrics
  | Some metrics => metrics
  end.

(** How loading ended, the handler put aside. *)
Definition status {A} (l : Load A) : Load unit :=
  match l with
  | Loaded _ => Loaded tt
  | ImportError => ImportError
  | OtherError e => OtherError e
  end.

Definition load_status (site : Site) (m : Metric) : Load unit :=
  match m with
  | BLEU => status (load_bleu site)
  | CHRF => status (load_chrf site)
  | METEOR => status (load_meteor site)
  | ROUGE => status (load_rouge site)
  | BERTSCORE => status (load_bertscore site)
  | BLEURT => status (load_bleurt site)
  | COMET => status (load_comet site)
  end.

(** The metrics whose [try] block has no [except Exception] clause. *)
Definition strict (m : Metric) : bool :=
  match m with
  | BLEU | CHRF | ROUGE | BERTSCORE => true
  | METEOR | BLEURT | COMET => false
  end.

(** The handler a metric ends with when nothing leaves its block. *)
Definition selected {A} (metrics : list string) (k : string) (l : Load A)
    : option A :=
  if py_in k metrics then load_or_skip l else None.

Definition selected_comet (site : Site) (metrics : list string)
    (use_gpu : bool) :=
  if py_in "comet" metrics then
    match load_comet site with
    | Loaded model =>
        if use_gpu then
          match comet_cuda site model with
          | inr on_gpu => Some on_gpu
          | inl _ => Some model
          end
        else Some model
    | ImportError => None
    | OtherError _ => None
    end
  else None.

Lemma py_in_In x l : py_in x l = true <-> In x l.
Proof.
  unfold py_in. rewrite existsb_exists. split.
  - intros (y & Hy & E). apply String.eqb_eq in E. now subst.
  - intros H. exists x. split; [exact H | apply String.eqb_refl].
Qed.

Lemma import_inr {A} metrics k (l : Load A) o :
  (if py_in k metrics then import_or_skip l else ret None) = inr o ->
  o = selected metrics k l.
Proof.
  unfold selected. destruct (py_in k metrics); [destruct l|]; cbn; congruence.
Qed.

Lemma import_inl {A} metrics k (l : Load A) e :
  (if py_in k metrics then import_or_skip l else ret None) = inl e ->
  py_in k metrics = true /\ status l = OtherError e.
Proof.
  destruct (py_in k metrics); [destruct l|]; cbn; try discriminate.
  intros [= ->]. now split.
Qed.

Ltac next_import H :=
  let e := fresh "e" in
  let h := fresh "h" in
  lazymatch goal with
  | |- context [match ?c with inl _ => _ | inr _ => _ end] =>
      destruct c as [e|h] eqn:H
  end.

(** The handlers [_setup_metrics] leaves when it returns. *)
Lemma setup_metrics_inr site metrics g hs :
  _setup_metrics site metrics g = inr hs ->
  hs = mkHandlers
         (selected metrics "bleu" (load_bleu site))
         (selected metrics "chrf" (load_chrf site))
         (selected metrics "meteor" (load_meteor site))
         (selected metrics "rouge" (load_rouge site))
         (selected metrics "bertscore" (load_bertscore site))
         (selected metrics "bleurt" (load_bleurt site))
         (selected_comet site metrics g) /\
  no_handlers hs = false.
Proof.
  unfold _setup_metrics. cbn [bind Monad_either].
  next_import Hbleu; [discriminate|].
  next_import Hchrf; [discriminate|].
  next_import Hrouge; [discriminate|].
  next_import Hbert; [discriminate|].
  apply import_inr in Hbleu, Hchrf, Hrouge, Hbert. subst.
  fold (selected metrics "meteor" (load_meteor site)).
  fold (selected metrics "bleurt" (load_bleurt site)).
  fold (selected_comet site metrics g).
  destruct (no_handlers _) eqn:Hno; [discriminate|].
  intros [= <-]. now split.
Qed.

(** When it raises: an exception of a strict metric, or the error for an
    empty table. *)
Lemma setup_metrics_inl site metrics g e :
  _setup_metrics site metrics g = inl e ->
  (exists m, strict m = true /\ py_in (flag m) metrics = true /\
             load_status site m = OtherError e) \/
  (e = no_metrics_error /\
   no_handlers
     (mkHandlers
        (selected metrics "bleu" (load_bleu site))
        (selected metrics "chrf" (load_chrf site))
        (selected metrics "meteor" (load_meteor site))
        (selected metrics "rouge" (load_rouge site))
        (selected metrics "bertscore" (load_bertscore site))
        (selected metrics "bleurt" (load_bleurt site))
        (selected_comet site metrics g)) = true).
Proof.
  unfold _setup_metrics. cbn [bind Monad_either].
  next_import Hbleu.
  { intros [= <-]. apply import_inl in Hbleu. left. now exists BLEU. }
  next_import Hchrf.
  { intros [= <-]. apply import_inl in Hchrf. left. now exists CHRF. }
  next_import Hrouge.
  { intros [= <-]. apply import_inl in Hrouge. left. now exists ROUGE. }
  next_import Hbert.
  { intros [= <-]. apply import_inl in Hbert. left. now exists BERTSCORE. }
  apply import_inr in Hbleu, Hchrf, Hrouge, Hbert. subst.
  fold (selected metrics "meteor" (load_meteor site)).
  fold (selected metrics "bleurt" (load_bleurt site)).
  fold (selected_comet site metrics g).
  destruct (no_handlers _) eqn:Hno; [|discriminate].
  intros [= <-]. right. now split.
Qed.

Lemma selected_some {A} metrics k (l : Load A) :
  (match selected metrics k l with Some _ => true | None => false end) = true
  <-> In k metrics /\ status l = Loaded tt.
Proof.
  unfold selected. rewrite <- py_in_In.
  destruct (py_in k metrics); [destruct l|]; cbn; intuition congruence.
Qed.

Lemma selected_comet_some site metrics g :
  (match selected_comet site metrics g with Some _ => true | None => false end)
  = true
  <-> In "comet" metrics /\ status (load_comet site) = Loaded tt.
Proof.
  unfold selected_comet. rewrite <- py_in_In.
  destruct (py_in "comet" metrics); [destruct (load_comet site) as [model| |]|];
    cbn; try (intuition congruence).
  destruct g; [destruct (comet_cuda site model)|]; intuition congruence.
Qed.

Lemma installed_selected site metrics g m :
  installed
    (mkEvaluator
       (mkHandlers
          (selected metrics "bleu" (load_bleu site))
          (selected metrics "chrf" (load_chrf site))
          (selected metrics "meteor" (load_meteor site))
          (selected metrics "rouge" (load_rouge site))
          (selected metrics "bertscore" (load_bertscore site))
          (selected metrics "bleurt" (load_bleurt site))
          (selected_comet site metrics g)) g) m = true
  <-> In (flag m) metrics /\ load_status site m = Loaded tt.
Proof.
  destruct m; cbn [installed metric_handlers h_bleu h_chrf h_meteor h_rouge
                   h_bertscore h_bleurt h_comet flag load_status];
    first [apply selected_some | apply selected_comet_some].
Qed.

Lemma some_handler hs g :
  no_handlers hs = false -> exists m, installed (mkEvaluator hs g) m = true.
Proof.
  destruct hs as [b c me r be bl co]. unfold no_handlers. cbn.
  destruct b; [now exists BLEU|]. destruct c; [now exists CHRF|].
  destruct me; [now exists METEOR|]. destruct r; [now exists ROUGE|].
  destruct be; [now exists BERTSCORE|]. destruct bl; [now exists BLEURT|].
  destruct co; [now exists COMET | discriminate].
Qed.

Lemma no_handler hs g m :
  no_handlers hs = true -> installed (mkEvaluator hs g) m = false.
Proof.
  destruct hs as [b c me r be bl co]. unfold no_handlers. cbn.
  destruct b, c, me, r, be, bl, co; try discriminate.
  now destruct m.
Qed.

Lemma init_inr site metrics g self :
  __init__ site metrics g = inr self ->
  exists hs, _setup_metrics site (requested metrics) g = inr hs /\
             self = mkEvaluator hs g.
Proof.
  unfold __init__. fold (requested metrics).
  destruct (_setup_metrics site (requested metrics) g) as [e|hs];
    cbn [bind Monad_either ret]; [discriminate|].
  intros [= <-]. now exists hs.
Qed.

(** A site where SacreBLEU and COMET are installed, rouge-score is not,
    and NLTK fails while loading. *)
Definition example_site : Site :=
  mkSite
    (Loaded (fun _ _ => inr (mkBLEU (Q2Qc 50) (Q2Qc 1))))
    (Loaded (fun _ _ => inr (Q2Qc 40)))
    (OtherError "LookupError: wordnet")
    ImportError
    ImportError
    ImportError
    (Loaded (fun _ _ _ _ _ => inr (Q2Qc (3#2))))
    (fun _ => inl "RuntimeError: no CUDA device").

(** X17.  When [Evaluator(metrics, use_gpu)] is built, the metrics that
    have a handler are exactly the requested ones whose library loaded (the
    six default ones when [metrics] is [None], BLEURT not among them), and
    there is at least one. *)
Theorem init_installs_what_loads site metrics g self :
  __init__ site metrics g = inr self ->
  use_gpu self = g /\
  (exists m, installed self m = true) /\
  (forall m, installed self m = true
             <-> In (flag m) (requested metrics) /\
                 load_status site m = Loaded tt).
Proof.
  intros Hinit. apply init_inr in Hinit as (hs & Hsetup & ->).
  apply setup_metrics_inr in Hsetup as [Hhs Hno].
  split; [reflexivity|]. split; [now apply some_handler|].
  intros m. rewrite Hhs. apply installed_selected.
Qed.

Lemma init_installs_what_loads_witness :
  exists self,
    __init__ example_site None true = inr self /\
    use_gpu self = true /\
    (exists m, installed self m = true) /\
    (forall m, installed self m = true
               <-> In (flag m) (requested None) /\
                   load_status example_site m = Loaded tt).
Proof.
  eexists. split; [reflexivity|].
  apply (@init_installs_what_loads example_site None true). reflexivity.
Defined.

Lemma init_inl site metrics g e :
  __init__ site metrics g = inl e ->
  _setup_metrics site (requested metrics) g = inl e.
Proof.
  unfold __init__. fold (requested metrics).
  destruct (_setup_metrics site (requested metrics) g) as [e'|hs];
    cbn [bind Monad_either ret]; congruence.
Qed.

(** X18.  Building the evaluator fails in two ways only: an exception other
    than [ImportError] raised while loading BLEU, chrF++, ROUGE-L or
    BERTScore, which is passed on as it is, or the [RuntimeError] for an
    evaluator without metrics, raised when no requested metric has loaded.
    Whatever goes wrong while loading METEOR, BLEURT or COMET is never
    passed on. *)
Theorem init_failure_modes site metrics g e :
  __init__ site metrics g = inl e ->
  (exists m, strict m = true /\ In (flag m) (requested metrics) /\
             load_status site m = OtherError e)
  \/
  (e = no_metrics_error /\
   forall m, In (flag m) (requested metrics) ->
             load_status site m <> Loaded tt).
Proof.
  intros Hinit. apply init_inl in Hinit.
  apply setup_metrics_inl in Hinit
    as [(m & Hstrict & Hin & Hload) | [-> Hno]].
  - left. exists m. repeat split; try assumption. now apply py_in_In.
  - right. split; [reflexivity|]. intros m Hin Hload.
    pose proof (@no_handler _ g m Hno) as Hm.
    assert (installed
              (mkEvaluator
                 (mkHandlers
                    (selected (requested metrics) "bleu" (load_bleu site))
                    (selected (requested metrics) "chrf" (load_chrf site))
                    (selected (requested metrics) "meteor" (load_meteor site))
                    (selected (requested metrics) "rouge" (load_rouge site))
                    (selected (requested metrics) "bertscore"
                       (load_bertscore site))
                    (selected (requested metrics) "bleurt" (load_bleurt site))
                    (selected_comet site (requested metrics) g)) g) m = true)
      as Hyes by (apply installed_selected; now split).
    congruence.
Qed.

Lemma init_failure_modes_witness :
  __init__ example_site (Some ["meteor"; "rouge"]) false
  = inl no_metrics_error /\
  ((exists m, strict m = true /\
              In (flag m) (requested (Some ["meteor"; "rouge"])) /\
              load_status example_site m = OtherError no_metrics_error)
   \/
   (no_metrics_error = no_metrics_error /\
    forall m, In (flag m) (requested (Some ["meteor"; "rouge"])) ->
              load_status example_site m <> Loaded tt)).
Proof.
  split; [reflexivity|].
  apply (@init_failure_modes example_site (Some ["meteor"; "rouge"]) false).
  reflexivity.
Defined.

(** X19.  When none of the requested metrics loads, the strict ones for
    want of their library, the evaluator is not built: [__init__] raises
    the [RuntimeError] for an evaluator without metrics.  An empty list of
    metrics is the simplest case. *)
Theorem init_without_metrics site metrics g :
  (forall m, In (flag m) (requested metrics) ->
             load_status site m <> Loaded tt /\
             (strict m = true -> load_status site m = ImportError)) ->
  __init__ site metrics g = inl no_metrics_error.
Proof.
  intros Hnone. destruct (__init__ site metrics g) as [e|self] eqn:Hinit.
  - apply init_inl in Hinit.
    apply setup_metrics_inl in Hinit
      as [(m & Hstrict & Hin & Hload) | [-> _]]; [|reflexivity].
    apply py_in_In in Hin. destruct (Hnone m Hin) as [_ Himp].
    rewrite (Himp Hstrict) in Hload. discriminate.
  - apply init_inr in Hinit as (hs & Hsetup & ->).
    apply setup_metrics_inr in Hsetup as [Hhs Hno].
    destruct (@some_handler _ g Hno) as [m Hm].
    rewrite Hhs in Hm. apply installed_selected in Hm as [Hin Hload].
    now destruct (Hnone m Hin).
Qed.

Lemma init_without_metrics_witness :
  __init__ example_site (Some []) true = inl no_metrics_error.
Proof.
  apply (@init_without_metrics example_site (Some []) true).
  intros m [].
Defined.

(** X20.  When COMET has loaded and moving it to the GPU fails, the
    failure is swallowed and COMET stays installed with the model that was
    loaded, while [use_gpu] stays set: the wrapper goes on asking that
    model for a prediction on one GPU. *)
Theorem comet_kept_when_gpu_fails site metrics self model e :
  __init__ site metrics true = inr self ->
  In "comet" (requested metrics) ->
  load_comet site = Loaded model ->
  comet_cuda site model = inl e ->
  h_comet (metric_handlers self) = Some model /\
  use_gpu self = true /\
  forall libs h r src mps q,
    mps_is_available libs = inr mps ->
    model src h r 1 (if mps : bool then 1 else 0) = inr q ->
    evaluate_comet libs self h [r] src
    = inr [mkScore "COMET" (Fin q)
             [("best_reference", DInt 1); ("num_references", DInt 1);
              ("aggregation", DStr "max")]].
Proof.
  intros Hinit Hin Hload Hcuda.
  apply init_inr in Hinit as (hs & Hsetup & ->).
  apply setup_metrics_inr in Hsetup as [Hhs _].
  assert (Hcomet : h_comet hs = Some model).
  { rewrite Hhs. cbn [h_comet]. unfold selected_comet.
    apply py_in_In in Hin. now rewrite Hin, Hload, Hcuda. }
  split; [exact Hcomet|]. split; [reflexivity|].
  intros libs h r src mps q Hmps Hq.
  unfold evaluate_comet. cbn [metric_handlers use_gpu]. rewrite Hcomet, Hmps.
  cbn [bind Monad_either for_enumerate]. unfold max_body at 1.
  rewrite Hq. reflexivity.
Qed.

Lemma comet_kept_when_gpu_fails_witness :
  exists self model,
    __init__ example_site None true = inr self /\
    h_comet (metric_handlers self) = Some model /\
    use_gpu self = true /\
    forall libs h r src mps q,
      mps_is_available libs = inr mps ->
      model src h r 1 (if mps : bool then 1 else 0) = inr q ->
      evaluate_comet libs self h [r] src
      = inr [mkScore "COMET" (Fin q)
               [("best_reference", DInt 1); ("num_references", DInt 1);
                ("aggregation", DStr "max")]].
Proof.
  eexists. eexists. split; [reflexivity|].
  apply (@comet_kept_when_gpu_fails example_site None _ _
           "RuntimeError: no CUDA device" eq_refl).
  - cbn. tauto.
  - reflexivity.
  - reflexivity.
Defined.

(** ** Validated chunks *)

(** What [validate_parsed_chunks] asks of a chunk. *)
Definition substantial (chunk : Parsed.ParsedChunk) : Prop :=
  50 <= String.length (Parsed.greek_text chunk) /\
  exists r, In r (Parsed.reference_translations chunk) /\
            100 < String.length r.

Definition substantialb (chunk : Parsed.ParsedChunk) : bool :=
  negb (String.length (Parsed.greek_text chunk) <? 50)%nat
  && existsb (fun r => (100 <? String.length r)%nat)
             (Parsed.reference_translations chunk).

Lemma substantialb_spec chunk : substantialb chunk = true <-> substantial chunk.
Proof.
  unfold substantialb, substantial.
  rewrite andb_true_iff, negb_true_iff, Nat.ltb_ge, existsb_exists.
  split; intros [Hg (r & Hin & Hr)]; (split; [exact Hg|]); exists r;
    (split; [exact Hin|]); now apply Nat.ltb_lt.
Qed.

Lemma filter_none {A} (p : A -> bool) l (b : bool) :
  match filter p l with [] => false | _ :: _ => b end = b && existsb p l.
Proof.
  induction l as [|x l IH]; cbn.
  - now rewrite andb_false_r.
  - destruct (p x); cbn; [now rewrite andb_true_r | exact IH].
Qed.

Lemma validate_chunk_spec b chunk :
  validate_chunk b chunk = b && substantialb chunk.
Proof.
  unfold validate_chunk, substantialb. rewrite filter_none.
  destruct chunk as [cid g refs]. cbn [Parsed.greek_text Parsed.reference_translations].
  assert (Hg : negb (truthy g) || (String.length g <? 50)%nat
               = (String.length g <? 50)%nat).
  { destruct g; reflexivity. }
  rewrite Hg. destruct (String.length g <? 50)%nat, refs, b; cbn;
    try reflexivity; now rewrite ?andb_false_r.
Qed.

Lemma validate_fold chunks : forall b,
  fold_left validate_chunk chunks b = b && forallb substantialb chunks.
Proof.
  induction chunks as [|c chunks IH]; intros b; cbn [fold_left forallb].
  - now rewrite andb_true_r.
  - now rewrite IH, validate_chunk_spec, andb_assoc.
Qed.

Lemma validated_has_reference chunks :
  validate_parsed_chunks chunks = true ->
  Forall (fun c => exists r, In r (Parsed.reference_translations c) /\
                             100 < String.length r) chunks.
Proof.
  unfold validate_parsed_chunks. destruct chunks as [|c chunks];
    [discriminate|].
  rewrite validate_fold. cbn [andb]. rewrite forallb_forall, Forall_forall.
  intros H x Hx. now apply substantialb_spec, H.
Qed.

(** X21.  [validate_parsed_chunks] accepts a list exactly when it is not
    empty and every chunk has a Greek text of at least 50 characters and a
    reference of more than 100 characters; its two other tests (a Greek
    text that is missing, no reference at all) follow from these. *)
Theorem validate_parsed_chunks_spec chunks :
  validate_parsed_chunks chunks = true
  <-> chunks <> [] /\ Forall substantial chunks.
Proof.
  unfold validate_parsed_chunks. destruct chunks as [|c chunks].
  - split; [discriminate | intros [H _]; congruence].
  - rewrite validate_fold. cbn [andb]. rewrite forallb_forall, Forall_forall.
    split.
    + intros H. split; [discriminate|].
      intros x Hx. apply substantialb_spec, H, Hx.
    + intros [_ H] x Hx. apply substantialb_spec, H, Hx.
Qed.

(** ** Scores of a validated input *)

Definition finite (s : EvaluationScore) : Prop := score s <> NegInf.

Lemma or_nothing_finite body :
  (forall l, body = inr l -> Forall finite l) ->
  Forall finite (yield (or_nothing body)).
Proof.
  intros H. destruct body as [e|l]; cbn; [constructor | now apply H].
Qed.

Lemma finite_one n q d : Forall finite [mkScore n (Fin q) d].
Proof. repeat constructor. discriminate. Qed.

Section FiniteScores.

Variable libs : Libs.
Variable self : Evaluator.

Lemma bleu_finite h refs : Forall finite (yield (evaluate_bleu self h refs)).
Proof.
  unfold evaluate_bleu. destruct (h_bleu _) as [f|]; [|constructor].
  apply or_nothing_finite. intros l.
  destruct (f h refs) as [e|v]; cbn; [discriminate|].
  intros [= <-]. apply finite_one.
Qed.

Lemma chrf_finite h refs : Forall finite (yield (evaluate_chrf self h refs)).
Proof.
  unfold evaluate_chrf. destruct (h_chrf _) as [f|]; [|constructor].
  apply or_nothing_finite. intros l.
  destruct (f h refs) as [e|v]; cbn; [discriminate|].
  intros [= <-]. apply finite_one.
Qed.

Lemma meteor_finite h refs :
  Forall finite (yield (evaluate_meteor libs self h refs)).
Proof.
  unfold evaluate_meteor. destruct (h_meteor _) as [f|]; [|constructor].
  apply or_nothing_finite. intros l.
  destruct (word_tokenize libs _) as [e|hyp]; cbn; [discriminate|].
  destruct (map_py _ refs) as [e|toks]; cbn; [discriminate|].
  destruct (f toks hyp) as [e|v]; cbn; [discriminate|].
  intros [= <-]. apply finite_one.
Qed.

Lemma rouge_finite h refs : Forall finite (yield (evaluate_rouge self h refs)).
Proof.
  unfold evaluate_rouge. destruct (h_rouge _) as [f|]; [|constructor].
  apply or_nothing_finite. intros l.
  destruct (for_enumerate refs 0 _ _) as [e|[[best|] idx]]; cbn;
    try discriminate.
  intros [= <-]. apply finite_one.
Qed.

Lemma bertscore_finite h refs :
  Forall finite (yield (evaluate_bertscore self h refs)).
Proof.
  unfold evaluate_bertscore. destruct (h_bertscore _) as [f|]; [|constructor].
  apply or_nothing_finite. intros l.
  destruct (for_enumerate refs 0 _ _) as [e|[[bf [[[p r] f1]|]] idx]]; cbn;
    try discriminate.
  intros [= <-]. apply finite_one.
Qed.

Lemma max_loop_finite (f : string -> py Qc) refs st :
  refs <> [] ->
  for_enumerate refs 0 (max_body f) (NegInf, 0) = inr st ->
  exists q, fst st = Fin q.
Proof.
  intros Hrefs Hloop.
  destruct (map_py f refs) as [e|vs] eqn:Hvs.
  - rewrite (for_enumerate_steps f max_step) in Hloop
      by (intros; apply max_body_step).
    rewrite Hvs in Hloop. discriminate.
  - destruct (max_loop_first f Hrefs Hvs) as (j & v & _ & Heq).
    rewrite Heq in Hloop. injection Hloop as <-. now exists v.
Qed.

Lemma bleurt_finite h refs :
  refs <> [] -> Forall finite (yield (evaluate_bleurt self h refs)).
Proof.
  intros Hrefs. unfold evaluate_bleurt.
  destruct (h_bleurt _) as [f|]; [|constructor].
  apply or_nothing_finite. intros l.
  destruct (for_enumerate refs 0 _ _) as [e|st] eqn:Hloop; cbn;
    [discriminate|].
  intros [= <-]. apply max_loop_finite in Hloop as [q ->]; [|exact Hrefs].
  apply finite_one.
Qed.

Lemma comet_finite h refs src :
  refs <> [] -> Forall finite (yield (evaluate_comet libs self h refs src)).
Proof.
  intros Hrefs. unfold evaluate_comet.
  destruct (h_comet _) as [f|]; [|constructor].
  apply or_nothing_finite. intros l.
  destruct (mps_is_available libs) as [e|mps]; cbn; [discriminate|].
  destruct (for_enumerate refs 0 _ _) as [e|st] eqn:Hloop; cbn;
    [discriminate|].
  intros [= <-]. apply max_loop_finite in Hloop as [q ->]; [|exact Hrefs].
  apply finite_one.
Qed.

Lemma single_scores_finite h refs source :
  refs <> [] -> Forall finite (single_scores libs self h refs source).
Proof.
  intros Hrefs. unfold single_scores, sourceless_scores, comet_scores.
  repeat (apply Forall_app; split);
    auto using bleu_finite, chrf_finite, meteor_finite, rouge_finite,
      bertscore_finite, bleurt_finite.
  destruct source as [src|]; [|constructor].
  destruct (truthy src); [now apply comet_finite | constructor].
Qed.

End FiniteScores.

(** X22.  For chunks that pass [validate_parsed_chunks], no score that
    [evaluate_all] records is minus infinity: every chunk has a reference,
    so BLEURT and COMET, which start from minus infinity, have replaced it
    by the score of a reference when they report at all. *)
Theorem validated_scores_finite libs self chunks translations evs :
  validate_parsed_chunks chunks = true ->
  evaluate_all libs self chunks translations = inr evs ->
  Forall (fun ev => Forall finite (scores ev)) evs.
Proof.
  intros Hvalid. apply validated_has_reference in Hvalid.
  rewrite evaluate_all_total. intros [= <-].
  apply Forall_forall. intros ev Hev.
  apply in_flat_map in Hev as (c & Hc & Hev).
  unfold chunk_evaluations in Hev.
  destruct (Dict.get translations (Parsed.chunk_id c)) as [models|];
    [|destruct Hev].
  apply in_map_iff in Hev as (item & <- & _).
  cbn [scores chunk_evaluation_of]. apply single_scores_finite.
  rewrite Forall_forall in Hvalid. destruct (Hvalid c Hc) as (r & Hr & _).
  intros E. rewrite E in Hr. destruct Hr.
Qed.

(** A chunk that passes validation, in transliteration. *)
Definition validated_chunk : Parsed.ParsedChunk :=
  Parsed.mk "1"
    "Hoti tais tou somatos krasesin hai tes psyches dynameis hepontai"
    ["That the faculties of the soul follow the mixtures of the body is something I have tested and examined in many ways."].

Lemma validated_scores_finite_witness :
  exists evs,
    evaluate_all example_libs example_evaluator [validated_chunk]
      [("1", [("X", mkTransObj (Some "The soul follows the body.") None "")])]
    = inr evs /\
    evs <> [] /\
    Forall (fun ev => Forall finite (scores ev)) evs.
Proof.
  eexists. split; [reflexivity|]. split; [discriminate|].
  apply (@validated_scores_finite example_libs example_evaluator
           [validated_chunk]
           [("1", [("X", mkTransObj (Some "The soul follows the body.") None
                           "")])]);
    reflexivity.
Defined.
